(** * DBC table reader and spell projector: a shallow embedding

    The Python scripts under [scripts/] read WDBC table files (a 20-byte
    header, fixed-width records of little-endian 32-bit words, a trailing
    heap of null-terminated strings) and project spell rows out of them.
    This development embeds the readers of [extract_spells.py],
    [extract_spells_smart.py] and [extrac_game_data.py], the schema loader,
    the locale detector, the description templating and the row filters,
    and states the properties of the design document about them; it then
    embeds the lookup table builders, the incremental update of
    [extract_spells_smart.py] and the rest of [main], with the properties
    the code shows of them.

    Conventions: a Python [int] is a [Z]; a [bytes] value is a
    [list byte]; a [str] is the list of its code points ([list Z]); a
    [dict] is a [gmap]; a raised exception is the [Raise] branch of
    [result]. *)

From Stdlib Require Import ZArith List Bool Lia String Ascii QArith.
From Stdlib.Strings Require Import Byte.
From stdpp Require Import base option list gmap strings pretty.

Local Open Scope Z_scope.

(** ** Exceptions and results *)

Inductive exn : Type :=
  | struct_error                (* struct.error: buffer of the wrong size *)
  | ValueError (msg : string)
  | IndexError
  | KeyError (key : string).

Inductive result (A : Type) : Type :=
  | Ok (a : A)
  | Raise (e : exn).
Arguments Ok {A} a.
Arguments Raise {A} e.

Global Instance result_ret : MRet result := λ A a, Ok a.
Global Instance result_bind : MBind result := λ A B f m,
  match m with
  | Ok a => f a
  | Raise e => Raise e
  end.

Definition is_Ok {A} (r : result A) : bool :=
  match r with Ok _ => true | Raise _ => false end.

(** ** Bytes *)

Definition b2z (b : byte) : Z := Z.of_N (Byte.to_N b).

Definition z2b (z : Z) : byte :=
  match Byte.of_N (Z.to_N (z mod 256)) with
  | Some b => b
  | None => x00
  end.

(** [len(x)] as a Python int. *)
Definition len {A} (l : list A) : Z := Z.of_nat (length l).

(** Python's index normalisation for slices and [find]: a negative index
    counts from the end, and the result is clamped to [0 .. len]. *)
Definition norm_index (n i : Z) : Z :=
  if i <? 0 then Z.max (i + n) 0 else Z.min i n.

(** [l[a:b]] *)
Definition slice {A} (l : list A) (a b : Z) : list A :=
  let a' := norm_index (len l) a in
  let b' := norm_index (len l) b in
  take (Z.to_nat (b' - a')) (drop (Z.to_nat a') l).

(** Index of the first null byte of [l], the head of [l] having index [i];
    [-1] when there is none. *)
Fixpoint find_null_from (l : list byte) (i : Z) : Z :=
  match l with
  | [] => -1
  | b :: l' => if Byte.eqb b x00 then i else find_null_from l' (i + 1)
  end.

(** [blk.find(b'\x00', start)] *)
Definition find_null (blk : list byte) (start : Z) : Z :=
  let s := norm_index (len blk) start in
  find_null_from (drop (Z.to_nat s) blk) s.

(** The unsigned integer a little-endian byte string denotes. *)
Definition le_uint (l : list byte) : Z :=
  foldr (λ b acc, b2z b + 256 * acc) 0 l.

(** ** [struct.unpack] for the formats the scripts use *)

(** [struct.unpack('<I', data)[0]] *)
Definition unpack_I (data : list byte) : result Z :=
  if len data =? 4 then Ok (le_uint data) else Raise struct_error.

(** The [n] consecutive 32-bit words at the front of [data]. *)
Fixpoint words (n : nat) (data : list byte) : list Z :=
  match n with
  | O => []
  | S n' => le_uint (take 4 data) :: words n' (drop 4 data)
  end.

(** [struct.unpack(f'<{count}I', data)]: the buffer must hold exactly
    [4 * count] bytes. *)
Definition unpack_words (count : Z) (data : list byte) : result (list Z) :=
  if len data =? 4 * count then Ok (words (Z.to_nat count) data)
  else Raise struct_error.

Record header : Type := Header {
  h_magic : list byte;
  h_record_count : Z;
  h_field_count : Z;
  h_record_size : Z;
  h_string_block_size : Z
}.

(** [struct.unpack('<4sIIII', header)] *)
Definition unpack_header (hd : list byte) : result header :=
  if len hd =? 20 then
    Ok (Header (slice hd 0 4) (le_uint (slice hd 4 8)) (le_uint (slice hd 8 12))
               (le_uint (slice hd 12 16)) (le_uint (slice hd 16 20)))
  else Raise struct_error.

(** [b'WDBC'] *)
Definition WDBC : list byte := [x57; x44; x42; x43].

(** ** State and exceptions

    [stE S A] is a computation that threads a state [S] and either returns
    or raises. *)

Definition stE (S A : Type) : Type := S → result (A * S).

Global Instance stE_ret {S} : MRet (stE S) := λ A a s, Ok (a, s).
Global Instance stE_bind {S} : MBind (stE S) := λ A B k m s,
  match m s with
  | Ok (a, s') => k a s'
  | Raise e => Raise e
  end.

Definition lift {S A} (r : result A) : stE S A := λ s,
  match r with
  | Ok a => Ok (a, s)
  | Raise e => Raise e
  end.

Definition raise {S A} (e : exn) : stE S A := λ _, Raise e.

(** ** Binary files

    An open file is the list of bytes not yet read; [f.read(n)] returns at
    most [n] of them and advances (a negative [n] reads to the end). *)

Abbreviation io := (stE (list byte)).

Definition f_read (n : Z) : io (list byte) := λ f,
  if n <? 0 then Ok (f, []) else Ok (take (Z.to_nat n) f, drop (Z.to_nat n) f).

(** [with open(path, 'rb') as f: body]: run [body] on the file's contents. *)
Definition with_open {A} (contents : list byte) (body : io A) : result A :=
  match body contents with
  | Ok (a, _) => Ok a
  | Raise e => Raise e
  end.

Global Instance byte_eq_dec : EqDecision byte := Byte.byte_eq_dec.

(** ** Strings

    A [str] is the list of its code points; [str_lit] turns an ASCII
    literal of the source into one. *)

Definition str_lit (s : string) : list Z :=
  (λ a, Z.of_nat (nat_of_ascii a)) <$> list_ascii_of_string s.

Definition is_cont (b : byte) : bool := (0x80 <=? b2z b) && (b2z b <? 0xC0).

(** [data.decode('utf-8', errors='ignore')]: CPython's UTF-8 decoder with
    the [ignore] handler. A lead byte outside [C2..F4] is dropped; a lead
    byte whose first continuation byte is missing or out of range is
    dropped alone; a sequence broken at its second (third) continuation
    byte loses its first two (three) bytes; a sequence cut short by the end
    of the data is dropped whole. Overlong forms and surrogates are
    refused at the first continuation byte. *)
Fixpoint utf8_decode_ignore (data : list byte) : list Z :=
  match data with
  | [] => []
  | b0 :: t =>
    let c0 := b2z b0 in
    if c0 <? 0x80 then c0 :: utf8_decode_ignore t
    else if c0 <? 0xC2 then utf8_decode_ignore t
    else if c0 <? 0xE0 then
      match t with
      | [] => []
      | b1 :: t1 =>
        if is_cont b1
        then (c0 - 0xC0) * 64 + (b2z b1 - 0x80) :: utf8_decode_ignore t1
        else utf8_decode_ignore t
      end
    else if c0 <? 0xF0 then
      match t with
      | [] => []
      | b1 :: t1 =>
        if negb (is_cont b1)
           || (if b2z b1 <? 0xA0 then c0 =? 0xE0 else c0 =? 0xED)
        then utf8_decode_ignore t
        else
          match t1 with
          | [] => []
          | b2 :: t2 =>
            if is_cont b2
            then (c0 - 0xE0) * 4096 + (b2z b1 - 0x80) * 64 + (b2z b2 - 0x80)
                 :: utf8_decode_ignore t2
            else utf8_decode_ignore t1
          end
      end
    else if c0 <? 0xF5 then
      match t with
      | [] => []
      | b1 :: t1 =>
        if negb (is_cont b1)
           || (if b2z b1 <? 0x90 then c0 =? 0xF0 else c0 =? 0xF4)
        then utf8_decode_ignore t
        else
          match t1 with
          | [] => []
          | b2 :: t2 =>
            if negb (is_cont b2) then utf8_decode_ignore t1
            else
              match t2 with
              | [] => []
              | b3 :: t3 =>
                if is_cont b3
                then (c0 - 0xF0) * 262144 + (b2z b1 - 0x80) * 4096
                     + (b2z b2 - 0x80) * 64 + (b2z b3 - 0x80)
                     :: utf8_decode_ignore t3
                else utf8_decode_ignore t2
              end
          end
      end
    else utf8_decode_ignore t
  end.

(** ** Python sequences *)

(** [l[i]]: a negative index counts from the end; out of range raises
    [IndexError]. *)
Definition get_item {A} (l : list A) (i : Z) : result A :=
  let i' := if i <? 0 then i + len l else i in
  if (i' <? 0) || (len l <=? i') then Raise IndexError
  else match l !! Z.to_nat i' with
       | Some x => Ok x
       | None => Raise IndexError
       end.

Fixpoint is_prefix (sub s : list Z) : bool :=
  match sub, s with
  | [], _ => true
  | _ :: _, [] => false
  | a :: sub', b :: s' => (a =? b) && is_prefix sub' s'
  end.

(** [sub in s] on strings. *)
Fixpoint contains (sub s : list Z) : bool :=
  is_prefix sub s ||
  match s with
  | [] => false
  | _ :: s' => contains sub s'
  end.

(** [c.isspace()]: the code points Python counts as whitespace. *)
Definition isspace (c : Z) : bool :=
  ((0x09 <=? c) && (c <=? 0x0D)) || ((0x1C <=? c) && (c <=? 0x20))
  || (c =? 0x85) || (c =? 0xA0) || (c =? 0x1680)
  || ((0x2000 <=? c) && (c <=? 0x200A))
  || (c =? 0x2028) || (c =? 0x2029) || (c =? 0x202F) || (c =? 0x205F)
  || (c =? 0x3000).

Fixpoint lstrip (s : list Z) : list Z :=
  match s with
  | [] => []
  | c :: s' => if isspace c then lstrip s' else s
  end.

(** [s.strip()] *)
Definition strip (s : list Z) : list Z := rev (lstrip (rev (lstrip s))).

(** [any(ord(c) > 127 for c in s)] *)
Definition has_high_char (s : list Z) : bool := existsb (λ c, c >? 127) s.


(** ** Library data

    Three things the scripts take from the Python runtime and its Unicode
    tables: [int(s)] on a string, [c.upper()] and whether [c] is
    alphanumeric (for the pattern [\w]) on a code point outside ASCII. *)

Class PyLib : Type := {
  int_of_str : string → result Z;
  upper_nonascii : Z → list Z;
  isalnum_nonascii : Z → bool
}.

Definition is_ascii_word (c : Z) : bool :=
  ((48 <=? c) && (c <=? 57)) || ((65 <=? c) && (c <=? 90))
  || ((97 <=? c) && (c <=? 122)) || (c =? 95).

(** Whether [\w] matches the code point [c]. *)
Definition is_word `{PyLib} (c : Z) : bool :=
  if c <? 128 then is_ascii_word c else isalnum_nonascii c.

Definition upper_char `{PyLib} (c : Z) : list Z :=
  if c <? 128 then [if (97 <=? c) && (c <=? 122) then c - 32 else c]
  else upper_nonascii c.

(** [s.upper()] *)
Definition upper `{PyLib} (s : list Z) : list Z := s ≫= upper_char.

(** ** Regular expressions of the scripts *)

(** [re.sub(pat, repl, s)] for a pattern [pat] that is a literal, non-empty
    string: every occurrence, left to right, without overlap. [skip] counts
    the characters of the current match still to be dropped. *)
Fixpoint re_sub_literal (pat repl s : list Z) (skip : nat) : list Z :=
  match s with
  | [] => []
  | c :: s' =>
    match skip with
    | S k => re_sub_literal pat repl s' k
    | O =>
      if is_prefix pat s
      then repl ++ re_sub_literal pat repl s' (length pat - 1)
      else c :: re_sub_literal pat repl s' 0
    end
  end.

Definition dollar : Z := 36.

(** [re.sub(r'\$\w+', repl, s)]: a match starts at a [$] followed by a word
    character and takes every word character after it; [in_match] says
    that such a match is being consumed. *)
Fixpoint re_sub_token `{PyLib} (repl s : list Z) (in_match : bool) : list Z :=
  match s with
  | [] => []
  | c :: s' =>
    if in_match && is_word c then re_sub_token repl s' true
    else if (c =? dollar) && (match s' with d :: _ => is_word d | [] => false end)
    then repl ++ re_sub_token repl s' true
    else c :: re_sub_token repl s' false
  end.

Definition is_vowel (c : Z) : bool :=
  existsb (Z.eqb c) (str_lit "aeiouAEIOU").

(** [re.compile(r'[aeiouAEIOU]').search(text)] finds a match. *)
Definition vowel_re_search (text : list Z) : bool := existsb is_vowel text.

Definition is_printable (c : Z) : bool := (0x20 <=? c) && (c <=? 0x7E).

Fixpoint drop_printable (s : list Z) : list Z :=
  match s with
  | [] => []
  | c :: s' => if is_printable c then drop_printable s' else s
  end.

(** [re.compile(r'^[\x20-\x7E]+$').match(text)] finds a match: at least
    one printable character, then the end of the string, which [$] also
    sees just before a final line feed. *)
Definition letter_re_match (text : list Z) : bool :=
  match text with
  | [] => false
  | c :: _ =>
    is_printable c &&
    (let rest := drop_printable text in
     bool_decide (rest = []) || bool_decide (rest = [10]))
  end.

(** ** Numbers and iteration *)

(** A field of [SpellRange.dbc] read through [get_float] is a 32-bit
    float, kept here as its bit pattern; the default of a failed lookup is
    the int [0]. *)
Inductive number : Type :=
  | Int (z : Z)
  | Float32 (bits : Z).

(** [max(best :: l, key=key)]: the first element whose key is largest. *)
Fixpoint max_by {A} (key : A → Z) (best : A) (l : list A) : A :=
  match l with
  | [] => best
  | x :: l' => max_by key (if key x >? key best then x else best) l'
  end.

(** The integer [f'{ms / 1000:.0f}'] prints: the quotient rounded to the
    nearest integer, halves to the even one. The double [ms / 1000] rounds
    like the exact quotient as long as [ms] is below [2^53]. *)
Definition round_div_1000 (ms : Z) : Z :=
  let q := ms / 1000 in
  let r := ms mod 1000 in
  if r <? 500 then q
  else if 500 <? r then q + 1
  else if Z.even q then q else q + 1.

(** ** XML documents, as [xml.etree.ElementTree] presents them *)

#[warnings="-register-all"]
Inductive element : Type :=
  | Element (tag : string) (attrib : gmap string string) (children : list element).

Definition tag (e : element) : string :=
  match e with Element t _ _ => t end.
Definition attrib (e : element) : gmap string string :=
  match e with Element _ a _ => a end.
Definition children (e : element) : list element :=
  match e with Element _ _ cs => cs end.


(** ** More of Python's strings, and JSON values *)

(** [s.endswith(suffix)]; [s.startswith(prefix)] is [is_prefix]. *)
Definition endswith (s suffix : list Z) : bool :=
  is_prefix (rev suffix) (rev s).

(** [s.split(sep)[-1]] for a separator of one character: what follows the
    last [sep] of [s], [acc] being the component read so far. *)
Fixpoint last_component (sep : Z) (s : list Z) (acc : list Z) : list Z :=
  match s with
  | [] => acc
  | c :: s' =>
    if c =? sep then last_component sep s' []
    else last_component sep s' (acc ++ [c])
  end.

Definition backslash : Z := 92.

(** [path.split('\\')[-1] if '\\' in path else path], the expression the
    three scripts turn a texture path into an icon name with. *)
Definition icon_name_of (path : list Z) : list Z :=
  if existsb (Z.eqb backslash) path
  then last_component backslash path []
  else path.

(** A value [json.load] returns; a float is kept as its bit pattern. *)
#[warnings="-register-all"]
Inductive json : Type :=
  | JNull
  | JBool (b : bool)
  | JInt (n : Z)
  | JFloat (bits : Z)
  | JStr (s : list Z)
  | JArr (items : list json)
  | JObj (members : gmap string json).
(** ** [extract_spells.py] *)

Module ExtractSpells.

(** [DBC_PATH] *)
Definition DBC_PATH : string := "game-data/DBFilesClient".




(** [SPELL_FIELDS], given [LOC_INDICES]. *)
Definition SPELL_FIELDS (LOC_INDICES : gmap string Z) : gmap string Z :=
  list_to_map [
    ("Id", 0); ("School", 1); ("CastingTimeIndex", 18); ("RecoveryTime", 19);
    ("BaseLevel", 28); ("SpellLevel", 29); ("MaxLevel", 27);
    ("DurationIndex", 30); ("PowerType", 31); ("ManaCost", 32);
    ("RangeIndex", 36); ("SpellIconID", 117);
    ("Name_enUS", default 119 (LOC_INDICES !! "Name"));
    ("NameSubtext_enUS", default 128 (LOC_INDICES !! "NameSubtext") + 1);
    ("Description_enUS", default 137 (LOC_INDICES !! "Description") + 2);
    ("Reagent_1", 42); ("Reagent_2", 43); ("Reagent_3", 44); ("Reagent_4", 45);
    ("Reagent_5", 46); ("Reagent_6", 47); ("Reagent_7", 48); ("Reagent_8", 49);
    ("ReagentCount_1", 50); ("ReagentCount_2", 51); ("ReagentCount_3", 52);
    ("ReagentCount_4", 53); ("ReagentCount_5", 54); ("ReagentCount_6", 55);
    ("ReagentCount_7", 56); ("ReagentCount_8", 57)
  ].

(** [d[key]] on a dict with string keys. *)
Definition dict_get {V} (d : gmap string V) (key : string) : result V :=
  match d !! key with
  | Some v => Ok v
  | None => Raise (KeyError key)
  end.


Record DBCReader : Type := mkDBCReader {
  file_path : string;
  records : list (list Z);
  string_block : list byte;
  field_count : Z;
  _string_cache : gmap Z (list Z)
}.

(** The loop [for _ in range(record_count)] of [_read_file], [n]
    iterations left, [acc] being [self.records]. *)
Fixpoint read_records (n : nat) (field_count record_size : Z)
    (acc : list (list Z)) : io (list (list Z)) :=
  match n with
  | O => mret acc
  | S n' =>
    record_data ← f_read record_size;
    record ← lift (unpack_words field_count record_data);
    read_records n' field_count record_size (acc ++ [record])
  end.

Definition _read_file (path : string) : io DBCReader :=
  hd ← f_read 20;
  h ← lift (unpack_header hd);
  if bool_decide (h_magic h ≠ WDBC)
  then raise (ValueError ("Invalid DBC: " +:+ path))
  else
    recs ← read_records (Z.to_nat (h_record_count h)) (h_field_count h)
                        (h_record_size h) [];
    blk ← f_read (h_string_block_size h);
    mret (mkDBCReader path recs blk (h_field_count h) ∅).

(** [DBCReader(file_path)] on a file holding [contents]. *)
Definition new (path : string) (contents : list byte) : result DBCReader :=
  with_open contents (_read_file path).

(** [get_string]: returns the string and the reader with its cache
    updated. The [try] around [decode] never fires, the [ignore] handler
    raising nothing. *)
Definition get_string (self : DBCReader) (offset : Z) : list Z * DBCReader :=
  match _string_cache self !! offset with
  | Some s => (s, self)
  | None =>
    if (offset >=? len (string_block self)) || (offset <? 0) then ([], self)
    else
      let e := find_null (string_block self) offset in
      if e =? -1 then ([], self)
      else
        let result := utf8_decode_ignore (slice (string_block self) offset e) in
        (result,
         mkDBCReader (file_path self) (records self) (string_block self)
                     (field_count self) (<[offset := result]> (_string_cache self)))
  end.



(** [get_string] as a step of a computation on the reader. *)
Definition get_string_m (offset : Z) : stE DBCReader (list Z) :=
  λ self, Ok (get_string self offset).

(** [get_float]: the 32-bit float whose bits are [int_value];
    [struct.pack('I', ...)] refuses a value outside 32 bits. *)
Definition get_float (int_value : Z) : result number :=
  if (0 <=? int_value) && (int_value <? 2 ^ 32) then Ok (Float32 int_value)
  else Raise struct_error.

(** The loop of [load_spell_icons] over the records of [SpellIcon.dbc]. *)
Fixpoint icons_loop (recs : list (list Z)) (icon_map : gmap Z (list Z))
    : stE DBCReader (gmap Z (list Z)) :=
  match recs with
  | [] => mret icon_map
  | record :: rest =>
    icon_id ← lift (get_item record 0);
    path_off ← lift (get_item record 1);
    texture_path ← get_string_m path_off;
    if bool_decide (texture_path = []) then icons_loop rest icon_map
    else
      let icon_name := icon_name_of texture_path in
      icons_loop rest (<[icon_id := icon_name]> icon_map)
  end.

(** [load_spell_icons], on the contents of [SpellIcon.dbc]. *)
Definition load_spell_icons (contents : list byte) : result (gmap Z (list Z)) :=
  dbc ← new (DBC_PATH +:+ "/SpellIcon.dbc") contents;
  match icons_loop (records dbc) ∅ dbc with
  | Ok (icon_map, _) => Ok icon_map
  | Raise e => Raise e
  end.

(** The comprehension [{r[0]: value(r) for r in dbc.records}]. *)
Fixpoint dict_of_records {V} (value : list Z → result V) (recs : list (list Z))
    (d : gmap Z V) : result (gmap Z V) :=
  match recs with
  | [] => Ok d
  | r :: rest =>
    k ← get_item r 0;
    v ← value r;
    dict_of_records value rest (<[k := v]> d)
  end.

(** [load_spell_durations] and [load_spell_cast_times], on the contents of
    their table. *)
Definition load_spell_durations (contents : list byte) : result (gmap Z Z) :=
  dbc ← new (DBC_PATH +:+ "/SpellDuration.dbc") contents;
  dict_of_records (λ r, get_item r 1) (records dbc) ∅.

Definition load_spell_cast_times (contents : list byte) : result (gmap Z Z) :=
  dbc ← new (DBC_PATH +:+ "/SpellCastTimes.dbc") contents;
  dict_of_records (λ r, get_item r 1) (records dbc) ∅.

(** [load_spell_ranges] *)
Definition load_spell_ranges (contents : list byte)
    : result (gmap Z (number * number)) :=
  dbc ← new (DBC_PATH +:+ "/SpellRange.dbc") contents;
  dict_of_records
    (λ r, w1 ← get_item r 1; lo ← get_float w1;
          w2 ← get_item r 2; hi ← get_float w2; mret (lo, hi))
    (records dbc) ∅.

(** [parse_description] *)
Definition parse_description `{PyLib} (desc : list Z) (duration_ms : Z) : list Z :=
  if bool_decide (desc = []) then []
  else
    let desc := re_sub_literal (str_lit "$s1") (str_lit "X") desc 0 in
    let desc := re_sub_literal (str_lit "$s2") (str_lit "Y") desc 0 in
    let desc := re_sub_literal (str_lit "$s3") (str_lit "Z") desc 0 in
    let desc := re_sub_literal (str_lit "$o1") (str_lit "X") desc 0 in
    let desc := re_sub_literal (str_lit "$o2") (str_lit "Y") desc 0 in
    let desc := re_sub_literal (str_lit "$o3") (str_lit "Z") desc 0 in
    let desc :=
      if duration_ms >? 0 then
        re_sub_literal (str_lit "$d")
          (str_lit (pretty (round_div_1000 duration_ms) +:+ " sec")) desc 0
      else re_sub_literal (str_lit "$d") (str_lit "Z sec") desc 0 in
    let desc := re_sub_token (str_lit "X") desc false in
    strip desc.

(** What the body of the sampling loop decides for one string. *)
Definition looks_english (text : list Z) : bool :=
  if bool_decide (text = []) || (len text <? 3) then false
  else letter_re_match text && vowel_re_search text.

(** The loop [for off in range(8)] on one sampled record; an exception
    while fetching the string skips the slot. *)
Fixpoint score_slots (record : list Z) (loc_index : Z) (offs : list Z)
    (scores : list Z) (self : DBCReader) : list Z * DBCReader :=
  match offs with
  | [] => (scores, self)
  | off :: offs' =>
    match get_item record (loc_index + off) with
    | Raise _ => score_slots record loc_index offs' scores self
    | Ok w =>
      let '(text, self') := get_string self w in
      if looks_english text
      then score_slots record loc_index offs'
             (alter (λ n, n + 1) (Z.to_nat off) scores) self'
      else score_slots record loc_index offs' scores self'
    end
  end.

(** The loop [for record in spell_dbc.records[:sample_count]]. *)
Fixpoint score_records (sample : list (list Z)) (loc_index : Z)
    (scores : list Z) (self : DBCReader) : list Z * DBCReader :=
  match sample with
  | [] => (scores, self)
  | record :: sample' =>
    let '(scores', self') := score_slots record loc_index (seqZ 0 8) scores self in
    score_records sample' loc_index scores' self'
  end.

(** The values [detect_locale_offset] computes and prints; the
    confidence, a float in the source, is kept as the exact rational. *)
Record detection : Type := mkDetection {
  scores : list Z;
  best_off : Z;
  total : Z;
  confidence : Q
}.

Definition detect_locale (spell_dbc : DBCReader) (loc_index : Z)
    : detection * DBCReader :=
  let sample_count := Z.min 200 (len (records spell_dbc)) in
  let '(scores, self') :=
    score_records (slice (records spell_dbc) 0 sample_count) loc_index
                  (replicate 8 0) spell_dbc in
  let score i := default 0 (scores !! Z.to_nat i) in
  let best_off := max_by score 0 (seqZ 1 7) in
  let total := foldr Z.add 0 scores in
  let confidence :=
    if total =? 0 then 0%Q
    else (inject_Z (score best_off) / inject_Z total * 100)%Q in
  (mkDetection scores best_off total confidence, self').

(** [detect_locale_offset]: the slot it returns, and the reader with the
    strings it cached. *)
Definition detect_locale_offset (spell_dbc : DBCReader) (loc_index : Z)
    : Z * DBCReader :=
  let '(d, self') := detect_locale spell_dbc loc_index in (best_off d, self').

(** [should_skip_spell] *)
Definition should_skip_spell `{PyLib} (name : list Z) : bool :=
  let skip_keywords :=
    str_lit <$> ["(OLD)"; "TEST"; "NYI"; "DND"; "QA"; "UNUSED"; "DEPRECATED";
                 "DEATHKNIGHT"]%string in
  existsb (λ keyword, contains keyword (upper name)) skip_keywords.

(** A row of the output, in the order of [SCHEMA]. *)
Record spell_array : Type := mkSpellArray {
  sa_id : Z;
  sa_name : list Z;
  sa_rank : option (list Z);
  sa_icon : list Z;
  sa_school : Z;
  sa_desc : list Z;
  sa_cost : Z;
  sa_powerType : Z;
  sa_castTime : Z;
  sa_cooldown : Z;
  sa_rangeMin : number;
  sa_rangeMax : number;
  sa_duration : Z;
  sa_reagents : option (list (Z * Z));
  sa_minLevel : Z;
  sa_spellLevel : Z;
  sa_maxLevel : Z
}.

(** The lookup tables [main] loads before the pass. *)
Record tables : Type := mkTables {
  icon_map : gmap Z (list Z);
  duration_map : gmap Z Z;
  cast_time_map : gmap Z Z;
  range_map : gmap Z (number * number)
}.

(** [record[SPELL_FIELDS[key] + delta]] *)
Definition field (SF : gmap string Z) (record : list Z) (key : string)
    (delta : Z) : result Z :=
  i ← dict_get SF key;
  get_item record (i + delta).

(** The loop [for i in range(1, 9)] collecting the reagents. *)
Fixpoint reagents_loop (SF : gmap string Z) (record : list Z) (idxs : list Z)
    (reagents : list (Z * Z)) : result (list (Z * Z)) :=
  match idxs with
  | [] => Ok reagents
  | i :: idxs' =>
    reagent_id ← field SF record ("Reagent_" +:+ pretty i) 0;
    reagent_count ← field SF record ("ReagentCount_" +:+ pretty i) 0;
    if reagent_id >? 0
    then reagents_loop SF record idxs' (reagents ++ [(reagent_id, reagent_count)])
    else reagents_loop SF record idxs' reagents
  end.

(** [extract_spell]; [SF] and [LOCALE_OFFSET] are the two globals it
    reads. Its last statement returns the row: no path returns [None]. *)
Definition extract_spell `{PyLib} (SF : gmap string Z) (LOCALE_OFFSET : Z)
    (record : list Z) (t : tables) : stE DBCReader (option spell_array) :=
  spell_id ← lift (field SF record "Id" 0);
  name_off ← lift (field SF record "Name_enUS" LOCALE_OFFSET);
  name ← get_string_m name_off;
  rank_off ← lift (field SF record "NameSubtext_enUS" LOCALE_OFFSET);
  rank_raw ← get_string_m rank_off;
  let rank := if bool_decide (rank_raw = []) then None else Some rank_raw in
  icon_id ← lift (field SF record "SpellIconID" 0);
  let icon := default (str_lit "INV_Misc_QuestionMark") (icon_map t !! icon_id) in
  school ← lift (field SF record "School" 0);
  desc_off ← lift (field SF record "Description_enUS" LOCALE_OFFSET);
  desc_raw ← get_string_m desc_off;
  duration_id ← lift (field SF record "DurationIndex" 0);
  let duration_ms := default 0 (duration_map t !! duration_id) in
  let desc := parse_description desc_raw duration_ms in
  cost ← lift (field SF record "ManaCost" 0);
  power_type ← lift (field SF record "PowerType" 0);
  cast_time_id ← lift (field SF record "CastingTimeIndex" 0);
  let cast_time := default 0 (cast_time_map t !! cast_time_id) in
  cooldown ← lift (field SF record "RecoveryTime" 0);
  range_id ← lift (field SF record "RangeIndex" 0);
  let '(range_min, range_max) := default (Int 0, Int 0) (range_map t !! range_id) in
  reagents ← lift (reagents_loop SF record (seqZ 1 8) []);
  let reagents := if bool_decide (reagents = []) then None else Some reagents in
  min_level ← lift (field SF record "BaseLevel" 0);
  spell_level ← lift (field SF record "SpellLevel" 0);
  max_level ← lift (field SF record "MaxLevel" 0);
  mret (Some (mkSpellArray spell_id name rank icon school desc cost power_type
                cast_time cooldown range_min range_max duration_ms reagents
                min_level spell_level max_level)).

(** The loop [for record in spell_dbc.records] of [main], [spells] and
    [skipped] being its two accumulators. *)
Fixpoint extract_loop `{PyLib} (SF : gmap string Z) (LOCALE_OFFSET : Z)
    (t : tables) (recs : list (list Z)) (spells : list spell_array)
    (skipped : Z) : stE DBCReader (list spell_array * Z) :=
  match recs with
  | [] => mret (spells, skipped)
  | record :: rest =>
    spell_arr ← extract_spell SF LOCALE_OFFSET record t;
    match spell_arr with
    | Some row => extract_loop SF LOCALE_OFFSET t rest (spells ++ [row]) skipped
    | None => extract_loop SF LOCALE_OFFSET t rest spells (skipped + 1)
    end
  end.

(** [main] from the locale detection to the end of the pass, the tables
    and [Spell.dbc] being loaded: the rows and the skip count it prints. *)
Definition main_extract `{PyLib} (LOC_INDICES : gmap string Z) (t : tables)
    (spell_dbc : DBCReader) : result (list spell_array * Z) :=
  let SF := SPELL_FIELDS LOC_INDICES in
  name_loc_index ← dict_get SF "Name_enUS";
  let '(detected_offset, spell_dbc) := detect_locale_offset spell_dbc name_loc_index in
  match extract_loop SF detected_offset t (records spell_dbc) [] 0 spell_dbc with
  | Ok (out, _) => Ok out
  | Raise e => Raise e
  end.

(** [main] up to the end of the pass, on the contents of the five table
    files it opens. *)
Definition main `{PyLib} (LOC_INDICES : gmap string Z)
    (icon_file duration_file cast_time_file range_file spell_file : list byte)
    : result (list spell_array * Z) :=
  icon_map ← load_spell_icons icon_file;
  duration_map ← load_spell_durations duration_file;
  cast_time_map ← load_spell_cast_times cast_time_file;
  range_map ← load_spell_ranges range_file;
  spell_dbc ← new (DBC_PATH +:+ "/Spell.dbc") spell_file;
  main_extract LOC_INDICES (mkTables icon_map duration_map cast_time_map range_map)
               spell_dbc.

(** The loop [for i in range(8)] of the diagnostics of [main]: the string
    of each slot of the block at [base] is fetched and printed. *)
Fixpoint print_slots (record : list Z) (base : Z) (offs : list Z)
    : stE DBCReader unit :=
  match offs with
  | [] => mret ()
  | i :: offs' =>
    w ← lift (get_item record (base + i));
    val ← get_string_m w;
    print_slots record base offs'
  end.

(** The loop [for block_name in ["Name", "NameSubtext", "Description"]]. *)
Fixpoint print_blocks (LOC_INDICES : gmap string Z) (record : list Z)
    (block_names : list string) : stE DBCReader unit :=
  match block_names with
  | [] => mret ()
  | block_name :: rest =>
    base ← lift (dict_get LOC_INDICES block_name);
    _ ← print_slots record base (seqZ 0 8);
    print_blocks LOC_INDICES record rest
  end.

(** The loop [for record in spell_dbc.records] that looks for spell 2 and
    stops at the first it finds. *)
Fixpoint focus_test (LOC_INDICES : gmap string Z) (recs : list (list Z))
    : stE DBCReader unit :=
  match recs with
  | [] => mret ()
  | record :: rest =>
    spell_id ← lift (get_item record 0);
    if spell_id =? 2
    then print_blocks LOC_INDICES record ["Name"; "NameSubtext"; "Description"]
    else focus_test LOC_INDICES rest
  end.

(** The diagnostics [main] runs once the output is written, what they
    print left out. *)
Definition diagnostics (LOC_INDICES : gmap string Z) : stE DBCReader unit :=
  λ spell_dbc,
    (first ← lift (get_item (records spell_dbc) 0);
     _ ← print_blocks LOC_INDICES first ["Name"; "NameSubtext"; "Description"];
     focus_test LOC_INDICES (records spell_dbc)) spell_dbc.

End ExtractSpells.

(** ** The reader of [extract_spells_smart.py] *)

Module ExtractSpellsSmart.

Record DBCReader : Type := mkDBCReader {
  file_path : string;
  records : list (list Z);
  string_block : list byte;
  field_count : Z;
  record_size : Z
}.

(** The inner loop [for j in range(field_count)], from field [j] on, [n]
    iterations left, [record] being the list built so far. *)
Fixpoint read_fields (n : nat) (j : Z) (record_data : list byte)
    (record : list Z) : result (list Z) :=
  match n with
  | O => Ok record
  | S n' =>
    let start := j * 4 in
    let end_ := start + 4 in
    if end_ <=? len record_data then
      value ← unpack_I (slice record_data start end_);
      read_fields n' (j + 1) record_data (record ++ [value])
    else read_fields n' (j + 1) record_data (record ++ [0])
  end.

(** The loop [for i in range(record_count)] with its [break]. *)
Fixpoint read_records (n : nat) (field_count record_size : Z)
    (acc : list (list Z)) : io (list (list Z)) :=
  match n with
  | O => mret acc
  | S n' =>
    record_data ← f_read record_size;
    if bool_decide (len record_data ≠ record_size) then mret acc
    else
      record ← lift (read_fields (Z.to_nat field_count) 0 record_data []);
      read_records n' field_count record_size (acc ++ [record])
  end.

Definition read_file (path : string) : io DBCReader :=
  hd ← f_read 20;
  h ← lift (unpack_header hd);
  if bool_decide (h_magic h ≠ WDBC)
  then raise (ValueError ("Not a valid DBC file: " +:+ path))
  else
    recs ← read_records (Z.to_nat (h_record_count h)) (h_field_count h)
                        (h_record_size h) [];
    blk ← f_read (h_string_block_size h);
    mret (mkDBCReader path recs blk (h_field_count h) (h_record_size h)).

Definition new (path : string) (contents : list byte) : result DBCReader :=
  with_open contents (read_file path).

Definition get_string (self : DBCReader) (offset : Z) : list Z :=
  if offset <? len (string_block self) then
    let e := find_null (string_block self) offset in
    if negb (e =? -1)
    then utf8_decode_ignore (slice (string_block self) offset e)
    else []
  else [].

(** The loop of [extract_spell_icons] over the records of
    [SpellIcon.dbc]. *)
Fixpoint icons_loop (icon_dbc : DBCReader) (recs : list (list Z))
    (icon_mapping : gmap Z (list Z)) : result (gmap Z (list Z)) :=
  match recs with
  | [] => Ok icon_mapping
  | record :: rest =>
    icon_id ← get_item record 0;
    path_off ← get_item record 1;
    let texture_path := get_string icon_dbc path_off in
    if bool_decide (texture_path = []) then icons_loop icon_dbc rest icon_mapping
    else
      let icon_name := icon_name_of texture_path in
      icons_loop icon_dbc rest (<[icon_id := icon_name]> icon_mapping)
  end.

(** [extract_spell_icons], on the contents of [SpellIcon.dbc]. *)
Definition extract_spell_icons (contents : list byte) : result (gmap Z (list Z)) :=
  icon_dbc ← new "game-data/DBFilesClient/SpellIcon.dbc" contents;
  icons_loop icon_dbc (records icon_dbc) ∅.

(** The first loop of [find_best_spell_name], over [test_fields]; [None]
    when it ends without returning. *)
Fixpoint first_choice (record : list Z) (spell_dbc : DBCReader)
    (test_fields : list Z) : result (option (list Z)) :=
  match test_fields with
  | [] => Ok None
  | field_idx :: rest =>
    if field_idx <? len record then
      off ← get_item record field_idx;
      let name := get_string spell_dbc off in
      if negb (bool_decide (name = [])) && (len name >? 3)
         && negb (is_prefix (str_lit " ") name)
         && negb (endswith name (str_lit "(OLD)"))
         && negb (contains (str_lit " of Recall") name)
      then Ok (Some name)
      else first_choice record spell_dbc rest
    else first_choice record spell_dbc rest
  end.

(** Its fallback loop, over the field indices [idxs]. *)
Fixpoint fallback_choice (record : list Z) (spell_dbc : DBCReader)
    (idxs : list Z) : result (option (list Z)) :=
  match idxs with
  | [] => Ok None
  | field_idx :: rest =>
    off ← get_item record field_idx;
    let name := get_string spell_dbc off in
    if negb (bool_decide (name = [])) && (len name >? 3)
       && negb (contains (str_lit "(OLD)") name)
       && negb (contains (str_lit " of Recall") name)
    then Ok (Some name)
    else fallback_choice record spell_dbc rest
  end.

(** [find_best_spell_name] *)
Definition find_best_spell_name (record : list Z) (spell_dbc : DBCReader)
    : result (list Z) :=
  first ← first_choice record spell_dbc [1; 4; 28; 29; 127; 36; 82];
  match first with
  | Some name => Ok name
  | None =>
    fallback ← fallback_choice record spell_dbc (seqZ 0 (Z.min 50 (len record)));
    match fallback with
    | Some name => Ok name
    | None => Ok (str_lit "Unknown Spell")
    end
  end.

(** The icon mapping of [update_spell_data]: the dict
    [extract_spell_icons] has just built, keyed by icon id, or the object
    read back from [icon_mapping.json], whose keys are strings. *)
Inductive icon_mapping : Type :=
  | Extracted (m : gmap Z (list Z))
  | Loaded (m : gmap string json).

(** [icon_id in icon_mapping] for an int [icon_id]: an int equals no
    string key. *)
Definition mapping_has (icon_mapping : icon_mapping) (icon_id : Z) : bool :=
  match icon_mapping with
  | Extracted m => bool_decide (is_Some (m !! icon_id))
  | Loaded _ => false
  end.

(** [icon_mapping.get(icon_id)] *)
Definition mapping_get (icon_mapping : icon_mapping) (icon_id : Z) : json :=
  match icon_mapping with
  | Extracted m =>
    match m !! icon_id with Some name => JStr name | None => JNull end
  | Loaded _ => JNull
  end.

(** The loop [for icon_field in [21, 22, 23, 24, 25]]; [0] is the value
    [icon_id] has when no field matches. *)
Fixpoint icon_search (icon_mapping : icon_mapping) (record : list Z)
    (icon_fields : list Z) : result Z :=
  match icon_fields with
  | [] => Ok 0
  | icon_field :: rest =>
    if icon_field <? len record then
      v ← get_item record icon_field;
      if mapping_has icon_mapping v then Ok v
      else icon_search icon_mapping record rest
    else icon_search icon_mapping record rest
  end.

(** The state of the loop of [update_spell_data]: [spells_data], an object
    of objects, and the two counters. *)
Record update : Type := mkUpdate {
  spells_data : gmap string (gmap string json);
  updated_count : Z;
  new_count : Z
}.

(** [spells_data[spell_key].get('name') != spell_name] *)
Definition name_differs (entry : gmap string json) (spell_name : list Z) : bool :=
  match entry !! "name" with
  | Some (JStr s) => negb (bool_decide (s = spell_name))
  | _ => true
  end.

(** One iteration of [for record in spell_dbc.records]. *)
Definition update_step (spell_dbc : DBCReader) (icon_mapping : icon_mapping)
    (st : update) (record : list Z) : result update :=
  spell_id ← get_item record 0;
  if (spell_id =? 0) || (spell_id >? 100000) then Ok st
  else
    spell_name ← find_best_spell_name record spell_dbc;
    icon_id ← icon_search icon_mapping record [21; 22; 23; 24; 25];
    let spell_key := pretty spell_id in
    match spells_data st !! spell_key with
    | Some entry =>
      if name_differs entry spell_name then
        let entry := <["name" := JStr spell_name]> entry in
        let entry := <["icon_id" := JInt icon_id]> entry in
        let entry := <["icon_name" := mapping_get icon_mapping icon_id]> entry in
        Ok (mkUpdate (<[spell_key := entry]> (spells_data st))
                     (updated_count st + 1) (new_count st))
      else Ok st
    | None =>
      let entry : gmap string json :=
        <["icon_name" := mapping_get icon_mapping icon_id]>
          (<["icon_id" := JInt icon_id]>
             (<["name" := JStr spell_name]> {[ "id" := JInt spell_id ]})) in
      Ok (mkUpdate (<[spell_key := entry]> (spells_data st))
                   (updated_count st) (new_count st + 1))
    end.

Fixpoint update_loop (spell_dbc : DBCReader) (icon_mapping : icon_mapping)
    (recs : list (list Z)) (st : update) : result update :=
  match recs with
  | [] => Ok st
  | record :: rest =>
    st' ← update_step spell_dbc icon_mapping st record;
    update_loop spell_dbc icon_mapping rest st'
  end.

(** [update_spell_data] up to [save_json(spells_data, spells_file)].
    [spells_json] and [icon_json] are what [spells.json] and
    [icon_mapping.json] hold when they exist, an object of objects and an
    object; [icon_file] and [spell_file] are the contents of the two
    tables. The result is what is written to [icon_mapping.json], if
    anything, and the data written to [spells.json] with the two counts
    printed. *)
Definition update_spell_data (spells_json : option (gmap string (gmap string json)))
    (icon_json : option (gmap string json)) (icon_file spell_file : list byte)
    : result (option (gmap Z (list Z)) * update) :=
  let spells_data := default ∅ spells_json in
  let icon_mapping := default ∅ icon_json in
  '(saved, icon_mapping) ←
    (if bool_decide (icon_mapping = ∅) then
       m ← extract_spell_icons icon_file;
       mret (Some m, Extracted m)
     else mret (None, Loaded icon_mapping));
  spell_dbc ← new "game-data/DBFilesClient/Spell.dbc" spell_file;
  st ← update_loop spell_dbc icon_mapping (records spell_dbc)
                   (mkUpdate spells_data 0 0);
  mret (saved, st).

End ExtractSpellsSmart.
(** ** The reader and the spell pass of [extrac_game_data.py] *)

Module ExtracGameData.

Record DBCReader : Type := mkDBCReader {
  file_path : string;
  records : list (list Z);
  string_block : list byte;
  field_count : Z;
  record_size : Z;
  record_count : Z
}.

Fixpoint read_fields (n : nat) (j : Z) (record_data : list byte)
    (record : list Z) : result (list Z) :=
  match n with
  | O => Ok record
  | S n' =>
    let offset := j * 4 in
    if offset + 4 <=? len record_data then
      value ← unpack_I (slice record_data offset (offset + 4));
      read_fields n' (j + 1) record_data (record ++ [value])
    else read_fields n' (j + 1) record_data (record ++ [0])
  end.

Fixpoint read_records (n : nat) (field_count record_size : Z)
    (acc : list (list Z)) : io (list (list Z)) :=
  match n with
  | O => mret acc
  | S n' =>
    record_data ← f_read record_size;
    if bool_decide (len record_data ≠ record_size) then mret acc
    else
      record ← lift (read_fields (Z.to_nat field_count) 0 record_data []);
      read_records n' field_count record_size (acc ++ [record])
  end.

Definition _read_file (path : string) : io DBCReader :=
  hd ← f_read 20;
  h ← lift (unpack_header hd);
  if bool_decide (h_magic h ≠ WDBC)
  then raise (ValueError ("Not a valid DBC file: " +:+ path))
  else
    recs ← read_records (Z.to_nat (h_record_count h)) (h_field_count h)
                        (h_record_size h) [];
    blk ← f_read (h_string_block_size h);
    mret (mkDBCReader path recs blk (h_field_count h) (h_record_size h)
                      (h_record_count h)).

Definition new (path : string) (contents : list byte) : result DBCReader :=
  with_open contents (_read_file path).

Definition get_string (self : DBCReader) (offset : Z) : list Z :=
  if offset >=? len (string_block self) then []
  else
    let e := find_null (string_block self) offset in
    if e =? -1 then []
    else utf8_decode_ignore (slice (string_block self) offset e).

Definition get_localized_string (self : DBCReader) (record : list Z)
    (start_field locale_index : Z) : result (list Z) :=
  let field_idx := start_field + locale_index in
  if field_idx <? len record then
    off ← get_item record field_idx;
    mret (get_string self off)
  else mret [].

Record spell : Type := mkSpell {
  id : Z;
  name : list Z;
  rank : option (list Z);
  icon_id : Z;
  icon_name : option (list Z)
}.

(** The state of the loop of [extract_spells]: the [spells] dict and the
    two counters the function keeps. *)
Record pass : Type := mkPass {
  spells : gmap string spell;
  no_name_count : Z;
  non_english_count : Z
}.

(** The search [for test_field in [124, 127, 128, 36, 82]] for an ASCII
    replacement of [name]. *)
Fixpoint alt_name_search (self : DBCReader) (record : list Z)
    (test_fields : list Z) (name : list Z) : result (list Z) :=
  match test_fields with
  | [] => Ok name
  | test_field :: rest =>
    alt_name ← (if test_field <? len record
                then off ← get_item record test_field; mret (get_string self off)
                else mret []);
    if negb (bool_decide (alt_name = [])) && (len alt_name >? 2)
       && negb (has_high_char alt_name)
    then Ok alt_name
    else alt_name_search self record rest name
  end.

(** One iteration of [for record in dbc.records]. *)
Definition extract_spells_step (dbc : DBCReader) (icon_map : gmap Z (list Z))
    (st : pass) (record : list Z) : result pass :=
  spell_id ← get_item record 0;
  if (spell_id =? 0) || (spell_id >? 100000) then Ok st
  else
    name ← get_localized_string dbc record 120 0;
    rank ← get_localized_string dbc record 133 0;
    if bool_decide (name = []) || (len name <? 2) then
      Ok (mkPass (spells st) (no_name_count st + 1) (non_english_count st))
    else
      '(name, non_english) ←
        (if has_high_char name then
           n ← alt_name_search dbc record [124; 127; 128; 36; 82] name;
           mret (n, non_english_count st + 1)
         else mret (name, non_english_count st));
      if contains (str_lit "(OLD)") name || contains (str_lit "Test") name
         || contains (str_lit "QA") name
      then Ok (mkPass (spells st) (no_name_count st) non_english)
      else
        icon_spellbook ← (if len record >? 121 then get_item record 121 else mret 0);
        icon_target ← (if len record >? 122 then get_item record 122 else mret 0);
        let icon_id :=
          if bool_decide (is_Some (icon_map !! icon_target))
          then icon_target else icon_spellbook in
        Ok (mkPass
              (<[pretty spell_id :=
                   mkSpell spell_id (strip name)
                           (if bool_decide (rank = []) then None else Some (strip rank))
                           icon_id (icon_map !! icon_id)]> (spells st))
              (no_name_count st) non_english).

Fixpoint extract_spells_loop (dbc : DBCReader) (icon_map : gmap Z (list Z))
    (records : list (list Z)) (st : pass) : result pass :=
  match records with
  | [] => Ok st
  | record :: rest =>
    st' ← extract_spells_step dbc icon_map st record;
    extract_spells_loop dbc icon_map rest st'
  end.

(** [extract_spells] once [Spell.dbc] has been read into [dbc]. *)
Definition extract_spells (dbc : DBCReader) (icon_map : gmap Z (list Z))
    : result pass :=
  extract_spells_loop dbc icon_map (records dbc) (mkPass ∅ 0 0).

(** The loop shared by [extract_spell_icons] and
    [extract_item_display_info]: the id in field 0, a path in field
    [path_field]. *)
Fixpoint names_loop (dbc : DBCReader) (path_field : Z) (recs : list (list Z))
    (name_map : gmap Z (list Z)) : result (gmap Z (list Z)) :=
  match recs with
  | [] => Ok name_map
  | record :: rest =>
    key ← get_item record 0;
    path_off ← get_item record path_field;
    let path := get_string dbc path_off in
    if bool_decide (path = []) then names_loop dbc path_field rest name_map
    else names_loop dbc path_field rest (<[key := icon_name_of path]> name_map)
  end.

(** [extract_spell_icons]; [icon_file] is [None] when [SpellIcon.dbc] does
    not exist. *)
Definition extract_spell_icons (icon_file : option (list byte))
    : result (gmap Z (list Z)) :=
  match icon_file with
  | None => Ok ∅
  | Some contents =>
    dbc ← new "game-data/DBFilesClient/SpellIcon.dbc" contents;
    names_loop dbc 1 (records dbc) ∅
  end.

(** [extract_item_display_info]; [display_file] is [None] when
    [ItemDisplayInfo.dbc] does not exist. *)
Definition extract_item_display_info (display_file : option (list byte))
    : result (gmap Z (list Z)) :=
  match display_file with
  | None => Ok ∅
  | Some contents =>
    dbc ← new "game-data/DBFilesClient/ItemDisplayInfo.dbc" contents;
    names_loop dbc 5 (records dbc) ∅
  end.

End ExtracGameData.
(** ** Test fixtures and specification-side definitions

    The writer's side of the format (the scripts only read it), an
    instance of the library data for ASCII text, and the predicates the
    properties below are stated with. *)

(** The four bytes of a 32-bit word, least significant first. *)
Definition le32 (w : Z) : list byte :=
  [z2b w; z2b (w / 256); z2b (w / 65536); z2b (w / 16777216)].

(** The UTF-8 encoding of a code point. *)
Definition utf8_encode_char (c : Z) : list byte :=
  if c <? 0x80 then [z2b c]
  else if c <? 0x800 then [z2b (0xC0 + c / 64); z2b (0x80 + c mod 64)]
  else if c <? 0x10000 then
    [z2b (0xE0 + c / 4096); z2b (0x80 + (c / 64) mod 64); z2b (0x80 + c mod 64)]
  else
    [z2b (0xF0 + c / 262144); z2b (0x80 + (c / 4096) mod 64);
     z2b (0x80 + (c / 64) mod 64); z2b (0x80 + c mod 64)].

Definition utf8_encode (s : list Z) : list byte := s ≫= utf8_encode_char.

(** A code point a heap string can hold: a Unicode scalar value other than
    the terminator. *)
Definition heap_char (c : Z) : Prop :=
  0 < c ∧ c < 0x110000 ∧ ¬ (0xD800 <= c ∧ c < 0xE000).

Definition word32 (w : Z) : Prop := 0 <= w ∧ w < 2 ^ 32.

(** A table file as the format lays it out: the tag, the four counts, the
    rows word by word, the heap. *)
Definition build_table (record_count field_count record_size : Z)
    (rows : list (list Z)) (heap : list byte) : list byte :=
  WDBC ++ le32 record_count ++ le32 field_count ++ le32 record_size
       ++ le32 (len heap) ++ (rows ≫= (λ row, row ≫= le32)) ++ heap.

(** The scenario of the design document: two records of three fields,
    [[5, 0, 0]] and [[6, 4, 0]], and the heap ["AB\0CD\0"]. *)
Definition scenario_table : list byte :=
  build_table 2 3 12 [[5; 0; 0]; [6; 4; 0]] [x41; x42; x00; x43; x44; x00].

(** Two one-row tables of eight fields, a localized block at column 0:
    slot 1 points to ["Axe"] in the first and to ["Ox"] in the second,
    every other slot to the empty string at offset 0. *)
Definition axe_table : list byte :=
  build_table 1 8 32 [[0; 1; 0; 0; 0; 0; 0; 0]] [x00; x41; x78; x65; x00].

Definition ox_table : list byte :=
  build_table 1 8 32 [[0; 1; 0; 0; 0; 0; 0; 0]] [x00; x4f; x78; x00].

(** A [Spell.dbc] of one record of 147 fields: id 1, the name column
    (119) pointing to ["Test Spell (OLD)"], every other field 0. *)
Definition test_spell_table : list byte :=
  build_table 1 147 588 [<[119%nat := 1]> (1 :: replicate 146 0)]
    (x00 :: utf8_encode (str_lit "Test Spell (OLD)") ++ [x00]).

(** Records of 121 fields for the pass of [extrac_game_data.py]: the id
    in field 0, the offset of the name in field 120. *)
Definition named_record (spell_id name_offset : Z) : list Z :=
  <[120%nat := name_offset]> (spell_id :: replicate 120 0).

(** The heap ["\0A\0Fireball\0"]: ["A"] at offset 1, ["Fireball"] at 3. *)
Definition names_heap : list byte :=
  x00 :: utf8_encode (str_lit "A") ++ x00 :: utf8_encode (str_lit "Fireball") ++ [x00].

(** Three spells: id 0 named ["Fireball"], id 5 named ["A"], id 7 named
    ["Fireball"]. *)
Definition three_spells_table : list byte :=
  build_table 3 121 484
    [named_record 0 3; named_record 5 1; named_record 7 3] names_heap.

(** One spell of id 0. *)
Definition zero_id_table : list byte :=
  build_table 1 121 484 [named_record 0 3] names_heap.

(** The library data restricted to ASCII: decimal literals with an
    optional sign for [int], no case mapping and no word characters
    outside ASCII. *)
Fixpoint decimal_digits (s : list ascii) (acc : Z) : option Z :=
  match s with
  | [] => Some acc
  | a :: s' =>
    let n := Z.of_nat (nat_of_ascii a) in
    if (48 <=? n) && (n <=? 57) then decimal_digits s' (10 * acc + (n - 48))
    else None
  end.

Definition int_decimal (s : string) : result Z :=
  let bad := Raise (ValueError ("invalid literal for int() with base 10: " +:+ s)) in
  match list_ascii_of_string s with
  | [] => bad
  | "-"%char :: (_ :: _) as ds =>
    match decimal_digits ds 0 with Some n => Ok (- n) | None => bad end
  | "+"%char :: (_ :: _) as ds =>
    match decimal_digits ds 0 with Some n => Ok n | None => bad end
  | ds => match decimal_digits ds 0 with Some n => Ok n | None => bad end
  end.

Definition ascii_lib : PyLib :=
  {| int_of_str := int_decimal;
     upper_nonascii := λ c, [c];
     isalnum_nonascii := λ _, false |}.




(** What [get_string] computes from the heap when the cache does not
    answer. *)
Definition resolve (blk : list byte) (offset : Z) : list Z :=
  if (offset >=? len blk) || (offset <? 0) then []
  else
    let e := find_null blk offset in
    if e =? -1 then [] else utf8_decode_ignore (slice blk offset e).

(** Every cached string is the one the heap holds at that offset. *)
Definition cache_ok (r : ExtractSpells.DBCReader) : Prop :=
  ∀ offset s, ExtractSpells._string_cache r !! offset = Some s →
    s = resolve (ExtractSpells.string_block r) offset.

(** The readers [get_string] can turn [r0] into. *)
Inductive reachable (r0 : ExtractSpells.DBCReader) : ExtractSpells.DBCReader → Prop :=
  | reach_here : reachable r0 r0
  | reach_get r offset :
      reachable r0 r → reachable r0 (ExtractSpells.get_string r offset).2.

(** Whether the sampling loop counts slot [off] of [record]: the field
    exists and the string it points to looks English. *)
Definition slot_hit (blk : list byte) (loc_index : Z) (off : Z)
    (record : list Z) : bool :=
  match get_item record (loc_index + off) with
  | Ok w => ExtractSpells.looks_english (resolve blk w)
  | Raise _ => false
  end.

(** The scores after the slots [offs] of one record have been looked at. *)
Definition bump (blk : list byte) (loc_index : Z) (record : list Z)
    (scores : list Z) (offs : list Z) : list Z :=
  foldl (λ sc off,
           if slot_hit blk loc_index off record
           then alter (λ n, n + 1) (Z.to_nat off) sc else sc) scores offs.

(** The number of sampled records that slot [off] is counted for. *)
Definition slot_score (blk : list byte) (sample : list (list Z))
    (loc_index off : Z) : Z :=
  len (filter (λ record, slot_hit blk loc_index off record = true) sample).

(** A placeholder token is left in [s]: a [$] followed by a word
    character. *)
Fixpoint has_placeholder `{PyLib} (s : list Z) : bool :=
  match s with
  | [] => false
  | c :: s' =>
    ((c =? dollar) && (match s' with d :: _ => is_word d | [] => false end))
    || has_placeholder s'
  end.

(** Two [$] stand side by side in [s]. *)
Fixpoint has_double_dollar (s : list Z) : bool :=
  match s with
  | [] => false
  | c :: s' =>
    ((c =? dollar) && (match s' with d :: _ => d =? dollar | [] => false end))
    || has_double_dollar s'
  end.

(** [s] is non-empty text without a [$]: what the templating puts in
    place of a marker. *)
Definition plain_text (s : list Z) : Prop :=
  s ≠ [] ∧ Forall (λ c, c ≠ dollar) s.






(** The header a file of at least 20 bytes declares. *)
Definition header_of (contents : list byte) : header :=
  Header (slice contents 0 4) (le_uint (slice contents 4 8))
         (le_uint (slice contents 8 12)) (le_uint (slice contents 12 16))
         (le_uint (slice contents 16 20)).

(** A record of the declared width whose fields past the end of the
    record's bytes are zero. *)
Definition width_ok (field_count record_size : Z) (record : list Z) : Prop :=
  len record = field_count ∧
  ∀ j, 0 <= j < field_count → record_size < 4 * j + 4 → get_item record j = Ok 0.

(** The word the inner loop stores for field [j] of a record. *)
Definition field_value (record_data : list byte) (j : Z) : Z :=
  if j * 4 + 4 <=? len record_data
  then le_uint (slice record_data (j * 4) (j * 4 + 4)) else 0.

(** The 20 bytes of a header. *)
Definition header_bytes (record_count field_count record_size heap_size : Z)
    : list byte :=
  WDBC ++ le32 record_count ++ le32 field_count ++ le32 record_size
       ++ le32 heap_size.

(** The map an icon loader builds from the records [recs] over the heap
    [blk], starting from [m]: the id in field 0, the offset of a path in
    field [path_field], rows with an empty path left out. *)
Fixpoint names_of (blk : list byte) (path_field : Z) (recs : list (list Z))
    (m : gmap Z (list Z)) : gmap Z (list Z) :=
  match recs with
  | [] => m
  | r :: rest =>
    match get_item r 0, get_item r path_field with
    | Ok k, Ok off =>
      if bool_decide (resolve blk off = []) then names_of blk path_field rest m
      else names_of blk path_field rest (<[k := icon_name_of (resolve blk off)]> m)
    | _, _ => m
    end
  end.

(** [m] files under each id the final component of the path of the last
    record of that id whose path is not empty, and nothing else. *)
Definition names_spec (blk : list byte) (path_field : Z)
    (recs : list (list Z)) (m : gmap Z (list Z)) : Prop :=
  ∀ k v, m !! k = Some v ↔
    ∃ i r off, recs !! i = Some r ∧ get_item r 0 = Ok k ∧
      get_item r path_field = Ok off ∧ resolve blk off ≠ [] ∧
      v = icon_name_of (resolve blk off) ∧
      ∀ j r' off', (i < j)%nat → recs !! j = Some r' → get_item r' 0 = Ok k →
        get_item r' path_field = Ok off' → resolve blk off' = [].

(** A [SpellIcon.dbc] of three records: icon 1 with the path
    ["I\Fire"], icon 2 with an empty path, icon 1 again with the path
    ["I\Frost"]. *)
Definition icon_table : list byte :=
  build_table 3 2 8 [[1; 1]; [2; 0]; [1; 8]]
    ([x00] ++ utf8_encode (str_lit "I\Fire") ++ [x00]
           ++ utf8_encode (str_lit "I\Frost") ++ [x00]).

(** What a loader of names does with a table once read: [IndexError]
    when there is a record and no field [path_field], and otherwise the
    map [names_spec] describes, no name of which holds a backslash. *)
Definition names_loader_ok (field_count : Z) (blk : list byte) (path_field : Z)
    (recs : list (list Z)) (outcome : result (gmap Z (list Z))) : Prop :=
  (recs ≠ [] → field_count <= path_field → outcome = Raise IndexError) ∧
  (path_field < field_count →
     ∃ m, outcome = Ok m ∧ names_spec blk path_field recs m ∧
       map_Forall (λ _ v, backslash ∉ v) m).

(** The ids of the records the pass of [update_spell_data] does not
    skip. *)
Definition valid_ids (recs : list (list Z)) : list Z :=
  omap (λ r, match get_item r 0 with
             | Ok spell_id =>
               if (spell_id =? 0) || (spell_id >? 100000) then None
               else Some spell_id
             | Raise _ => None
             end) recs.

(** The name [find_best_spell_name] returns for [record]. *)
Definition best_name (spell_dbc : ExtractSpellsSmart.DBCReader)
    (record : list Z) : list Z :=
  match ExtractSpellsSmart.find_best_spell_name record spell_dbc with
  | Ok name => name
  | Raise _ => []
  end.

(** The entry [update_spell_data] stores for a spell it has not seen. *)
Definition new_entry (spell_id : Z) (spell_name : list Z) (icon_id : Z)
    (icon_name : json) : gmap string json :=
  <["icon_name" := icon_name]>
    (<["icon_id" := JInt icon_id]>
       (<["name" := JStr spell_name]> {[ "id" := JInt spell_id ]})).

(** The entry it turns [entry] into when the name has changed. *)
Definition updated_entry (entry : gmap string json) (spell_name : list Z)
    (icon_id : Z) (icon_name : json) : gmap string json :=
  <["icon_name" := icon_name]>
    (<["icon_id" := JInt icon_id]> (<["name" := JStr spell_name]> entry)).

(** A [Spell.dbc] for [update_spell_data]: two records of 26 fields,
    spell 5 named ["Fireball"] by field 1 with icon 1 in field 21, spell 7
    named ["Frostbolt"] with icon 9. *)
Definition smart_record (spell_id name_offset icon : Z) : list Z :=
  <[21%nat := icon]> (<[1%nat := name_offset]> (spell_id :: replicate 25 0)).

Definition smart_spell_table : list byte :=
  build_table 2 26 104 [smart_record 5 1 1; smart_record 7 10 9]
    ([x00] ++ utf8_encode (str_lit "Fireball") ++ [x00]
           ++ utf8_encode (str_lit "Frostbolt") ++ [x00]).

(** What the pass of [extrac_game_data.py] lets through: the name is the
    trimmed form of a string of at least 2 characters that holds none of
    the three markers, the rank is absent or the trimmed form of a string
    that is not empty, and the icon name is what the icon map gives the
    icon id. *)
Definition emitted_ok (icon_map : gmap Z (list Z)) (e : ExtracGameData.spell)
    : Prop :=
  (∃ raw, ExtracGameData.name e = strip raw ∧ 2 <= len raw ∧
     contains (str_lit "(OLD)") raw = false ∧
     contains (str_lit "Test") raw = false ∧
     contains (str_lit "QA") raw = false) ∧
  (ExtracGameData.rank e = None ∨
   ∃ raw, raw ≠ [] ∧ ExtracGameData.rank e = Some (strip raw)) ∧
  ExtracGameData.icon_name e = icon_map !! ExtracGameData.icon_id e.

(** The tables the reader of [extract_spells.py] reads to the end, in
    terms of the three counts of the header and of the number [avail] of
    bytes that follow it: no record is declared; or the record size is
    four times the field count and the records are all there; or the
    record size is larger, the bytes that follow are exactly one record's
    worth of fields, and a single record is declared or records have no
    field. *)
Definition accepted (record_count field_count record_size avail : Z) : Prop :=
  record_count = 0 ∨
  (record_size = 4 * field_count ∧ record_count * record_size <= avail) ∨
  (4 * field_count < record_size ∧ avail = 4 * field_count ∧
   (record_count = 1 ∨ field_count = 0)).

(** The number of records the tolerant loop stores from the [avail]
    bytes that follow the header: the declared count, or the number of
    whole records of [record_size] bytes there are when that is less
    (a record of size 0 is always whole). *)
Definition complete_records (record_count record_size avail : Z) : Z :=
  if record_size =? 0 then record_count
  else Z.min record_count (avail / record_size).

(** The three columns [SPELL_FIELDS] takes from [LOC_INDICES], with
    their defaults. *)
Definition name_column (LOC_INDICES : gmap string Z) : Z :=
  default 119 (LOC_INDICES !! "Name").
Definition subtext_column (LOC_INDICES : gmap string Z) : Z :=
  default 128 (LOC_INDICES !! "NameSubtext") + 1.
Definition description_column (LOC_INDICES : gmap string Z) : Z :=
  default 137 (LOC_INDICES !! "Description") + 2.

(** A record wide enough for [extract_spell]: it has the fixed columns,
    the last of which is 117, and the eight slots of the three localized
    columns. *)
Definition wide_enough (LOC_INDICES : gmap string Z) (width : Z) : Prop :=
  118 <= width ∧
  0 <= name_column LOC_INDICES ∧ name_column LOC_INDICES + 8 <= width ∧
  0 <= subtext_column LOC_INDICES ∧ subtext_column LOC_INDICES + 8 <= width ∧
  0 <= description_column LOC_INDICES ∧
  description_column LOC_INDICES + 8 <= width.

(** How the pass of [extrac_game_data.py] sorts a record: whether its id
    is one it keeps, and the name it reads in column 120. *)
Definition kept_id (record : list Z) : bool :=
  match get_item record 0 with
  | Ok spell_id => negb ((spell_id =? 0) || (spell_id >? 100000))
  | Raise _ => false
  end.

Definition column_name (dbc : ExtracGameData.DBCReader) (record : list Z)
    : list Z :=
  match ExtracGameData.get_localized_string dbc record 120 0 with
  | Ok name => name
  | Raise _ => []
  end.

(** The records counted as having no name, and those counted as not
    English. *)
Definition nameless (dbc : ExtracGameData.DBCReader) (record : list Z) : bool :=
  kept_id record && (len (column_name dbc record) <? 2).

Definition foreign (dbc : ExtracGameData.DBCReader) (record : list Z) : bool :=
  kept_id record && negb (len (column_name dbc record) <? 2)
  && has_high_char (column_name dbc record).
(** * Properties *)

(** ** Bytes, words and files *)

Lemma b2z_range b : 0 <= b2z b < 256.
Proof.
  unfold b2z. pose proof (Byte.to_N_bounded b). lia.
Qed.

Lemma b2z_z2b z : b2z (z2b z) = z mod 256.
Proof.
  unfold b2z, z2b.
  pose proof (Z.mod_pos_bound z 256 ltac:(lia)) as Hm.
  destruct (Byte.of_N (Z.to_N (z mod 256))) as [b|] eqn:E.
  - apply Byte.to_of_N in E. rewrite E. lia.
  - apply Byte.of_N_None_iff in E. lia.
Qed.

Lemma b2z_z2b_small z : 0 <= z < 256 → b2z (z2b z) = z.
Proof. intros. rewrite b2z_z2b. apply Z.mod_small. lia. Qed.

Lemma z2b_b2z b : z2b (b2z b) = b.
Proof.
  unfold z2b, b2z. pose proof (Byte.to_N_bounded b).
  rewrite Z.mod_small by lia. rewrite N2Z.id, Byte.of_to_N. done.
Qed.

Lemma b2z_inj b1 b2 : b2z b1 = b2z b2 → b1 = b2.
Proof. intros E. rewrite <- (z2b_b2z b1), <- (z2b_b2z b2). by rewrite E. Qed.

Lemma b2z_x00 b : b2z b = 0 ↔ b = x00.
Proof.
  split; [|by intros ->]. intros E. apply b2z_inj. by rewrite E.
Qed.

Lemma len_nonneg {A} (l : list A) : 0 <= len l.
Proof. unfold len. lia. Qed.

Lemma len_app {A} (l1 l2 : list A) : len (l1 ++ l2) = len l1 + len l2.
Proof. unfold len. rewrite length_app. lia. Qed.

Lemma le_uint_nonneg l : 0 <= le_uint l.
Proof.
  induction l as [|b l IH]; simpl; [lia|]. pose proof (b2z_range b). lia.
Qed.

Lemma le_uint_bound l : le_uint l < 256 ^ len l.
Proof.
  induction l as [|b l IH]; [done|].
  unfold len in *. rewrite length_cons, Nat2Z.inj_succ, Z.pow_succ_r by lia.
  simpl. pose proof (b2z_range b). lia.
Qed.

Lemma le_uint_le32 w : word32 w → le_uint (le32 w) = w.
Proof.
  intros [H0 H1]. unfold le32, le_uint. simpl. rewrite !b2z_z2b.
  change (2 ^ 32) with 4294967296 in H1.
  replace (w / 65536) with (w / 256 / 256) by (rewrite Z.div_div by lia; done).
  replace (w / 16777216) with (w / 256 / 256 / 256)
    by (rewrite !Z.div_div by lia; done).
  pose proof (Z.div_mod w 256 ltac:(lia)).
  pose proof (Z.div_mod (w / 256) 256 ltac:(lia)).
  pose proof (Z.div_mod (w / 256 / 256) 256 ltac:(lia)).
  assert (0 <= w / 256 / 256 / 256 < 256).
  { split. { repeat apply Z.div_pos; lia. }
    repeat (apply Z.div_lt_upper_bound; [lia|]). lia. }
  rewrite (Z.mod_small (w / 256 / 256 / 256)) by lia. lia.
Qed.

Lemma length_le32 w : length (le32 w) = 4%nat.
Proof. done. Qed.

(** A slice between in-range bounds is a [take] of a [drop]. *)
Lemma slice_in_range {A} (l : list A) a b :
  0 <= a → a <= b → b <= len l →
  slice l a b = take (Z.to_nat (b - a)) (drop (Z.to_nat a) l).
Proof.
  intros Ha Hab Hb. unfold slice, norm_index.
  destruct (a <? 0) eqn:E1; [lia|]. destruct (b <? 0) eqn:E2; [lia|].
  rewrite !Z.min_l by lia. done.
Qed.

Lemma slice_app_middle {A} (l1 l2 l3 : list A) :
  slice (l1 ++ l2 ++ l3) (len l1) (len l1 + len l2) = l2.
Proof.
  rewrite slice_in_range; rewrite ?len_app; pose proof (len_nonneg l1);
    pose proof (len_nonneg l2); pose proof (len_nonneg l3); try lia.
  replace (len l1 + len l2 - len l1) with (len l2) by lia.
  unfold len. rewrite !Nat2Z.id, drop_app_length, take_app_length. done.
Qed.

Lemma len_slice {A} (l : list A) a b :
  0 <= a → a <= b → b <= len l → len (slice l a b) = b - a.
Proof.
  intros. rewrite slice_in_range by lia. unfold len in *.
  rewrite length_take, length_drop. lia.
Qed.

Lemma f_read_app (a b : list byte) : f_read (len a) (a ++ b) = Ok (a, b).
Proof.
  unfold f_read. pose proof (len_nonneg a).
  destruct (len a <? 0) eqn:E; [lia|]. unfold len.
  rewrite Nat2Z.id, take_app_length, drop_app_length. done.
Qed.

Lemma f_read_len n f data f' :
  0 <= n → f_read n f = Ok (data, f') →
  len data <= n ∧ f = data ++ f' ∧ (len data ≠ n → f' = []).
Proof.
  intros Hn. unfold f_read. destruct (n <? 0) eqn:E; [lia|].
  intros [= <- <-]. unfold len. rewrite length_take, take_drop.
  repeat split; [lia|]. intros Hlt. apply drop_ge. lia.
Qed.


Lemma slice_take {A} (l : list A) (n : nat) a b :
  0 <= a → a <= b → b <= Z.of_nat n → Z.of_nat n <= len l →
  slice (take n l) a b = slice l a b.
Proof.
  intros. rewrite !slice_in_range; unfold len in *; rewrite ?length_take; try lia.
  rewrite !take_drop_commute, take_take. do 2 f_equal. lia.
Qed.

(** The first two statements of every reader: read 20 bytes, unpack
    them. *)
Lemma header_step {A} (k : header → io A) (contents : list byte) :
  (hd ← f_read 20; h ← lift (unpack_header hd); k h) contents
  = if len contents <? 20 then Raise struct_error
    else k (header_of contents) (drop 20 contents).
Proof.
  unfold mbind, stE_bind, f_read, lift, unpack_header.
  change (20 <? 0) with false. cbv iota.
  destruct (len contents <? 20) eqn:E.
  - apply Z.ltb_lt in E.
    assert (E' : (len (take (Z.to_nat 20) contents) =? 20) = false).
    { apply Z.eqb_neq. unfold len in *. rewrite length_take. lia. }
    by rewrite E'.
  - apply Z.ltb_ge in E.
    assert (E' : len (take (Z.to_nat 20) contents) = 20).
    { unfold len in *. rewrite length_take. lia. }
    rewrite E'. change (20 =? 20) with true. cbv iota.
    unfold header_of. rewrite !slice_take by lia. done.
Qed.

Lemma header_of_bytes rc fc rs hs rest :
  word32 rc → word32 fc → word32 rs → word32 hs →
  header_of (header_bytes rc fc rs hs ++ rest) = Header WDBC rc fc rs hs.
Proof.
  intros Hrc Hfc Hrs Hhs. unfold header_of, header_bytes.
  rewrite <- !(assoc_L (++)).
  assert (S0 : ∀ t : list byte, slice (WDBC ++ t) 0 4 = WDBC).
  { intros t. apply (slice_app_middle [] WDBC t). }
  assert (S1 : ∀ a b c t, slice (WDBC ++ le32 a ++ le32 b ++ le32 c ++ t) 4 8 = le32 a).
  { intros a b c t. apply (slice_app_middle WDBC (le32 a)). }
  assert (S2 : ∀ a b c t, slice (WDBC ++ le32 a ++ le32 b ++ le32 c ++ t) 8 12 = le32 b).
  { intros a b c t.
    rewrite (assoc_L (++) WDBC). apply (slice_app_middle (WDBC ++ le32 a) (le32 b)). }
  assert (S3 : ∀ a b c t, slice (WDBC ++ le32 a ++ le32 b ++ le32 c ++ t) 12 16 = le32 c).
  { intros a b c t.
    rewrite (assoc_L (++) WDBC), (assoc_L (++) (WDBC ++ le32 a)).
    apply (slice_app_middle (WDBC ++ le32 a ++ le32 b) (le32 c)). }
  assert (S4 : ∀ a b c d t,
    slice (WDBC ++ le32 a ++ le32 b ++ le32 c ++ le32 d ++ t) 16 20 = le32 d).
  { intros a b c d t.
    rewrite (assoc_L (++) WDBC), (assoc_L (++) (WDBC ++ le32 a)),
      (assoc_L (++) ((WDBC ++ le32 a) ++ le32 b)).
    apply (slice_app_middle (((WDBC ++ le32 a) ++ le32 b) ++ le32 c) (le32 d)). }
  rewrite S0, S1, S2, S3, S4, !le_uint_le32 by done. done.
Qed.

(** [l[a:a+n]] is what reading [n] items at position [a] gives. *)
Lemma slice_read {A} (l : list A) a n :
  0 <= a → 0 <= n →
  slice l a (a + n) = take (Z.to_nat n) (drop (Z.to_nat a) l).
Proof.
  intros Ha Hn. unfold slice, norm_index. pose proof (len_nonneg l) as Hl.
  destruct (Z.ltb_spec a 0); [lia|]. destruct (Z.ltb_spec (a + n) 0); [lia|].
  destruct (Z.le_gt_cases a (len l)) as [Hin|Hout].
  - rewrite (Z.min_l a) by lia.
    destruct (Z.le_gt_cases (a + n) (len l)) as [Hfit|Hcut].
    + rewrite Z.min_l by lia. do 2 f_equal. lia.
    + rewrite Z.min_r by lia.
      rewrite !take_ge; [done|rewrite length_drop; unfold len in *; lia..].
  - rewrite !Z.min_r by lia. rewrite Z.sub_diag. cbn [Z.to_nat take].
    rewrite (drop_ge l (Z.to_nat a)) by (unfold len in *; lia).
    by rewrite take_nil.
Qed.

(** ** The readers with the length check *)

(** The two copies of the tolerant reader run the same loops. *)
Lemma egd_read_fields_eq :
  ExtracGameData.read_fields = ExtractSpellsSmart.read_fields.
Proof. reflexivity. Qed.

Lemma egd_read_records_eq :
  ExtracGameData.read_records = ExtractSpellsSmart.read_records.
Proof. reflexivity. Qed.

Lemma read_fields_spec n : ∀ j record_data acc,
  0 <= j →
  ∃ record,
    ExtractSpellsSmart.read_fields n j record_data acc = Ok record ∧
    record = acc ++ (field_value record_data <$> seqZ j (Z.of_nat n)).
Proof.
  induction n as [|n IH]; intros j record_data acc Hj.
  - exists acc. split; [done|]. simpl. by rewrite app_nil_r.
  - cbn [ExtractSpellsSmart.read_fields]. cbv zeta.
    assert (Hseq : seqZ j (Z.of_nat (S n)) = j :: seqZ (j + 1) (Z.of_nat n)).
    { rewrite seqZ_cons by lia. do 2 f_equal; lia. }
    destruct (j * 4 + 4 <=? len record_data) eqn:E.
    + apply Z.leb_le in E.
      unfold unpack_I. rewrite len_slice by lia.
      replace (j * 4 + 4 - j * 4) with 4 by lia.
      change (4 =? 4) with true. cbv iota. cbn [mbind result_bind].
      destruct (IH (j + 1) record_data (acc ++ [le_uint (slice record_data (j * 4) (j * 4 + 4))]))
        as (record & -> & ->); [lia|].
      eexists; split; [done|]. rewrite Hseq, fmap_cons, <- (assoc_L (++)).
      unfold field_value at 2.
      apply Z.leb_le in E. by rewrite E.
    + destruct (IH (j + 1) record_data (acc ++ [0]))
        as (record & -> & ->); [lia|].
      eexists; split; [done|]. rewrite Hseq, fmap_cons, <- (assoc_L (++)).
      unfold field_value at 2. by rewrite E.
Qed.

Lemma fields_width_ok field_count record_data :
  0 <= field_count →
  width_ok field_count (len record_data)
           (field_value record_data <$> seqZ 0 field_count).
Proof.
  intros Hfc. split.
  - unfold len. rewrite length_fmap, length_seqZ. lia.
  - intros j Hj Hpast. unfold get_item.
    assert (Hlen : len (field_value record_data <$> seqZ 0 field_count) = field_count).
    { unfold len. rewrite length_fmap, length_seqZ. lia. }
    rewrite Hlen.
    destruct (Z.ltb_spec j 0); [lia|].
    destruct (Z.leb_spec field_count j); [lia|]. cbn [orb].
    rewrite list_lookup_fmap, lookup_seqZ_lt by lia. simpl.
    rewrite Z2Nat.id, Z.add_0_l by lia.
    unfold field_value. destruct (Z.leb_spec (j * 4 + 4) (len record_data)); [lia|].
    destruct (Z.ltb_spec j 0); [lia|done].
Qed.

(** The record loop never raises; each record it stores is decoded from
    a slice of the declared size, and it stores at most [n] of them. *)
Lemma read_records_shape n : ∀ field_count record_size acc f,
  0 <= field_count → 0 <= record_size →
  ∃ recs f',
    ExtractSpellsSmart.read_records n field_count record_size acc f
      = Ok (acc ++ recs, f') ∧
    Forall (λ record, ∃ record_data, len record_data = record_size ∧
              record = field_value record_data <$> seqZ 0 field_count) recs ∧
    (length recs <= n)%nat.
Proof.
  induction n as [|n IH]; intros field_count record_size acc f Hfc Hrs.
  - exists [], f. rewrite (right_id_L [] (++)). repeat split; [constructor|done].
  - cbn [ExtractSpellsSmart.read_records]. unfold mbind at 1, stE_bind at 1.
    unfold f_read. destruct (record_size <? 0) eqn:E; [lia|].
    case_bool_decide as Hlen.
    + exists [], (drop (Z.to_nat record_size) f).
      rewrite (right_id_L [] (++)). repeat split; [constructor|simpl; lia].
    + destruct (read_fields_spec (Z.to_nat field_count) 0
                  (take (Z.to_nat record_size) f) []) as (record & Hrec & ->); [lia|].
      unfold mbind, stE_bind, lift. rewrite Hrec.
      destruct (IH field_count record_size
                  (acc ++ [[] ++ (field_value (take (Z.to_nat record_size) f)
                                    <$> seqZ 0 (Z.of_nat (Z.to_nat field_count)))])
                  (drop (Z.to_nat record_size) f))
        as (recs & f' & Hrecs & Hall & Hn); [done..|].
      unfold mbind, stE_bind in Hrecs. rewrite Hrecs.
      eexists (_ :: recs), f'. rewrite <- (assoc_L (++)). split; [done|].
      split; [|simpl; lia].
      constructor; [|done]. simpl. rewrite Z2Nat.id by lia.
      by exists (take (Z.to_nat record_size) f).
Qed.

Lemma field_value_nonneg record_data j : 0 <= field_value record_data j.
Proof.
  unfold field_value. destruct (_ <=? _); [apply le_uint_nonneg|done].
Qed.

(** What the loop stores has the declared width and the zero fill. *)
Lemma read_records_spec n field_count record_size acc f :
  0 <= field_count → 0 <= record_size →
  ∃ recs f',
    ExtractSpellsSmart.read_records n field_count record_size acc f
      = Ok (acc ++ recs, f') ∧
    Forall (width_ok field_count record_size) recs ∧
    (length recs <= n)%nat.
Proof.
  intros Hfc Hrs.
  destruct (read_records_shape n field_count record_size acc f Hfc Hrs)
    as (recs & f' & Hrun & Hshape & Hn).
  exists recs, f'. split; [done|]. split; [|done].
  eapply Forall_impl; [exact Hshape|].
  intros record (record_data & <- & ->). by apply fields_width_ok.
Qed.

(** What the tolerant readers return, step by step. *)
Lemma smart_new_unfold path contents :
  ExtractSpellsSmart.new path contents =
  if len contents <? 20 then Raise struct_error
  else
    let h := header_of contents in
    if bool_decide (h_magic h ≠ WDBC)
    then Raise (ValueError ("Not a valid DBC file: " +:+ path))
    else
      match ExtractSpellsSmart.read_records (Z.to_nat (h_record_count h))
              (h_field_count h) (h_record_size h) [] (drop 20 contents) with
      | Ok (recs, f') =>
        Ok (ExtractSpellsSmart.mkDBCReader path recs
              (take (Z.to_nat (h_string_block_size h)) f')
              (h_field_count h) (h_record_size h))
      | Raise e => Raise e
      end.
Proof.
  unfold ExtractSpellsSmart.new, with_open, ExtractSpellsSmart.read_file.
  rewrite header_step. destruct (len contents <? 20); [done|]. cbv zeta.
  case_bool_decide; [done|].
  unfold mbind, stE_bind.
  destruct (ExtractSpellsSmart.read_records _ _ _ _ _) as [[recs f']|e]; [|done].
  unfold f_read. pose proof (le_uint_nonneg (slice contents 16 20)).
  destruct (Z.ltb_spec (h_string_block_size (header_of contents)) 0) as [Hneg|_].
  { simpl in Hneg. lia. }
  done.
Qed.

Lemma egd_new_unfold path contents :
  ExtracGameData.new path contents =
  if len contents <? 20 then Raise struct_error
  else
    let h := header_of contents in
    if bool_decide (h_magic h ≠ WDBC)
    then Raise (ValueError ("Not a valid DBC file: " +:+ path))
    else
      match ExtractSpellsSmart.read_records (Z.to_nat (h_record_count h))
              (h_field_count h) (h_record_size h) [] (drop 20 contents) with
      | Ok (recs, f') =>
        Ok (ExtracGameData.mkDBCReader path recs
              (take (Z.to_nat (h_string_block_size h)) f')
              (h_field_count h) (h_record_size h) (h_record_count h))
      | Raise e => Raise e
      end.
Proof.
  unfold ExtracGameData.new, with_open, ExtracGameData._read_file.
  rewrite header_step. destruct (len contents <? 20); [done|]. cbv zeta.
  case_bool_decide; [done|].
  unfold mbind, stE_bind. rewrite egd_read_records_eq.
  destruct (ExtractSpellsSmart.read_records _ _ _ _ _) as [[recs f']|e]; [|done].
  unfold f_read. pose proof (le_uint_nonneg (slice contents 16 20)).
  destruct (Z.ltb_spec (h_string_block_size (header_of contents)) 0) as [Hneg|_].
  { simpl in Hneg. lia. }
  done.
Qed.

Lemma es_new_unfold path contents :
  ExtractSpells.new path contents =
  if len contents <? 20 then Raise struct_error
  else
    let h := header_of contents in
    if bool_decide (h_magic h ≠ WDBC)
    then Raise (ValueError ("Invalid DBC: " +:+ path))
    else
      match ExtractSpells.read_records (Z.to_nat (h_record_count h))
              (h_field_count h) (h_record_size h) [] (drop 20 contents) with
      | Ok (recs, f') =>
        Ok (ExtractSpells.mkDBCReader path recs
              (take (Z.to_nat (h_string_block_size h)) f')
              (h_field_count h) ∅)
      | Raise e => Raise e
      end.
Proof.
  unfold ExtractSpells.new, with_open, ExtractSpells._read_file.
  rewrite header_step. destruct (len contents <? 20); [done|]. cbv zeta.
  case_bool_decide; [done|].
  unfold mbind, stE_bind.
  destruct (ExtractSpells.read_records _ _ _ _ _) as [[recs f']|e]; [|done].
  unfold f_read. pose proof (le_uint_nonneg (slice contents 16 20)).
  destruct (Z.ltb_spec (h_string_block_size (header_of contents)) 0) as [Hneg|_].
  { simpl in Hneg. lia. }
  done.
Qed.

(** The strict reader's record loop fails with [struct.error] or not at
    all. *)
Lemma es_read_records_error n : ∀ field_count record_size acc f e,
  ExtractSpells.read_records n field_count record_size acc f = Raise e →
  e = struct_error.
Proof.
  induction n as [|n IH]; intros field_count record_size acc f e; [done|].
  cbn [ExtractSpells.read_records]. unfold mbind at 1, stE_bind at 1.
  destruct (f_read record_size f) as [[data f']|e'] eqn:E.
  2:{ unfold f_read in E. by destruct (record_size <? 0). }
  unfold mbind at 1, stE_bind at 1, lift, unpack_words.
  destruct (len data =? 4 * field_count); [apply IH|]. by intros [= <-].
Qed.

(** ** What the record loops read *)

Lemma complete_records_step n record_size avail :
  0 <= n → 0 <= record_size → 0 <= avail → record_size <= avail →
  complete_records (n + 1) record_size avail
  = 1 + complete_records n record_size (avail - record_size).
Proof.
  intros Hn Hrs Hav Hle. unfold complete_records.
  destruct (Z.eqb_spec record_size 0) as [->|Hnz]; [lia|].
  replace avail with ((avail - record_size) + 1 * record_size) at 1 by lia.
  rewrite Z.div_add by done. lia.
Qed.

(** The tolerant loop never raises. It leaves the file where [n] reads of
    [record_size] bytes lead, stores the whole records there are, at most
    [n], and decodes record [i] from the [record_size] bytes at
    [i * record_size]. *)
Lemma read_records_exact n : ∀ field_count record_size acc f,
  0 <= field_count → 0 <= record_size →
  ∃ recs,
    ExtractSpellsSmart.read_records n field_count record_size acc f
      = Ok (acc ++ recs, drop (Z.to_nat (Z.of_nat n * record_size)) f) ∧
    len recs = complete_records (Z.of_nat n) record_size (len f) ∧
    ∀ i, 0 <= i < len recs →
      (i + 1) * record_size <= len f ∧
      recs !! Z.to_nat i
      = Some (field_value (take (Z.to_nat record_size)
                             (drop (Z.to_nat (i * record_size)) f))
                <$> seqZ 0 field_count).
Proof.
  induction n as [|n IH]; intros fc rs acc f Hfc Hrs.
  { exists []. rewrite (right_id_L [] (++)). split; [done|]. split.
    - unfold complete_records. pose proof (len_nonneg f).
      destruct (Z.eqb_spec rs 0); [done|].
      assert (0 <= len f / rs) by (apply Z.div_pos; lia).
      unfold len at 1. cbn [length Z.of_nat]. lia.
    - unfold len. cbn [length Z.of_nat]. lia. }
  cbn [ExtractSpellsSmart.read_records]. unfold mbind at 1, stE_bind at 1, f_read.
  destruct (Z.ltb_spec rs 0); [lia|].
  assert (Htake : len (take (Z.to_nat rs) f) = Z.min rs (len f)).
  { unfold len. rewrite length_take. lia. }
  pose proof (len_nonneg f) as Hf.
  case_bool_decide as Hshort.
  - exists []. rewrite (right_id_L [] (++)).
    assert (Hlt : len f < rs) by lia.
    split; [|split].
    + cbn. do 2 f_equal. rewrite !drop_ge; [done|unfold len in *; nia|unfold len in *; lia].
    + unfold complete_records. destruct (Z.eqb_spec rs 0); [lia|].
      rewrite Z.div_small by lia. unfold len at 1. cbn [length Z.of_nat]. lia.
    + unfold len at 1. cbn [length Z.of_nat]. lia.
  - assert (Hge : rs <= len f) by lia.
    destruct (read_fields_spec (Z.to_nat fc) 0 (take (Z.to_nat rs) f) [])
      as (record & Hrec & ->); [lia|].
    unfold mbind at 1, stE_bind at 1, lift. rewrite Hrec.
    destruct (IH fc rs
                (acc ++ [[] ++ (field_value (take (Z.to_nat rs) f)
                                  <$> seqZ 0 (Z.of_nat (Z.to_nat fc)))])
                (drop (Z.to_nat rs) f) Hfc Hrs) as (recs & Hrun & Hcount & Hrecs).
    assert (Hdrop : len (drop (Z.to_nat rs) f) = len f - rs).
    { unfold len in *. rewrite length_drop. lia. }
    rewrite Hdrop in Hcount, Hrecs.
    eexists (_ :: recs). split; [|split].
    + unfold mbind, stE_bind in Hrun |- *. rewrite Hrun.
      rewrite <- (assoc_L (++)). cbn [app]. do 2 f_equal.
      rewrite drop_drop. f_equal. lia.
    + rewrite Nat2Z.inj_succ, <- Z.add_1_r.
      rewrite complete_records_step by lia. rewrite <- Hcount.
      unfold len. cbn [length]. lia.
    + intros i Hi. destruct (decide (i = 0)) as [->|Hnz].
      * split; [lia|]. cbn. by rewrite Z2Nat.id by lia.
      * assert (Hi' : 0 <= i - 1 < len recs).
        { unfold len in *. cbn [length] in Hi. lia. }
        destruct (Hrecs (i - 1) Hi') as [Hfit Hget]. split; [lia|].
        replace (Z.to_nat i) with (S (Z.to_nat (i - 1))) by lia.
        transitivity (recs !! Z.to_nat (i - 1)); [done|].
        rewrite Hget. do 3 f_equal.
        rewrite drop_drop. f_equal.
        assert (0 <= (i - 1) * rs) by nia. assert (0 <= i * rs) by nia. f_equal. lia.
Qed.

(** The strict loop, when it does not raise, leaves the file where [n]
    reads of [record_size] bytes lead. *)
Lemma es_read_records_rest n : ∀ field_count record_size acc f recs f',
  0 <= record_size →
  ExtractSpells.read_records n field_count record_size acc f = Ok (recs, f') →
  f' = drop (Z.to_nat (Z.of_nat n * record_size)) f.
Proof.
  induction n as [|n IH]; intros fc rs acc f recs f' Hrs.
  { by intros [= _ <-]. }
  cbn [ExtractSpells.read_records]. unfold mbind at 1, stE_bind at 1, f_read.
  destruct (Z.ltb_spec rs 0); [lia|].
  unfold mbind at 1, stE_bind at 1, lift, unpack_words.
  destruct (len (take (Z.to_nat rs) f) =? 4 * fc); [|done].
  intros ->%IH; [|done]. rewrite drop_drop. f_equal. lia.
Qed.

(** The word the inner loop stores for field [j] of the record at
    position [a] of the file. *)
Lemma stored_field (contents : list byte) a record_size j :
  0 <= a → 0 <= record_size → a + record_size <= len contents → 0 <= j →
  field_value (take (Z.to_nat record_size) (drop (Z.to_nat a) contents)) j
  = if 4 * j + 4 <=? record_size
    then le_uint (slice contents (a + 4 * j) (a + 4 * j + 4)) else 0.
Proof.
  intros Ha Hrs Hfit Hj. unfold field_value.
  assert (Hlen : len (take (Z.to_nat record_size) (drop (Z.to_nat a) contents))
                 = record_size).
  { unfold len in *. rewrite length_take, length_drop. lia. }
  rewrite Hlen. replace (j * 4 + 4) with (4 * j + 4) by lia.
  destruct (Z.leb_spec (4 * j + 4) record_size) as [Hin|]; [|done].
  f_equal. replace (j * 4) with (4 * j) by lia.
  rewrite !slice_read by lia.
  replace (Z.to_nat record_size)
    with (Z.to_nat (4 * j) + (Z.to_nat record_size - Z.to_nat (4 * j)))%nat by lia.
  rewrite <- take_drop_commute, take_take, drop_drop.
  rewrite Nat.min_l by lia. do 2 f_equal. lia.
Qed.

(** After a short read the tolerant loop keeps what it has and leaves the
    file exhausted. *)
Lemma read_records_truncated full : ∀ partial n field_count record_size acc,
  0 <= field_count → 0 <= record_size →
  Forall (λ d, len d = record_size) full →
  len partial < record_size →
  (length full < n)%nat →
  ExtractSpellsSmart.read_records n field_count record_size acc
    (concat full ++ partial)
  = Ok (acc ++ ((λ d, field_value d <$> seqZ 0 field_count) <$> full), []).
Proof.
  induction full as [|d full IH]; intros partial n fc rs acc Hfc Hrs Hfull Hpart Hn.
  - destruct n as [|n]; [simpl in Hn; lia|].
    cbn [ExtractSpellsSmart.read_records concat app]. unfold mbind, stE_bind, f_read.
    destruct (Z.ltb_spec rs 0); [lia|].
    assert (Ht : take (Z.to_nat rs) partial = partial).
    { apply take_ge. unfold len in *. lia. }
    assert (Hd : drop (Z.to_nat rs) partial = []).
    { apply drop_ge. unfold len in *. lia. }
    rewrite Ht, Hd. rewrite bool_decide_eq_true_2 by lia.
    simpl. by rewrite app_nil_r.
  - destruct n as [|n]; [simpl in Hn; lia|].
    apply Forall_cons in Hfull as [Hd Hfull].
    cbn [ExtractSpellsSmart.read_records concat]. rewrite <- (assoc_L (++)).
    unfold mbind at 1, stE_bind at 1. rewrite <- Hd at 1. rewrite f_read_app.
    rewrite bool_decide_eq_false_2 by (intros ?; done).
    destruct (read_fields_spec (Z.to_nat fc) 0 d []) as (record & Hrec & ->); [lia|].
    unfold mbind at 1, stE_bind at 1, lift. rewrite Hrec.
    rewrite IH by (simpl in Hn; done || lia).
    rewrite fmap_cons, <- (assoc_L (++)). simpl. by rewrite Z2Nat.id by lia.
Qed.

(** X1. A table cut short inside its record region (complete records
    of [rs] bytes, then fewer than [rs] bytes, fewer records than the
    header declares) loads, in the readers of [extract_spells_smart.py]
    and [extrac_game_data.py], as the rows that are complete and an empty
    heap, without an error. *)
Theorem tolerant_truncation path rc fc rs hs full partial :
  word32 rc → word32 fc → word32 rs → word32 hs →
  Forall (λ d, len d = rs) full →
  len partial < rs →
  len full < rc →
  let rows := (λ d, field_value d <$> seqZ 0 fc) <$> full in
  let contents := header_bytes rc fc rs hs ++ concat full ++ partial in
  ExtractSpellsSmart.new path contents
    = Ok (ExtractSpellsSmart.mkDBCReader path rows [] fc rs) ∧
  ExtracGameData.new path contents
    = Ok (ExtracGameData.mkDBCReader path rows [] fc rs rc).
Proof.
  intros Hrc Hfc Hrs Hhs Hfull Hpart Hn rows contents.
  assert (Hlen : (len contents <? 20) = false).
  { apply Z.ltb_ge. unfold contents. rewrite len_app.
    pose proof (len_nonneg (concat full ++ partial)).
    change (len (header_bytes rc fc rs hs)) with 20. lia. }
  assert (Hh : header_of contents = Header WDBC rc fc rs hs)
    by (by apply header_of_bytes).
  assert (Hd : drop 20 contents = concat full ++ partial)
    by (apply (drop_app_length (header_bytes rc fc rs hs))).
  rewrite smart_new_unfold, egd_new_unfold, Hlen. cbv zeta. rewrite Hh, Hd.
  cbn [h_magic h_record_count h_field_count h_record_size h_string_block_size].
  rewrite bool_decide_eq_false_2 by (intros ?; done).
  rewrite read_records_truncated;
    [|by destruct Hfc|by destruct Hrs|done|done|unfold len in *; lia].
  by rewrite take_nil.
Qed.

(** C10. The readers of [extract_spells_smart.py] and
    [extrac_game_data.py] store records of exactly [field_count] words,
    whatever the declared record size, and a field whose four bytes would
    end past the record's bytes ([4 * j + 4 > record_size]) is [0].
    Neither reader raises for it: a file with its 20 header bytes and the
    tag loads in both, with the decoded field count and record size; the
    records stored are the declared ones, or the whole ones the file has
    after its header when they are fewer, the same in both readers; and
    record [i] holds, for every field [j] below the field count, the
    little-endian word at byte [4 * j] of the record when its four bytes
    lie within the record size, and [0] otherwise. *)
Theorem record_width_invariant (path : string) (contents : list byte) :
  (∀ r, ExtractSpellsSmart.new path contents = Ok r →
     Forall (width_ok (ExtractSpellsSmart.field_count r)
                      (ExtractSpellsSmart.record_size r))
            (ExtractSpellsSmart.records r)) ∧
  (∀ r, ExtracGameData.new path contents = Ok r →
     Forall (width_ok (ExtracGameData.field_count r)
                      (ExtracGameData.record_size r))
            (ExtracGameData.records r)) ∧
  (20 <= len contents → slice contents 0 4 = WDBC →
     let record_count := le_uint (slice contents 4 8) in
     let field_count := le_uint (slice contents 8 12) in
     let record_size := le_uint (slice contents 12 16) in
     ∃ r1 r2,
       ExtractSpellsSmart.new path contents = Ok r1 ∧
       ExtracGameData.new path contents = Ok r2 ∧
       ExtractSpellsSmart.field_count r1 = field_count ∧
       ExtractSpellsSmart.record_size r1 = record_size ∧
       ExtracGameData.field_count r2 = field_count ∧
       ExtracGameData.record_size r2 = record_size ∧
       ExtracGameData.records r2 = ExtractSpellsSmart.records r1 ∧
       len (ExtractSpellsSmart.records r1)
         = complete_records record_count record_size (len contents - 20) ∧
       ∀ i, 0 <= i < len (ExtractSpellsSmart.records r1) →
         ExtractSpellsSmart.records r1 !! Z.to_nat i
         = Some ((λ j, if 4 * j + 4 <=? record_size
                       then le_uint (slice contents
                                       (20 + i * record_size + 4 * j)
                                       (20 + i * record_size + 4 * j + 4))
                       else 0) <$> seqZ 0 field_count)).
Proof.
  pose proof (le_uint_nonneg (slice contents 4 8)) as Hrc.
  pose proof (le_uint_nonneg (slice contents 8 12)) as Hfc.
  pose proof (le_uint_nonneg (slice contents 12 16)) as Hrs.
  destruct (read_records_spec (Z.to_nat (h_record_count (header_of contents)))
              (h_field_count (header_of contents))
              (h_record_size (header_of contents)) [] (drop 20 contents))
    as (recs & f' & Hrecs & Hall & _); [done..|].
  split; [|split].
  { intros r. rewrite smart_new_unfold.
    destruct (len contents <? 20); [done|]. cbv zeta.
    case_bool_decide; [done|]. rewrite Hrecs. by intros [= <-]. }
  { intros r. rewrite egd_new_unfold.
    destruct (len contents <? 20); [done|]. cbv zeta.
    case_bool_decide; [done|]. rewrite Hrecs. by intros [= <-]. }
  intros Hlen Hmagic record_count field_count record_size.
  rewrite smart_new_unfold, egd_new_unfold.
  destruct (Z.ltb_spec (len contents) 20); [lia|]. cbv zeta.
  change (h_magic (header_of contents)) with (slice contents 0 4).
  rewrite Hmagic, bool_decide_eq_false_2 by (intros ?; done).
  cbn [header_of h_record_count h_field_count h_record_size h_string_block_size].
  fold record_count field_count record_size.
  destruct (read_records_exact (Z.to_nat record_count) field_count record_size
              [] (drop 20 contents) Hfc Hrs) as (stored & -> & Hcount & Hstored).
  assert (Hrest : len (drop 20 contents) = len contents - 20).
  { unfold len in *. rewrite length_drop. lia. }
  rewrite Hrest, Z2Nat.id in Hcount by done. rewrite Hrest in Hstored.
  do 2 eexists. do 7 (split; [reflexivity|]).
  cbn [app ExtractSpellsSmart.records]. split; [done|].
  intros i Hi. destruct (Hstored i Hi) as [Hfit ->]. f_equal.
  apply list_fmap_ext. intros k j Hj.
  apply lookup_seqZ in Hj as [-> Hk].
  rewrite drop_drop.
  assert (0 <= i * record_size) by nia.
  replace (20 + Z.to_nat (i * record_size))%nat
    with (Z.to_nat (20 + i * record_size)) by lia.
  by rewrite stored_field by lia.
Qed.

Lemma record_width_invariant_witness :
  let contents := header_bytes 2 3 8 0 ++ le32 5 ++ le32 7 ++ le32 9 in
  ∃ r1 r2,
    ExtractSpellsSmart.new "Spell.dbc" contents = Ok r1 ∧
    ExtracGameData.new "Spell.dbc" contents = Ok r2 ∧
    ExtractSpellsSmart.field_count r1 = 3 ∧
    ExtractSpellsSmart.record_size r1 = 8 ∧
    ExtracGameData.field_count r2 = 3 ∧
    ExtracGameData.record_size r2 = 8 ∧
    ExtracGameData.records r2 = ExtractSpellsSmart.records r1 ∧
    len (ExtractSpellsSmart.records r1) = 1 ∧
    ExtractSpellsSmart.records r1 !! Z.to_nat 0 = Some [5; 7; 0] ∧
    Forall (width_ok (ExtractSpellsSmart.field_count r1)
                     (ExtractSpellsSmart.record_size r1))
           (ExtractSpellsSmart.records r1) ∧
    Forall (width_ok (ExtracGameData.field_count r2)
                     (ExtracGameData.record_size r2))
           (ExtracGameData.records r2).
Proof.
  intros contents.
  destruct (proj2 (proj2 (record_width_invariant "Spell.dbc" contents)))
    as (r1 & r2 & H1 & H2 & Hfc1 & Hrs1 & Hfc2 & Hrs2 & Hsame & Hlen & Hrec);
    [vm_compute; discriminate|vm_compute; reflexivity|].
  assert (Hone : len (ExtractSpellsSmart.records r1) = 1)
    by (rewrite Hlen; vm_compute; reflexivity).
  exists r1, r2. do 2 (split; [assumption|]).
  split; [rewrite Hfc1; vm_compute; reflexivity|].
  split; [rewrite Hrs1; vm_compute; reflexivity|].
  split; [rewrite Hfc2; vm_compute; reflexivity|].
  split; [rewrite Hrs2; vm_compute; reflexivity|].
  split; [assumption|]. split; [assumption|].
  split; [rewrite Hrec by (rewrite Hone; lia); vm_compute; reflexivity|].
  split.
  - exact (proj1 (record_width_invariant "Spell.dbc" contents) r1 H1).
  - exact (proj1 (proj2 (record_width_invariant "Spell.dbc" contents)) r2 H2).
Defined.

(** ** UTF-8 *)

Ltac dlia := Z.div_mod_to_equations; lia.

Ltac zcmp :=
  repeat match goal with
  | |- context [?a <? ?b] => destruct (Z.ltb_spec a b); try lia
  | |- context [?a <=? ?b] => destruct (Z.leb_spec a b); try lia
  | |- context [?a =? ?b] => destruct (Z.eqb_spec a b); try lia
  end.

Lemma is_cont_iff b : is_cont b = true ↔ 0x80 <= b2z b < 0xC0.
Proof. unfold is_cont. rewrite andb_true_iff, Z.leb_le, Z.ltb_lt. done. Qed.

Lemma decode_1 b0 t :
  b2z b0 < 0x80 →
  utf8_decode_ignore (b0 :: t) = b2z b0 :: utf8_decode_ignore t.
Proof. intros H. cbn [utf8_decode_ignore]. cbv zeta. by zcmp. Qed.

Lemma decode_2 b0 b1 t :
  0xC2 <= b2z b0 < 0xE0 → is_cont b1 = true →
  utf8_decode_ignore (b0 :: b1 :: t)
  = (b2z b0 - 0xC0) * 64 + (b2z b1 - 0x80) :: utf8_decode_ignore t.
Proof. intros H Hc. cbn [utf8_decode_ignore]. cbv zeta. rewrite Hc. by zcmp. Qed.

Lemma decode_3 b0 b1 b2 t :
  0xE0 <= b2z b0 < 0xF0 → is_cont b1 = true → is_cont b2 = true →
  (b2z b0 = 0xE0 → 0xA0 <= b2z b1) → (b2z b0 = 0xED → b2z b1 < 0xA0) →
  utf8_decode_ignore (b0 :: b1 :: b2 :: t)
  = (b2z b0 - 0xE0) * 4096 + (b2z b1 - 0x80) * 64 + (b2z b2 - 0x80)
    :: utf8_decode_ignore t.
Proof.
  intros H Hc1 Hc2 HE0 HED. cbn [utf8_decode_ignore]. cbv zeta.
  rewrite Hc1, Hc2. cbn [negb orb]. by zcmp.
Qed.

Lemma decode_4 b0 b1 b2 b3 t :
  0xF0 <= b2z b0 < 0xF5 →
  is_cont b1 = true → is_cont b2 = true → is_cont b3 = true →
  (b2z b0 = 0xF0 → 0x90 <= b2z b1) → (b2z b0 = 0xF4 → b2z b1 < 0x90) →
  utf8_decode_ignore (b0 :: b1 :: b2 :: b3 :: t)
  = (b2z b0 - 0xF0) * 262144 + (b2z b1 - 0x80) * 4096
    + (b2z b2 - 0x80) * 64 + (b2z b3 - 0x80) :: utf8_decode_ignore t.
Proof.
  intros H Hc1 Hc2 Hc3 HF0 HF4. cbn [utf8_decode_ignore]. cbv zeta.
  rewrite Hc1, Hc2, Hc3. cbn [negb orb]. by zcmp.
Qed.

Lemma decode_encode_char c t :
  0 <= c < 0x110000 → ¬ (0xD800 <= c < 0xE000) →
  utf8_decode_ignore (utf8_encode_char c ++ t) = c :: utf8_decode_ignore t.
Proof.
  intros Hc Hs. unfold utf8_encode_char.
  destruct (Z.ltb_spec c 0x80).
  { cbn [app]. rewrite decode_1; rewrite b2z_z2b_small; (done || lia). }
  destruct (Z.ltb_spec c 0x800).
  { cbn [app]. rewrite decode_2; rewrite ?is_cont_iff, ?b2z_z2b_small; try dlia.
    f_equal. dlia. }
  destruct (Z.ltb_spec c 0x10000).
  { cbn [app]. rewrite decode_3; rewrite ?is_cont_iff, ?b2z_z2b_small; try dlia.
    f_equal. dlia. }
  cbn [app]. rewrite decode_4; rewrite ?is_cont_iff, ?b2z_z2b_small; try dlia.
  f_equal. dlia.
Qed.

Lemma utf8_encode_cons c s :
  utf8_encode (c :: s) = utf8_encode_char c ++ utf8_encode s.
Proof. done. Qed.

Lemma decode_encode s :
  Forall heap_char s → utf8_decode_ignore (utf8_encode s) = s.
Proof.
  induction 1 as [|c s (H0 & H1 & H2) _ IH]; [done|].
  rewrite utf8_encode_cons, decode_encode_char by lia. by rewrite IH.
Qed.

Lemma encode_char_no_null c :
  0 < c < 0x110000 → Forall (λ b, b ≠ x00) (utf8_encode_char c).
Proof.
  intros Hc. unfold utf8_encode_char.
  assert (Hnz : ∀ z, 0 < z < 256 → z2b z ≠ x00).
  { intros z Hz E. apply b2z_x00 in E. rewrite b2z_z2b_small in E; lia. }
  destruct (Z.ltb_spec c 0x80); [repeat constructor; apply Hnz; lia|].
  destruct (Z.ltb_spec c 0x800); [repeat constructor; apply Hnz; dlia|].
  destruct (Z.ltb_spec c 0x10000); repeat constructor.
  all: intros E; apply b2z_x00 in E; rewrite b2z_z2b_small in E; dlia.
Qed.

Lemma encode_no_null s :
  Forall heap_char s → Forall (λ b, b ≠ x00) (utf8_encode s).
Proof.
  induction 1 as [|c s (H0 & H1 & _) _ IH]; [constructor|].
  rewrite utf8_encode_cons. apply Forall_app. split; [|done].
  by apply encode_char_no_null.
Qed.

(** ** The string heap *)

Lemma find_null_from_app a t i :
  Forall (λ b, b ≠ x00) a →
  find_null_from (a ++ x00 :: t) i = i + len a.
Proof.
  intros Ha. revert i. induction Ha as [|b a Hb _ IH]; intros i.
  - cbn. unfold len. simpl. lia.
  - cbn [app find_null_from]. destruct (Byte.eqb b x00) eqn:E.
    { by apply Byte.byte_dec_bl in E. }
    rewrite IH. unfold len. rewrite length_cons. lia.
Qed.

Lemma find_null_from_none l i :
  Forall (λ b, b ≠ x00) l → find_null_from l i = -1.
Proof.
  intros Hl. revert i. induction Hl as [|b l Hb _ IH]; intros i; [done|].
  cbn [find_null_from]. destruct (Byte.eqb b x00) eqn:E; [|apply IH].
  by apply Byte.byte_dec_bl in E.
Qed.

Lemma norm_index_in_range n i : 0 <= i → i <= n → norm_index n i = i.
Proof. intros. unfold norm_index. destruct (Z.ltb_spec i 0); lia. Qed.

(** With a consistent cache [get_string] returns what the heap holds and
    changes nothing but the cache, which stays consistent. *)
Lemma get_string_resolve r offset :
  cache_ok r →
  (ExtractSpells.get_string r offset).1
    = resolve (ExtractSpells.string_block r) offset ∧
  cache_ok (ExtractSpells.get_string r offset).2 ∧
  ExtractSpells.string_block (ExtractSpells.get_string r offset).2
    = ExtractSpells.string_block r ∧
  ExtractSpells.records (ExtractSpells.get_string r offset).2
    = ExtractSpells.records r.
Proof.
  intros Hok. unfold ExtractSpells.get_string.
  destruct (ExtractSpells._string_cache r !! offset) as [s|] eqn:Hc.
  { simpl. by rewrite (Hok _ _ Hc). }
  unfold resolve.
  destruct ((offset >=? len (ExtractSpells.string_block r)) || (offset <? 0))
    eqn:E1; [done|].
  destruct (find_null (ExtractSpells.string_block r) offset =? -1) eqn:E2;
    [done|].
  simpl. split; [done|]. split; [|done].
  intros o s. simpl. rewrite lookup_insert. case_decide as Ho.
  - intros [= <-]. subst o. unfold resolve. by rewrite E1, E2.
  - apply Hok.
Qed.

Lemma new_cache_ok path contents r :
  ExtractSpells.new path contents = Ok r → cache_ok r.
Proof.
  rewrite es_new_unfold. destruct (len contents <? 20); [done|]. cbv zeta.
  case_bool_decide; [done|].
  destruct (ExtractSpells.read_records _ _ _ _ _) as [[? ?]|?]; [|done].
  intros [= <-] o s. simpl. by rewrite lookup_empty.
Qed.

Lemma reachable_inv r0 r :
  cache_ok r0 → reachable r0 r →
  cache_ok r ∧
  ExtractSpells.string_block r = ExtractSpells.string_block r0 ∧
  ExtractSpells.records r = ExtractSpells.records r0.
Proof.
  intros H0. induction 1 as [|r offset _ (IH1 & IH2 & IH3)]; [done|].
  destruct (get_string_resolve r offset IH1) as (_ & ? & ? & ?).
  split; [done|]. split; congruence.
Qed.

(** What [get_string] returns on any reader the program can hold. *)
Lemma get_string_reachable path contents r0 r offset :
  ExtractSpells.new path contents = Ok r0 → reachable r0 r →
  (ExtractSpells.get_string r offset).1
    = resolve (ExtractSpells.string_block r0) offset.
Proof.
  intros Hnew Hr.
  destruct (reachable_inv r0 r (new_cache_ok _ _ _ Hnew) Hr) as (Hok & <- & _).
  by apply get_string_resolve.
Qed.

Lemma resolve_past_end blk offset : len blk <= offset → resolve blk offset = [].
Proof.
  intros H. unfold resolve. destruct (Z.geb_spec offset (len blk)); [done|lia].
Qed.

Lemma find_null_none blk offset :
  0 <= offset → Forall (λ b, b ≠ x00) (drop (Z.to_nat offset) blk) →
  find_null blk offset = -1.
Proof.
  intros H0 Hn. unfold find_null, norm_index.
  destruct (Z.ltb_spec offset 0); [lia|].
  apply find_null_from_none.
  destruct (Z.le_ge_cases offset (len blk)).
  - by rewrite Z.min_l by lia.
  - rewrite Z.min_r by lia. unfold len. rewrite Nat2Z.id, drop_all. constructor.
Qed.

Lemma resolve_no_terminator blk offset :
  0 <= offset → Forall (λ b, b ≠ x00) (drop (Z.to_nat offset) blk) →
  resolve blk offset = [].
Proof.
  intros H0 Hn. unfold resolve. rewrite find_null_none by done.
  by destruct (_ || _).
Qed.

Lemma resolve_leading_null blk : head blk = Some x00 → resolve blk 0 = [].
Proof.
  destruct blk as [|b blk]; [done|]. intros [= ->]. done.
Qed.

(** The string written at [len pre] is the string read there. *)
Lemma resolve_written pre s post :
  Forall heap_char s →
  resolve (pre ++ utf8_encode s ++ [x00] ++ post) (len pre) = s.
Proof.
  intros Hs. unfold resolve.
  pose proof (len_nonneg pre). pose proof (len_nonneg (utf8_encode s)).
  pose proof (len_nonneg post).
  set (blk := pre ++ utf8_encode s ++ [x00] ++ post).
  assert (Hlen : len blk = len pre + len (utf8_encode s) + 1 + len post).
  { unfold blk. rewrite !len_app. change (len [x00]) with 1. lia. }
  destruct (Z.geb_spec (len pre) (len blk)); [lia|].
  destruct (Z.ltb_spec (len pre) 0); [lia|]. cbn [orb].
  assert (Hf : find_null blk (len pre) = len pre + len (utf8_encode s)).
  { unfold find_null. rewrite norm_index_in_range by lia.
    unfold blk. replace (Z.to_nat (len pre)) with (length pre)
      by (unfold len; lia).
    rewrite drop_app_length.
    apply find_null_from_app. by apply encode_no_null. }
  rewrite Hf. destruct (Z.eqb_spec (len pre + len (utf8_encode s)) (-1)); [lia|].
  unfold blk. rewrite slice_app_middle. by apply decode_encode.
Qed.

Lemma smart_get_string_resolve (r : ExtractSpellsSmart.DBCReader) offset :
  0 <= offset →
  ExtractSpellsSmart.get_string r offset
    = resolve (ExtractSpellsSmart.string_block r) offset.
Proof.
  intros H. unfold ExtractSpellsSmart.get_string, resolve.
  destruct (Z.ltb_spec offset (len (ExtractSpellsSmart.string_block r)));
    destruct (Z.geb_spec offset (len (ExtractSpellsSmart.string_block r)));
    try lia; [|done].
  destruct (Z.ltb_spec offset 0); [lia|]. cbn [orb].
  by destruct (_ =? -1).
Qed.

(** C2 (amended). String resolution is lenient: on every reader the
    program can hold, [get_string] returns the empty string for an offset
    at or past the end of the heap, for an offset after which the heap
    has no null terminator, and for offset 0 when the heap starts with a
    null byte (the format's convention; offset 0 is not special to the
    code). Both [get_string] functions are total: no case raises. *)
Theorem lenient_resolution (path : string) (contents : list byte)
    (r0 r : ExtractSpells.DBCReader) (sm : ExtractSpellsSmart.DBCReader)
    (offset : Z) :
  ExtractSpells.new path contents = Ok r0 → reachable r0 r →
  (len (ExtractSpells.string_block r) <= offset →
     (ExtractSpells.get_string r offset).1 = []) ∧
  (0 <= offset →
     Forall (λ b, b ≠ x00) (drop (Z.to_nat offset) (ExtractSpells.string_block r)) →
     (ExtractSpells.get_string r offset).1 = []) ∧
  (head (ExtractSpells.string_block r) = Some x00 →
     (ExtractSpells.get_string r 0).1 = []) ∧
  (len (ExtractSpellsSmart.string_block sm) <= offset →
     ExtractSpellsSmart.get_string sm offset = []) ∧
  (0 <= offset →
     Forall (λ b, b ≠ x00) (drop (Z.to_nat offset) (ExtractSpellsSmart.string_block sm)) →
     ExtractSpellsSmart.get_string sm offset = []) ∧
  (head (ExtractSpellsSmart.string_block sm) = Some x00 →
     ExtractSpellsSmart.get_string sm 0 = []).
Proof.
  intros Hnew Hr.
  destruct (reachable_inv r0 r (new_cache_ok _ _ _ Hnew) Hr) as (Hok & _ & _).
  pose proof (λ o, proj1 (get_string_resolve r o Hok)) as Hg.
  pose proof (len_nonneg (ExtractSpellsSmart.string_block sm)).
  repeat split.
  - intros. rewrite Hg. by apply resolve_past_end.
  - intros. rewrite Hg. by apply resolve_no_terminator.
  - intros. rewrite Hg. by apply resolve_leading_null.
  - intros. rewrite smart_get_string_resolve by lia. by apply resolve_past_end.
  - intros. rewrite smart_get_string_resolve by lia.
    by apply resolve_no_terminator.
  - intros. rewrite smart_get_string_resolve by lia.
    by apply resolve_leading_null.
Qed.

Lemma lenient_resolution_witness :
  let blk := [x00; x41; x42] in
  let r := ExtractSpells.mkDBCReader "Spell.dbc" [] blk 0 ∅ in
  let sm := ExtractSpellsSmart.mkDBCReader "Spell.dbc" [] blk 0 0 in
  (ExtractSpells.get_string r 1).1 = [] ∧
  (ExtractSpells.get_string r 0).1 = [] ∧
  ExtractSpellsSmart.get_string sm 1 = [] ∧
  ExtractSpellsSmart.get_string sm 0 = [].
Proof.
  intros blk r sm.
  pose proof (lenient_resolution "Spell.dbc" (header_bytes 0 0 0 3 ++ blk)
                r r sm 1 eq_refl (reach_here r)) as (_ & H1 & _ & _ & H2 & _).
  pose proof (lenient_resolution "Spell.dbc" (header_bytes 0 0 0 3 ++ blk)
                r r sm 0 eq_refl (reach_here r)) as (_ & _ & H3 & _ & _ & H4).
  split; [apply H1; [lia | repeat constructor; discriminate]|].
  split; [apply H3; reflexivity|].
  split; [apply H2; [lia | repeat constructor; discriminate]|].
  apply H4; reflexivity.
Defined.

(** On the scenario's heap ["AB\0CD\0"] offset 0 resolves to ["AB"], not to
    the empty string. *)
Lemma resolve_zero_not_empty :
  (r ← ExtractSpells.new "Spell.dbc" scenario_table;
   mret (ExtractSpells.get_string r 0).1) = Ok (str_lit "AB") ∧
  (r ← ExtractSpellsSmart.new "Spell.dbc" scenario_table;
   mret (ExtractSpellsSmart.get_string r 0)) = Ok (str_lit "AB").
Proof. split; reflexivity. Qed.

(** ** Round trip through the strict reader *)

Lemma words_encoded row : ∀ t,
  Forall word32 row → words (length row) ((row ≫= le32) ++ t) = row.
Proof.
  induction row as [|w row IH]; intros t Hrow; [done|].
  apply Forall_cons in Hrow as [Hw Hrow].
  cbn [length words mbind list_bind]. rewrite <- (assoc_L (++)).
  change (take 4 (le32 w ++ _)) with (le32 w).
  change (drop 4 (le32 w ++ ?x)) with x.
  rewrite le_uint_le32 by done. f_equal. by apply IH.
Qed.

Lemma len_encoded (row : list Z) : len (row ≫= le32) = 4 * len row.
Proof.
  induction row as [|w row IH]; [done|].
  cbn [mbind list_bind]. rewrite len_app, IH. unfold len. simpl. lia.
Qed.

Lemma unpack_words_encoded row :
  Forall word32 row → unpack_words (len row) (row ≫= le32) = Ok row.
Proof.
  intros Hrow. unfold unpack_words. rewrite len_encoded, Z.eqb_refl.
  unfold len. rewrite Nat2Z.id.
  rewrite <- (app_nil_r (row ≫= le32)). by rewrite words_encoded.
Qed.

Lemma es_read_records_rows rows : ∀ field_count acc rest,
  Forall (λ row, len row = field_count ∧ Forall word32 row) rows →
  ExtractSpells.read_records (length rows) field_count (4 * field_count) acc
    ((rows ≫= (λ row, row ≫= le32)) ++ rest)
  = Ok (acc ++ rows, rest).
Proof.
  induction rows as [|row rows IH]; intros fc acc rest Hrows.
  - simpl. by rewrite app_nil_r.
  - apply Forall_cons in Hrows as [[Hlen Hrow] Hrows].
    cbn [length ExtractSpells.read_records].
    change (list_bind) with (@mbind list _).
    assert (Hread : ∀ t, f_read (4 * fc) ((row ≫= le32) ++ t) = Ok (row ≫= le32, t)).
    { intros t. rewrite <- Hlen, <- len_encoded. apply f_read_app. }
    assert (Hun : unpack_words fc (row ≫= le32) = Ok row).
    { rewrite <- Hlen. by apply unpack_words_encoded. }
    replace ((row :: rows) ≫= (λ row, row ≫= le32))
      with ((row ≫= le32) ++ (rows ≫= (λ row, row ≫= le32))) by done.
    rewrite <- (assoc_L (++)).
    unfold mbind at 1, stE_bind at 1. rewrite Hread.
    unfold mbind at 1, stE_bind at 1, lift. rewrite Hun.
    rewrite IH by done. by rewrite <- (assoc_L (++)).
Qed.

Lemma get_item_lookup {A} (l : list A) (i : nat) x :
  l !! i = Some x → get_item l (Z.of_nat i) = Ok x.
Proof.
  intros H. unfold get_item. apply lookup_lt_Some in H as Hlt.
  destruct (Z.ltb_spec (Z.of_nat i) 0); [lia|].
  destruct (Z.ltb_spec (Z.of_nat i) 0); [lia|].
  destruct (Z.leb_spec (len l) (Z.of_nat i)); [unfold len in *; lia|].
  cbn [orb]. by rewrite Nat2Z.id, H.
Qed.

(** C1. Round trip at the reader of [extract_spells.py]: a buffer made
    of a valid header, [len rows] records of [field_count] little-endian
    32-bit words each (so of [4 * field_count] bytes) and a heap is read
    without error; [records[i][j]] is then the word written at row [i],
    field [j], and [get_string], on the fresh reader or after any number
    of earlier calls, returns at the offset where a null-terminated
    string was written exactly that string. *)
Theorem round_trip (path : string) (rows : list (list Z)) (field_count : Z)
    (heap : list byte) :
  word32 (len rows) → word32 field_count → word32 (4 * field_count) →
  word32 (len heap) →
  Forall (λ row, len row = field_count ∧ Forall word32 row) rows →
  ∃ r0,
    ExtractSpells.new path
      (build_table (len rows) field_count (4 * field_count) rows heap) = Ok r0 ∧
    (∀ i j row w, rows !! i = Some row → row !! j = Some w →
       (record ← get_item (ExtractSpells.records r0) (Z.of_nat i);
        get_item record (Z.of_nat j)) = Ok w) ∧
    (∀ r pre s post,
       reachable r0 r →
       heap = pre ++ utf8_encode s ++ [x00] ++ post →
       Forall heap_char s →
       (ExtractSpells.get_string r (len pre)).1 = s).
Proof.
  intros Hrc Hfc Hrs Hhs Hrows.
  set (contents := build_table _ _ _ _ _).
  assert (Hc : contents = header_bytes (len rows) field_count (4 * field_count)
                 (len heap) ++ (rows ≫= (λ row, row ≫= le32)) ++ heap).
  { unfold contents, build_table, header_bytes. by rewrite <- !(assoc_L (++)). }
  assert (Hlen : (len contents <? 20) = false).
  { apply Z.ltb_ge. rewrite Hc, len_app.
    pose proof (len_nonneg ((rows ≫= (λ row, row ≫= le32)) ++ heap)).
    change (len (header_bytes _ _ _ _)) with 20. lia. }
  assert (Hnew : ExtractSpells.new path contents
                 = Ok (ExtractSpells.mkDBCReader path rows heap field_count ∅)).
  { rewrite es_new_unfold, Hlen. cbv zeta.
    rewrite Hc, header_of_bytes by done.
    cbn [h_magic h_record_count h_field_count h_record_size h_string_block_size].
    rewrite bool_decide_eq_false_2 by (intros ?; done).
    rewrite (drop_app_length (header_bytes _ _ _ _)).
    unfold len at 1. rewrite Nat2Z.id, es_read_records_rows by done.
    unfold len. by rewrite Nat2Z.id, firstn_all. }
  eexists. split; [exact Hnew|]. split.
  - intros i j row w Hi Hj. cbn [ExtractSpells.records].
    rewrite (get_item_lookup _ _ _ Hi). cbn [mbind result_bind].
    by apply get_item_lookup.
  - intros r pre s post Hr -> Hs.
    rewrite (get_string_reachable _ _ _ _ _ Hnew Hr). cbn [ExtractSpells.string_block].
    by apply resolve_written.
Qed.

Lemma round_trip_witness :
  ∃ r0,
    ExtractSpells.new "Spell.dbc" scenario_table = Ok r0 ∧
    (record ← get_item (ExtractSpells.records r0) 1; get_item record 1) = Ok 4 ∧
    (ExtractSpells.get_string r0 3).1 = str_lit "CD".
Proof.
  assert (Hrows : Forall (λ row, len row = 3 ∧ Forall word32 row)
                         [[5; 0; 0]; [6; 4; 0]]).
  { repeat constructor; unfold word32; lia. }
  destruct (round_trip "Spell.dbc" [[5; 0; 0]; [6; 4; 0]] 3
              [x41; x42; x00; x43; x44; x00]) as (r0 & Hnew & Hget & Hstr);
    [unfold word32; (done || (split; reflexivity || (vm_compute; done)))..|done|].
  exists r0. split; [exact Hnew|]. split.
  - exact (Hget 1%nat 1%nat [6; 4; 0] 4 eq_refl eq_refl).
  - apply (Hstr r0 [x41; x42; x00] (str_lit "CD") [] (reach_here r0) eq_refl).
    repeat constructor; vm_compute; try done; intros [? ?]; done.
Defined.

(** ** The strict reader on a truncated table *)

Lemma strict_read_records_truncated full : ∀ partial n field_count acc,
  Forall (λ d, len d = 4 * field_count) full →
  len partial < 4 * field_count →
  (length full < n)%nat →
  ExtractSpells.read_records n field_count (4 * field_count) acc
    (concat full ++ partial) = Raise struct_error.
Proof.
  induction full as [|d full IH]; intros partial n fc acc Hfull Hpart Hn.
  - destruct n as [|n]; [simpl in Hn; lia|].
    cbn [ExtractSpells.read_records concat app].
    unfold mbind at 1, stE_bind at 1, f_read.
    pose proof (len_nonneg partial).
    destruct (Z.ltb_spec (4 * fc) 0); [lia|].
    rewrite take_ge by (unfold len in *; lia).
    unfold mbind at 1, stE_bind at 1, lift, unpack_words.
    destruct (Z.eqb_spec (len partial) (4 * fc)); [lia|done].
  - destruct n as [|n]; [simpl in Hn; lia|].
    apply Forall_cons in Hfull as [Hd Hfull].
    cbn [ExtractSpells.read_records concat]. rewrite <- (assoc_L (++)).
    unfold mbind at 1, stE_bind at 1. rewrite <- Hd at 1. rewrite f_read_app.
    unfold mbind at 1, stE_bind at 1, lift, unpack_words.
    rewrite Hd, Z.eqb_refl. apply IH; simpl in *; (done || lia).
Qed.

(** C6 (the reader of [extract_spells.py] breaks the claim). The
    scenario's table cut in the middle of its second record: the strict
    reader raises [struct.error] instead of keeping the first record; the
    readers with the length check keep it. *)
Theorem strict_reader_truncation :
  ExtractSpells.new "Spell.dbc" (take 35 scenario_table) = Raise struct_error ∧
  ExtractSpellsSmart.new "Spell.dbc" (take 35 scenario_table)
    = Ok (ExtractSpellsSmart.mkDBCReader "Spell.dbc" [[5; 0; 0]] [] 3 12) ∧
  ExtracGameData.new "Spell.dbc" (take 35 scenario_table)
    = Ok (ExtracGameData.mkDBCReader "Spell.dbc" [[5; 0; 0]] [] 3 12 2).
Proof. repeat split; reflexivity. Qed.

(** ** The schema loader *)

Section Schema.
Context `{PyLib}.






End Schema.



(** ** Locale detection *)

(** [max_by] returns the first element of largest key. *)
Lemma max_by_spec {A} (key : A → Z) (l : list A) : ∀ best,
  Forall (λ x, key x <= key (max_by key best l)) (best :: l) ∧
  ∃ pre post, best :: l = pre ++ max_by key best l :: post ∧
    Forall (λ x, key x < key (max_by key best l)) pre.
Proof.
  induction l as [|x l IH]; intros best.
  - simpl. split; [repeat constructor; lia|]. by exists [], [].
  - cbn [max_by]. destruct (Z.gtb_spec (key x) (key best)) as [Hgt|Hle].
    + destruct (IH x) as (Hall & pre & post & Heq & Hpre).
      remember (max_by key x l) as r eqn:Er. clear Er.
      apply Forall_cons in Hall as Hall'. destruct Hall' as [Hx _].
      split; [constructor; [lia|done]|].
      exists (best :: pre), post. split; [by rewrite Heq|].
      constructor; [lia|done].
    + destruct (IH best) as (Hall & pre & post & Heq & Hpre).
      remember (max_by key best l) as r eqn:Er. clear Er.
      apply Forall_cons in Hall as Hall'. destruct Hall' as [Hb Hl].
      split; [constructor; [done|constructor; [lia|done]]|].
      destruct pre as [|b pre].
      * injection Heq as <- ->. by exists [], (x :: post).
      * injection Heq as <- ->. apply Forall_cons in Hpre as [Hbr Hpre].
        exists (best :: x :: pre), post. split; [done|].
        constructor; [done|constructor; [lia|done]].
Qed.

(** On the slots [0 .. 7]: the winner is in range, no slot beats it and
    every lower slot scores strictly less. *)
Lemma max_by_slots (key : Z → Z) :
  let b := max_by key 0 (seqZ 1 7) in
  0 <= b < 8 ∧ (∀ i, 0 <= i < 8 → key i <= key b) ∧
  (∀ i, 0 <= i < b → key i < key b).
Proof.
  intros b. destruct (max_by_spec key (seqZ 1 7) 0) as (Hall & pre & post & Heq & Hpre).
  fold b in Hall, Heq, Hpre.
  change (0 :: seqZ 1 7) with (seqZ 0 8) in *.
  assert (Hb : seqZ 0 8 !! length pre = Some b).
  { rewrite Heq. by rewrite list_lookup_middle. }
  apply lookup_seqZ in Hb as [Hb Hlt].
  rewrite Forall_forall in Hall. rewrite Forall_forall in Hpre.
  split; [lia|]. split.
  - intros i Hi. apply Hall. apply elem_of_seqZ. lia.
  - intros i Hi. apply Hpre.
    assert (Hi' : seqZ 0 8 !! Z.to_nat i = Some i).
    { rewrite lookup_seqZ. lia. }
    rewrite Heq, lookup_app_l in Hi' by lia.
    by eapply list_elem_of_lookup_2.
Qed.

Lemma bump_cons blk loc_index record scores off offs :
  bump blk loc_index record scores (off :: offs)
  = bump blk loc_index record
      (if slot_hit blk loc_index off record
       then alter (λ n, n + 1) (Z.to_nat off) scores else scores) offs.
Proof. done. Qed.

Lemma score_slots_spec record loc_index : ∀ offs scores self,
  cache_ok self →
  cache_ok (ExtractSpells.score_slots record loc_index offs scores self).2 ∧
  ExtractSpells.string_block
    (ExtractSpells.score_slots record loc_index offs scores self).2
    = ExtractSpells.string_block self ∧
  ExtractSpells.records
    (ExtractSpells.score_slots record loc_index offs scores self).2
    = ExtractSpells.records self ∧
  (ExtractSpells.score_slots record loc_index offs scores self).1
    = bump (ExtractSpells.string_block self) loc_index record scores offs.
Proof.
  induction offs as [|off offs IH]; intros scores self Hok; [done|].
  rewrite bump_cons. cbn [ExtractSpells.score_slots].
  assert (Hhit : slot_hit (ExtractSpells.string_block self) loc_index off record
                 = match get_item record (loc_index + off) with
                   | Ok w => ExtractSpells.looks_english
                               (resolve (ExtractSpells.string_block self) w)
                   | Raise _ => false
                   end) by done.
  destruct (get_item record (loc_index + off)) as [w|e].
  2:{ rewrite Hhit. by apply IH. }
  destruct (get_string_resolve self w Hok) as (Htext & Hok' & Hblk & Hrecs).
  destruct (ExtractSpells.get_string self w) as [text self'].
  cbn [fst snd] in *. subst text. rewrite Hhit.
  destruct (ExtractSpells.looks_english _).
  - destruct (IH (alter (λ n, n + 1) (Z.to_nat off) scores) self' Hok')
      as (H1 & H2 & H3 & H4).
    by rewrite H2, H3, H4, Hblk, Hrecs.
  - destruct (IH scores self' Hok') as (H1 & H2 & H3 & H4).
    by rewrite H2, H3, H4, Hblk, Hrecs.
Qed.

Lemma bump_lookup blk loc_index record n : ∀ a scores i,
  0 <= a → (i < 8)%nat →
  bump blk loc_index record scores (seqZ a (Z.of_nat n)) !! i
  = (λ x, x + (if bool_decide (a <= Z.of_nat i < a + Z.of_nat n)
                  && slot_hit blk loc_index (Z.of_nat i) record
               then 1 else 0)) <$> scores !! i.
Proof.
  induction n as [|n IH]; intros a scores i Ha Hi.
  - change (seqZ a (Z.of_nat 0)) with (@nil Z). cbn [bump foldl].
    rewrite bool_decide_eq_false_2 by lia. cbn [andb].
    destruct (scores !! i); cbn; [f_equal; lia|done].
  - assert (Hseq : seqZ a (Z.of_nat (S n)) = a :: seqZ (a + 1) (Z.of_nat n)).
    { rewrite seqZ_cons by lia. do 2 f_equal; lia. }
    rewrite Hseq, bump_cons.
    rewrite IH by lia.
    destruct (decide (Z.of_nat i = a)) as [Heq|Hne].
    + subst a. rewrite bool_decide_eq_false_2 by lia.
      rewrite bool_decide_eq_true_2 by lia. cbn [andb].
      destruct (slot_hit _ _ _ _).
      * rewrite Nat2Z.id, list_lookup_alter_eq.
        destruct (scores !! i); cbn; [f_equal; lia|done].
      * destruct (scores !! i); cbn; [f_equal; lia|done].
    + assert (Hsame : (if slot_hit blk loc_index a record
                      then alter (λ n, n + 1) (Z.to_nat a) scores else scores) !! i
                      = scores !! i).
      { destruct (slot_hit _ _ a _); [|done].
        apply list_lookup_alter_ne. lia. }
      rewrite Hsame.
      destruct (decide (a + 1 <= Z.of_nat i < a + 1 + Z.of_nat n)).
      * rewrite !bool_decide_eq_true_2 by lia. done.
      * rewrite !bool_decide_eq_false_2 by lia. done.
Qed.

Lemma length_bump blk loc_index record offs : ∀ scores,
  length (bump blk loc_index record scores offs) = length scores.
Proof.
  induction offs as [|off offs IH]; intros scores; [done|].
  rewrite bump_cons, IH.
  destruct (slot_hit _ _ _ _); [apply length_alter|done].
Qed.

Lemma slot_score_cons blk record sample loc_index off :
  slot_score blk (record :: sample) loc_index off
  = (if slot_hit blk loc_index off record then 1 else 0)
    + slot_score blk sample loc_index off.
Proof.
  unfold slot_score. rewrite filter_cons. case_decide as Hhit.
  - rewrite Hhit. unfold len. rewrite length_cons. lia.
  - apply not_true_is_false in Hhit. rewrite Hhit. lia.
Qed.

Lemma score_records_spec loc_index : ∀ sample scores self,
  cache_ok self → length scores = 8%nat →
  let out := ExtractSpells.score_records sample loc_index scores self in
  cache_ok out.2 ∧
  length out.1 = 8%nat ∧
  ∀ i, (i < 8)%nat →
    out.1 !! i
    = (λ x, x + slot_score (ExtractSpells.string_block self) sample loc_index
                           (Z.of_nat i)) <$> scores !! i.
Proof.
  induction sample as [|record sample IH]; intros scores self Hok Hlen out.
  - subst out. cbn. split; [done|]. split; [done|]. intros i Hi.
    assert (Hz : slot_score (ExtractSpells.string_block self) [] loc_index
                   (Z.of_nat i) = 0) by done.
    rewrite Hz. destruct (scores !! i); cbn; [f_equal; lia|done].
  - subst out. cbn [ExtractSpells.score_records].
    destruct (score_slots_spec record loc_index (seqZ 0 8) scores self Hok)
      as (Hok' & Hblk & _ & Hsc).
    destruct (ExtractSpells.score_slots _ _ _ _ _) as [scores' self'].
    cbn [fst snd] in *. subst scores'.
    destruct (IH (bump (ExtractSpells.string_block self) loc_index record scores
                       (seqZ 0 8)) self' Hok') as (Hok'' & Hlen' & Hlook).
    { by rewrite length_bump. }
    split; [done|]. split; [done|]. intros i Hi.
    rewrite Hlook by done. rewrite Hblk.
    rewrite (bump_lookup _ _ _ 8 0) by (lia || done).
    rewrite bool_decide_eq_true_2 by lia. cbn [andb].
    rewrite slot_score_cons.
    destruct (scores !! i); cbn; [f_equal; lia|done].
Qed.

Lemma drop_printable_app p rest :
  Forall (λ c, 0x20 <= c <= 0x7E) p →
  drop_printable (p ++ rest) = drop_printable rest.
Proof.
  induction 1 as [|c p Hc _ IH]; [done|]. cbn [app drop_printable].
  unfold is_printable.
  destruct (Z.leb_spec 0x20 c); [|lia]. destruct (Z.leb_spec c 0x7E); [|lia].
  done.
Qed.

Lemma drop_printable_split text :
  ∃ p, text = p ++ drop_printable text ∧ Forall (λ c, 0x20 <= c <= 0x7E) p.
Proof.
  induction text as [|c text (p & Heq & Hp)]; [by exists []|].
  cbn [drop_printable]. destruct (is_printable c) eqn:E.
  - exists (c :: p). split; [by rewrite Heq at 1|]. constructor; [|done].
    unfold is_printable in E. apply andb_true_iff in E as [?%Z.leb_le ?%Z.leb_le].
    lia.
  - by exists [].
Qed.

Lemma length_drop_printable text :
  (length (drop_printable text) <= length text)%nat.
Proof.
  induction text as [|d t IH]; [done|]. cbn [drop_printable].
  destruct (is_printable d); simpl in *; lia.
Qed.

(** The pattern [^[\x20-\x7E]+$] matches printable ASCII text, with or
    without one line feed after it. *)
Lemma letter_re_match_iff text :
  letter_re_match text = true ↔
  ∃ p, p ≠ [] ∧ Forall (λ c, 0x20 <= c <= 0x7E) p ∧
       (text = p ∨ text = p ++ [10]).
Proof.
  split.
  - destruct text as [|c text]; [done|]. unfold letter_re_match.
    intros [Hc Hrest]%andb_true_iff.
    destruct (drop_printable_split (c :: text)) as (p & Heq & Hp).
    exists p. split.
    { intros ->. cbn [app] in Heq. cbn [drop_printable] in Heq.
      rewrite Hc in Heq.
      assert (Hlen : length (c :: text) = length (drop_printable text))
        by (by rewrite Heq at 1).
      pose proof (length_drop_printable text). simpl in Hlen. lia. }
    split; [done|].
    apply orb_true_iff in Hrest as [Hr%bool_decide_eq_true|Hr%bool_decide_eq_true];
      rewrite Hr in Heq; [left; by rewrite app_nil_r in Heq|by right].
  - intros (p & Hne & Hp & Htext).
    assert (Hhead : ∃ c t, p = c :: t ∧ is_printable c = true).
    { destruct p as [|c t]; [done|]. exists c, t. split; [done|].
      apply Forall_cons in Hp as [Hc _]. unfold is_printable.
      apply andb_true_iff. rewrite !Z.leb_le. lia. }
    destruct Hhead as (c & t & -> & Hc).
    destruct Htext as [->| ->]; unfold letter_re_match; cbn [app]; rewrite Hc.
    + rewrite <- (app_nil_r (c :: t)), drop_printable_app by done. done.
    + change (c :: t ++ [10]) with ((c :: t) ++ [10]).
      rewrite drop_printable_app by done. done.
Qed.

Lemma confidence_full s : 0 < s → (inject_Z s / inject_Z s * 100 == 100)%Q.
Proof.
  intros Hs. field. intros E. unfold Qeq in E. simpl in E. lia.
Qed.

Lemma lookup_scores (score : Z → Z) i :
  0 <= i < 8 → default 0 ((score <$> seqZ 0 8) !! Z.to_nat i) = score i.
Proof.
  intros Hi. rewrite list_lookup_fmap, lookup_seqZ_lt by lia. cbn.
  f_equal. lia.
Qed.

(** C3 (amended). Locale detection samples the first
    [min(200, len(records))] rows; the score of each of the 8 slots is
    the number of sampled rows whose string in that slot has at least 3
    characters, is matched by [^[\x20-\x7E]+$] (printable ASCII, a final
    line feed being tolerated) and contains a vowel; the slot returned
    has the highest score, the lowest such slot on a tie; the confidence
    is the percentage [score / total * 100], and [0] when no slot scored.
    In particular, when one slot [k] scores and no other slot does, the
    detector returns [k] with confidence 100. *)
Theorem locale_detection (path : string) (contents : list byte)
    (r0 r : ExtractSpells.DBCReader) (loc_index : Z) :
  ExtractSpells.new path contents = Ok r0 → reachable r0 r →
  let sample :=
    take (Z.to_nat (Z.min 200 (len (ExtractSpells.records r))))
         (ExtractSpells.records r) in
  let score := slot_score (ExtractSpells.string_block r) sample loc_index in
  let d := (ExtractSpells.detect_locale r loc_index).1 in
  (ExtractSpells.detect_locale_offset r loc_index).1 = ExtractSpells.best_off d ∧
  (∀ text, ExtractSpells.looks_english text = true ↔
     3 <= len text ∧ existsb is_vowel text = true ∧
     ∃ p, p ≠ [] ∧ Forall (λ c, 0x20 <= c <= 0x7E) p ∧
          (text = p ∨ text = p ++ [10])) ∧
  ExtractSpells.scores d = score <$> seqZ 0 8 ∧
  0 <= ExtractSpells.best_off d < 8 ∧
  (∀ i, 0 <= i < 8 → score i <= score (ExtractSpells.best_off d)) ∧
  (∀ i, 0 <= i < ExtractSpells.best_off d →
     score i < score (ExtractSpells.best_off d)) ∧
  ExtractSpells.total d = foldr Z.add 0 (score <$> seqZ 0 8) ∧
  (ExtractSpells.total d = 0 → ExtractSpells.confidence d = 0%Q) ∧
  (ExtractSpells.total d ≠ 0 →
     ExtractSpells.confidence d
     = (inject_Z (score (ExtractSpells.best_off d))
        / inject_Z (ExtractSpells.total d) * 100)%Q) ∧
  (∀ k, 0 <= k < 8 → 0 < score k →
     (∀ i, 0 <= i < 8 → i ≠ k → score i = 0) →
     ExtractSpells.best_off d = k ∧ (ExtractSpells.confidence d == 100)%Q).
Proof.
  intros Hnew Hr sample score d.
  destruct (reachable_inv r0 r (new_cache_ok _ _ _ Hnew) Hr) as (Hok & _ & _).
  assert (Hsample : slice (ExtractSpells.records r) 0
                      (Z.min 200 (len (ExtractSpells.records r))) = sample).
  { pose proof (len_nonneg (ExtractSpells.records r)).
    rewrite slice_in_range by lia. by rewrite Z.sub_0_r. }
  destruct (score_records_spec loc_index sample (replicate 8 0) r Hok eq_refl)
    as (_ & Hlen & Hlook).
  set (b := max_by score 0 (seqZ 1 7)).
  set (tot := foldr Z.add 0 (score <$> seqZ 0 8)).
  assert (Hd : d = ExtractSpells.mkDetection (score <$> seqZ 0 8) b tot
                 (if tot =? 0 then 0%Q
                  else (inject_Z (score b) / inject_Z tot * 100)%Q)
          ∧ (ExtractSpells.detect_locale_offset r loc_index).1 = b).
  { unfold d, ExtractSpells.detect_locale_offset, ExtractSpells.detect_locale.
    rewrite Hsample.
    destruct (ExtractSpells.score_records sample loc_index (replicate 8 0) r)
      as [sc self'].
    cbn [fst snd] in *.
    assert (Hsc : sc = score <$> seqZ 0 8).
    { apply list_eq. intros i. destruct (decide (i < 8)%nat) as [Hi|Hi].
      - rewrite Hlook by done. rewrite lookup_replicate_2 by done.
        rewrite list_lookup_fmap, lookup_seqZ_lt by lia. cbn.
        unfold score. do 2 f_equal.
      - rewrite !lookup_ge_None_2; [done| |lia].
        rewrite length_fmap, length_seqZ. lia. }
    subst sc.
    assert (Hkey : ∀ key' : Z → Z, (∀ i, 0 <= i < 8 → key' i = score i) →
              max_by key' 0 (seqZ 1 7) = max_by score 0 (seqZ 1 7)).
    { intros key' Hk. change (seqZ 1 7) with [1; 2; 3; 4; 5; 6; 7].
      cbn [max_by]. 
      repeat (rewrite !Hk by (repeat match goal with
                                     | |- context [if ?c then _ else _] =>
                                       destruct c
                                     end; lia)).
      done. }
    rewrite (Hkey _ (lookup_scores score)). fold b. fold tot.
    rewrite lookup_scores.
    2:{ pose proof (max_by_slots score) as (? & _). fold b in H. lia. }
    done. }
  destruct Hd as [Hd Hoff]. rewrite Hoff, Hd.
  cbn [ExtractSpells.scores ExtractSpells.best_off ExtractSpells.total
       ExtractSpells.confidence].
  destruct (max_by_slots score) as (Hrange & Hmax & Hfirst). fold b in Hrange, Hmax, Hfirst.
  split; [done|]. split.
  { intros text. unfold ExtractSpells.looks_english.
    rewrite <- letter_re_match_iff. unfold vowel_re_search.
    destruct text as [|c text].
    { split; [done|]. intros [Hl _]. unfold len in Hl. simpl in Hl. lia. }
    rewrite bool_decide_eq_false_2 by done. cbn [orb].
    destruct (Z.ltb_spec (len (c :: text)) 3).
    - split; [done|]. intros [? _]. lia.
    - rewrite andb_true_iff. split; [intros [? ?]|intros (? & ? & ?)]; done. }
  split; [done|]. split; [done|]. split; [done|]. split; [done|].
  split; [done|]. split.
  { intros ->. done. }
  split.
  { intros Hne. by destruct (Z.eqb_spec tot 0). }
  intros k Hk Hpos Hzero.
  assert (Hb : b = k).
  { destruct (decide (b = k)) as [|Hne]; [done|].
    pose proof (Hmax k Hk). pose proof (Hzero b Hrange Hne). lia. }
  split; [done|].
  assert (Htot : tot = score k).
  { unfold tot. change (seqZ 0 8) with [0; 1; 2; 3; 4; 5; 6; 7].
    cbn [fmap list_fmap foldr].
    assert (Hcases : k = 0 ∨ k = 1 ∨ k = 2 ∨ k = 3 ∨ k = 4 ∨ k = 5 ∨ k = 6 ∨ k = 7)
      by lia.
    pose proof (Hzero 0). pose proof (Hzero 1). pose proof (Hzero 2).
    pose proof (Hzero 3). pose proof (Hzero 4). pose proof (Hzero 5).
    pose proof (Hzero 6). pose proof (Hzero 7).
    destruct Hcases as [->|[->|[->|[->|[->|[->|[->| ->]]]]]]]; lia. }
  rewrite Htot, Hb. destruct (Z.eqb_spec (score k) 0); [lia|].
  by apply confidence_full.
Qed.

Lemma locale_detection_witness :
  (ExtractSpells.detect_locale_offset
     (ExtractSpells.mkDBCReader "Spell.dbc" [[0; 1; 0; 0; 0; 0; 0; 0]]
        [x00; x41; x78; x65; x00] 8 ∅) 0).1 = 1 ∧
  Qeq (ExtractSpells.confidence
         (ExtractSpells.detect_locale
            (ExtractSpells.mkDBCReader "Spell.dbc" [[0; 1; 0; 0; 0; 0; 0; 0]]
               [x00; x41; x78; x65; x00] 8 ∅) 0).1) 100%Q.
Proof.
  set (r := ExtractSpells.mkDBCReader "Spell.dbc" [[0; 1; 0; 0; 0; 0; 0; 0]]
              [x00; x41; x78; x65; x00] 8 ∅).
  destruct (locale_detection "Spell.dbc" axe_table r r 0 eq_refl (reach_here r))
    as (Hoff & _ & _ & _ & _ & _ & _ & _ & _ & Hone).
  destruct (Hone 1) as [Hbest Hconf]; [lia|reflexivity| |].
  - intros i Hi Hne.
    assert (Hcases : i = 0 ∨ i = 2 ∨ i = 3 ∨ i = 4 ∨ i = 5 ∨ i = 6 ∨ i = 7) by lia.
    destruct Hcases as [->|[->|[->|[->|[->|[->| ->]]]]]]; reflexivity.
  - split; [by rewrite Hoff|exact Hconf].
Defined.

(** Slot 1 alone holds printable text with a vowel. When that text is
    ["Ox"], shorter than three characters, no slot scores: the detector
    returns slot 0 with confidence 0. When it is ["Axe"] the detector
    returns slot 1 and the confidence is 100, a percentage, not 1.0. *)
Lemma locale_detection_counterexample :
  (r ← ExtractSpells.new "Spell.dbc" ox_table;
   mret ((ExtractSpells.get_string r 1).1,
         (ExtractSpells.detect_locale_offset r 0).1,
         ExtractSpells.confidence (ExtractSpells.detect_locale r 0).1))
    = Ok (str_lit "Ox", 0, 0%Q) ∧
  (r ← ExtractSpells.new "Spell.dbc" axe_table;
   mret ((ExtractSpells.get_string r 1).1,
         (ExtractSpells.detect_locale_offset r 0).1,
         ExtractSpells.confidence (ExtractSpells.detect_locale r 0).1))
    = Ok (str_lit "Axe", 1, 100%Q).
Proof. split; vm_compute; reflexivity. Qed.

(** ** Description templating *)


(** ** The pass of [extract_spells.py] *)

Lemma bind_Ok {S A B} (m : stE S A) (k : A → stE S B) s b s' :
  (m ≫= k) s = Ok (b, s') → ∃ a s1, m s = Ok (a, s1) ∧ k a s1 = Ok (b, s').
Proof.
  unfold mbind, stE_bind. destruct (m s) as [[a s1]|e]; [|done]. eauto.
Qed.

(** [extract_spell] returns a row whenever it returns. *)
Lemma extract_spell_returns_row `{PyLib} SF off record t self o self' :
  ExtractSpells.extract_spell SF off record t self = Ok (o, self') → is_Some o.
Proof.
  unfold ExtractSpells.extract_spell. intros Hrun.
  repeat (apply bind_Ok in Hrun as (? & ? & _ & Hrun); cbv zeta in Hrun).
  destruct (default _ _) as [range_min range_max].
  repeat (apply bind_Ok in Hrun as (? & ? & _ & Hrun); cbv zeta in Hrun).
  injection Hrun as <- _. eauto.
Qed.

(** The loop of [main] emits one row per record and never counts a
    skip. *)
Lemma extract_loop_never_skips `{PyLib} SF off t recs :
  ∀ spells skipped self spells' skipped' self',
  ExtractSpells.extract_loop SF off t recs spells skipped self
    = Ok (spells', skipped', self') →
  skipped' = skipped ∧ length spells' = (length spells + length recs)%nat.
Proof.
  induction recs as [|record recs IH]; intros spells skipped self spells'
    skipped' self'.
  - intros [= <- <- <-]. split; [done|]. simpl. lia.
  - cbn [ExtractSpells.extract_loop]. intros Hrun.
    apply bind_Ok in Hrun as (o & self1 & Hrow & Hrun).
    apply extract_spell_returns_row in Hrow as [row ->].
    apply IH in Hrun as [-> ->]. split; [done|].
    rewrite length_app. simpl. lia.
Qed.

(** C7 (the code breaks the claim). [main] never calls
    [should_skip_spell]: on a table whose only spell is named
    ["Test Spell (OLD)"], a name the keyword test rejects, the pass emits
    the row and counts no skip. *)
Theorem main_emits_excluded_name `{PyLib} :
  ExtractSpells.new "Spell.dbc" test_spell_table
    ≫= ExtractSpells.main_extract ∅ (ExtractSpells.mkTables ∅ ∅ ∅ ∅)
  = Ok ([ExtractSpells.mkSpellArray 1 (str_lit "Test Spell (OLD)") None
           (str_lit "INV_Misc_QuestionMark") 0 [] 0 0 0 0 (Int 0) (Int 0) 0
           None 0 0 0], 0) ∧
  ExtractSpells.should_skip_spell (str_lit "Test Spell (OLD)") = true.
Proof. split; vm_compute; reflexivity. Qed.

(** ** The pass of [extrac_game_data.py] *)

Lemma result_bind_Ok {A B} (m : result A) (k : A → result B) b :
  m ≫= k = Ok b → ∃ a, m = Ok a ∧ k a = Ok b.
Proof. destruct m as [a|e]; [|done]. eauto. Qed.

Lemma get_item_guarded {A} (l : list A) i :
  0 <= i → i < len l → ∃ x, get_item l i = Ok x.
Proof.
  intros H0 Hlt. unfold get_item.
  destruct (Z.ltb_spec i 0); [lia|]. destruct (Z.ltb_spec i 0); [lia|].
  destruct (Z.leb_spec (len l) i); [lia|]. cbn [orb].
  destruct (l !! Z.to_nat i) as [x|] eqn:E; [eauto|].
  apply lookup_ge_None in E. unfold len in *. lia.
Qed.

Lemma get_item_elem {A} (l : list A) i x : get_item l i = Ok x → x ∈ l.
Proof.
  unfold get_item. destruct (_ || _); [done|].
  destruct (l !! _) as [y|] eqn:E; [|done]. intros [= <-].
  by eapply list_elem_of_lookup_2.
Qed.

Lemma get_localized_string_total dbc record start_field locale_index :
  0 <= start_field + locale_index →
  ∃ s, ExtracGameData.get_localized_string dbc record start_field locale_index
       = Ok s.
Proof.
  intros H0. unfold ExtracGameData.get_localized_string.
  destruct (Z.ltb_spec (start_field + locale_index) (len record)); [|by eexists].
  destruct (get_item_guarded record (start_field + locale_index)) as [w ->];
    [lia..|]. by eexists.
Qed.

Lemma alt_name_search_total dbc record test_fields name :
  Forall (λ i, 0 <= i) test_fields →
  ∃ n, ExtracGameData.alt_name_search dbc record test_fields name = Ok n.
Proof.
  induction 1 as [|i test_fields Hi _ IH]; [by eexists|].
  cbn [ExtracGameData.alt_name_search].
  destruct (Z.ltb_spec i (len record)).
  - destruct (get_item_guarded record i) as [w ->]; [lia..|].
    cbn [mbind result_bind mret result_ret].
    destruct (_ && _); [by eexists|done].
  - cbn [mbind result_bind mret result_ret].
    destruct (_ && _); [by eexists|done].
Qed.

Lemma guarded_item (record : list Z) i :
  0 <= i →
  ∃ v, (if len record >? i then get_item record i else mret 0) = Ok v.
Proof.
  intros Hi. destruct (Z.gtb_spec (len record) i); [|by eexists].
  apply get_item_guarded; lia.
Qed.

(** One iteration either leaves the emitted rows alone or adds a row
    whose id is in range and whose name from column 120 has at least two
    characters; it fails only on a record without fields. *)
Lemma extract_spells_step_spec dbc icon_map st record spell_id :
  get_item record 0 = Ok spell_id →
  ∃ st', ExtracGameData.extract_spells_step dbc icon_map st record = Ok st' ∧
    (ExtracGameData.spells st' = ExtracGameData.spells st ∨
     ∃ name e,
       spell_id ≠ 0 ∧ spell_id <= 100000 ∧
       ExtracGameData.get_localized_string dbc record 120 0 = Ok name ∧
       2 <= len name ∧ ExtracGameData.id e = spell_id ∧
       ExtracGameData.spells st'
         = <[pretty spell_id := e]> (ExtracGameData.spells st)).
Proof.
  intros Hid. unfold ExtracGameData.extract_spells_step. rewrite Hid.
  cbn [mbind result_bind].
  destruct (Z.eqb_spec spell_id 0) as [|Hnz]; [eauto|].
  destruct (Z.gtb_spec spell_id 100000) as [|Hle]; [eauto|]. cbn [orb].
  destruct (get_localized_string_total dbc record 120 0) as [name Hname]; [lia|].
  destruct (get_localized_string_total dbc record 133 0) as [rank Hrank]; [lia|].
  rewrite Hname. cbn [mbind result_bind]. rewrite Hrank. cbn [mbind result_bind].
  case_bool_decide as Hempty; [eauto|]. cbn [orb].
  destruct (Z.ltb_spec (len name) 2) as [|Hlen]; [eauto|].
  destruct (guarded_item record 121) as [i1 Hi1]; [lia|].
  destruct (guarded_item record 122) as [i2 Hi2]; [lia|].
  destruct (has_high_char name).
  - destruct (alt_name_search_total dbc record [124; 127; 128; 36; 82] name)
      as [alt ->]. { repeat constructor; lia. }
    cbn [mbind result_bind mret result_ret].
    destruct (_ || _); [eauto|].
    rewrite Hi1. cbn [mbind result_bind]. rewrite Hi2. cbn [mbind result_bind].
    eexists. split; [done|]. right. exists name. eexists.
    repeat split; try done.
  - cbn [mbind result_bind mret result_ret].
    destruct (_ || _); [eauto|].
    rewrite Hi1. cbn [mbind result_bind]. rewrite Hi2. cbn [mbind result_bind].
    eexists. split; [done|]. right. exists name. eexists.
    repeat split; try done.
Qed.

Lemma extract_spells_loop_spec dbc icon_map recs : ∀ st,
  Forall (λ record, ∃ spell_id, get_item record 0 = Ok spell_id ∧ 0 <= spell_id)
         recs →
  ∃ st', ExtracGameData.extract_spells_loop dbc icon_map recs st = Ok st' ∧
    ∀ key e, ExtracGameData.spells st' !! key = Some e →
      ExtracGameData.spells st !! key = Some e ∨
      (key = pretty (ExtracGameData.id e) ∧ 1 <= ExtracGameData.id e <= 100000 ∧
       ∃ record name,
         record ∈ recs ∧ get_item record 0 = Ok (ExtracGameData.id e) ∧
         ExtracGameData.get_localized_string dbc record 120 0 = Ok name ∧
         2 <= len name).
Proof.
  induction recs as [|record recs IH]; intros st Hrecs.
  - exists st. split; [done|]. eauto.
  - apply Forall_cons in Hrecs as [(spell_id & Hid & Hpos) Hrecs].
    cbn [ExtracGameData.extract_spells_loop].
    destruct (extract_spells_step_spec dbc icon_map st record spell_id Hid)
      as (st1 & -> & Hstep).
    cbn [mbind result_bind].
    destruct (IH st1 Hrecs) as (st' & -> & Hloop).
    exists st'. split; [done|]. intros key e Hkey.
    destruct (Hloop key e Hkey) as [Hold|(-> & Hr & record' & name & Hin & ?)].
    + destruct Hstep as [Hsame|(name & e' & Hnz & Hle & Hname & Hlen & Hide & Hins)].
      { left. by rewrite <- Hsame. }
      rewrite Hins, lookup_insert in Hold. case_decide as Hk; [|by left].
      injection Hold as Heq. subst e key. right. rewrite Hide.
      split; [done|]. split; [lia|].
      exists record, name. split; [by left|]. done.
    + right. split; [done|]. split; [done|].
      exists record', name. split; [by right|done].
Qed.

Lemma egd_records_shape path contents dbc :
  ExtracGameData.new path contents = Ok dbc →
  0 <= ExtracGameData.field_count dbc ∧
  Forall (λ record, len record = ExtracGameData.field_count dbc ∧
                    Forall (λ w, 0 <= w) record)
         (ExtracGameData.records dbc).
Proof.
  rewrite egd_new_unfold. destruct (len contents <? 20); [done|]. cbv zeta.
  case_bool_decide; [done|].
  pose proof (le_uint_nonneg (slice contents 8 12)) as Hfc.
  pose proof (le_uint_nonneg (slice contents 12 16)) as Hrs.
  destruct (read_records_shape (Z.to_nat (h_record_count (header_of contents)))
              (h_field_count (header_of contents))
              (h_record_size (header_of contents)) [] (drop 20 contents))
    as (recs & f' & -> & Hshape & _); [done..|].
  intros [= <-]. cbn [ExtracGameData.field_count ExtracGameData.records app].
  change (h_field_count (header_of contents)) with (le_uint (slice contents 8 12)) in *.
  split; [done|].
  eapply Forall_impl; [exact Hshape|].
  intros record (record_data & _ & ->). split.
  - unfold len. rewrite length_fmap, length_seqZ. lia.
  - apply Forall_fmap, Forall_forall. intros j _. apply field_value_nonneg.
Qed.

(** C8 (amended). For every row of [Spell.dbc] the pass of
    [extrac_game_data.py] skips the row, leaving every counter as it was,
    when its id is 0 or above 100000, and skips it, adding one to
    [no_name_count], when the name resolved from column 120 has fewer
    than 2 characters; every emitted row is filed under its id, which
    lies in [1 .. 100000], and comes from a record whose name resolved
    from column 120 has at least 2 characters. The pass returns whenever
    the table has at least one field. *)
Theorem row_rejection (path : string) (contents : list byte)
    (dbc : ExtracGameData.DBCReader) (icon_map : gmap Z (list Z)) :
  ExtracGameData.new path contents = Ok dbc →
  (∀ st record spell_id,
     get_item record 0 = Ok spell_id → spell_id = 0 ∨ 100000 < spell_id →
     ExtracGameData.extract_spells_step dbc icon_map st record = Ok st) ∧
  (∀ st record spell_id name,
     get_item record 0 = Ok spell_id → 1 <= spell_id <= 100000 →
     ExtracGameData.get_localized_string dbc record 120 0 = Ok name →
     len name < 2 →
     ExtracGameData.extract_spells_step dbc icon_map st record
     = Ok (ExtracGameData.mkPass (ExtracGameData.spells st)
             (ExtracGameData.no_name_count st + 1)
             (ExtracGameData.non_english_count st))) ∧
  (0 < ExtracGameData.field_count dbc →
     ∃ st, ExtracGameData.extract_spells dbc icon_map = Ok st) ∧
  (∀ st, ExtracGameData.extract_spells dbc icon_map = Ok st →
     ∀ key e, ExtracGameData.spells st !! key = Some e →
       key = pretty (ExtracGameData.id e) ∧
       1 <= ExtracGameData.id e <= 100000 ∧
       ∃ record name,
         record ∈ ExtracGameData.records dbc ∧
         get_item record 0 = Ok (ExtracGameData.id e) ∧
         ExtracGameData.get_localized_string dbc record 120 0 = Ok name ∧
         2 <= len name).
Proof.
  intros Hnew. destruct (egd_records_shape _ _ _ Hnew) as [Hfc Hshape].
  split; [|split].
  - intros st record spell_id Hid Hout.
    unfold ExtracGameData.extract_spells_step. rewrite Hid.
    cbn [mbind result_bind].
    destruct (Z.eqb_spec spell_id 0); [done|].
    destruct (Z.gtb_spec spell_id 100000); [done|lia].
  - intros st record spell_id name Hid Hin Hname Hshort.
    unfold ExtracGameData.extract_spells_step. rewrite Hid.
    cbn [mbind result_bind].
    destruct (Z.eqb_spec spell_id 0); [lia|].
    destruct (Z.gtb_spec spell_id 100000); [lia|]. cbn [orb].
    rewrite Hname. cbn [mbind result_bind].
    destruct (get_localized_string_total dbc record 133 0) as [rank ->]; [lia|].
    cbn [mbind result_bind].
    destruct (Z.ltb_spec (len name) 2); [|lia]. by rewrite orb_true_r.
  - assert (Hfirst : 0 < ExtracGameData.field_count dbc →
      Forall (λ record, ∃ spell_id, get_item record 0 = Ok spell_id ∧ 0 <= spell_id)
             (ExtracGameData.records dbc)).
    { intros Hpos. eapply Forall_impl; [exact Hshape|].
      intros record [Hlen Hnn].
      destruct (get_item_guarded record 0) as [w Hw]; [lia..|].
      exists w. split; [done|].
      apply get_item_elem in Hw. rewrite Forall_forall in Hnn. by apply Hnn. }
    split.
    + intros Hpos.
      destruct (extract_spells_loop_spec dbc icon_map (ExtracGameData.records dbc)
                  (ExtracGameData.mkPass ∅ 0 0) (Hfirst Hpos)) as (st & Hst & _).
      by exists st.
    + intros st Hst key e Hkey. unfold ExtracGameData.extract_spells in Hst.
      destruct (decide (0 < ExtracGameData.field_count dbc)) as [Hpos|Hzero].
      * destruct (extract_spells_loop_spec dbc icon_map (ExtracGameData.records dbc)
                    (ExtracGameData.mkPass ∅ 0 0) (Hfirst Hpos))
          as (st' & Hst' & Hprop).
        rewrite Hst in Hst'. injection Hst' as <-.
        destruct (Hprop key e Hkey) as [Hempty|?]; [|done].
        cbn in Hempty. by rewrite lookup_empty in Hempty.
      * destruct (ExtracGameData.records dbc) as [|record recs].
        { cbn in Hst. injection Hst as <-. cbn in Hkey.
          by rewrite lookup_empty in Hkey. }
        apply Forall_cons in Hshape as [[Hlen _] _].
        assert (record = []) as ->.
        { destruct record; [done|]. unfold len in Hlen. simpl in Hlen. lia. }
        done.
Qed.
Lemma row_rejection_witness :
  let dbc := ExtracGameData.mkDBCReader "Spell.dbc"
               [named_record 0 3; named_record 5 1; named_record 7 3]
               names_heap 121 484 3 in
  let st0 := ExtracGameData.mkPass ∅ 0 0 in
  ExtracGameData.extract_spells_step dbc ∅ st0 (named_record 0 3) = Ok st0 ∧
  ExtracGameData.extract_spells_step dbc ∅ st0 (named_record 5 1)
    = Ok (ExtracGameData.mkPass ∅ 1 0) ∧
  ∃ st, ExtracGameData.extract_spells dbc ∅ = Ok st ∧
    ∀ key e, ExtracGameData.spells st !! key = Some e →
      key = pretty (ExtracGameData.id e) ∧ 1 <= ExtracGameData.id e <= 100000.
Proof.
  intros dbc st0.
  destruct (row_rejection "Spell.dbc" three_spells_table dbc ∅ eq_refl)
    as (Hid & Hname & Hret & Hemit).
  split; [apply (Hid st0 (named_record 0 3) 0 eq_refl); by left|].
  split.
  { apply (Hname st0 (named_record 5 1) 5 (str_lit "A") eq_refl);
      [lia|reflexivity|reflexivity]. }
  destruct Hret as [st Hst]; [reflexivity|].
  exists st. split; [exact Hst|]. intros key e Hkey.
  destruct (Hemit st Hst key e Hkey) as (? & ? & _). by split.
Defined.

(** A table whose only spell has id 0: the row is skipped and neither
    counter of the pass moves. *)
Lemma id_skip_not_counted :
  ExtracGameData.new "Spell.dbc" zero_id_table
    ≫= (λ dbc, ExtracGameData.extract_spells dbc ∅)
  = Ok (ExtracGameData.mkPass ∅ 0 0).
Proof. vm_compute. reflexivity. Qed.

Example three_spells_pass :
  ExtracGameData.new "Spell.dbc" three_spells_table
    ≫= (λ dbc, ExtracGameData.extract_spells dbc ∅)
  = Ok (ExtracGameData.mkPass
          {[ "7"%string := ExtracGameData.mkSpell 7 (str_lit "Fireball") None 0 None ]}
          1 0).
Proof. vm_compute. reflexivity. Qed.

(** ** Templating on descriptions without [$$] *)

Lemma has_double_dollar_tail c s :
  has_double_dollar s = true → has_double_dollar (c :: s) = true.
Proof. intros H. cbn [has_double_dollar]. rewrite H. apply orb_true_r. Qed.

Lemma has_double_dollar_app_plain repl t :
  plain_text repl →
  has_double_dollar (repl ++ t) = true → has_double_dollar t = true.
Proof.
  intros [_ Hplain]. induction Hplain as [|c repl Hc _ IH]; [done|].
  cbn [app has_double_dollar].
  destruct (Z.eqb_spec c dollar); [done|]. cbn [andb orb]. exact IH.
Qed.

Lemma re_sub_literal_head pat repl s :
  plain_text repl →
  head (re_sub_literal pat repl s 0) = Some dollar → head s = Some dollar.
Proof.
  intros [Hne Hplain]. destruct s as [|c s]; [done|].
  cbn [re_sub_literal]. destruct (is_prefix pat (c :: s)); [|done].
  destruct repl as [|r repl]; [done|]. apply Forall_cons in Hplain as [Hr _].
  cbn. congruence.
Qed.

Lemma head_dollar s :
  (match s with d :: _ => d =? dollar | [] => false end) = true ↔
  head s = Some dollar.
Proof.
  destruct s as [|d s]; [done|]. cbn. rewrite Z.eqb_eq. split; congruence.
Qed.

(** A literal substitution that inserts plain text brings no two [$]
    together. *)
Lemma re_sub_literal_double_dollar pat repl s :
  plain_text repl →
  ∀ skip, has_double_dollar (re_sub_literal pat repl s skip) = true →
          has_double_dollar s = true.
Proof.
  intros Hrepl. induction s as [|c s IH]; intros skip; [done|].
  cbn [re_sub_literal]. destruct skip as [|k].
  - destruct (is_prefix pat (c :: s)).
    + intros H%(has_double_dollar_app_plain _ _ Hrepl).
      by apply has_double_dollar_tail, (IH _ H).
    + cbn [has_double_dollar]. intros [[Hc Hd]%andb_true_iff|H]%orb_true_iff.
      * apply head_dollar, (re_sub_literal_head _ _ _ Hrepl), head_dollar in Hd.
        by rewrite Hc, Hd.
      * by apply has_double_dollar_tail, (IH _ H).
  - intros H. by apply has_double_dollar_tail, (IH _ H).
Qed.

Section Templating.
Context `{PyLib}.

Lemma is_word_dollar : is_word dollar = false.
Proof. done. Qed.

Lemma has_placeholder_plain_app repl t :
  Forall (λ c, c ≠ dollar) repl →
  has_placeholder t = false → has_placeholder (repl ++ t) = false.
Proof.
  intros Hplain Ht. induction Hplain as [|r repl Hr _ IHr]; [done|].
  cbn [app has_placeholder]. destruct (Z.eqb_spec r dollar); [done|].
  cbn [andb orb]. exact IHr.
Qed.

(** After the last substitution no [$] is followed by a word character,
    provided no two [$] stood side by side. *)
Lemma re_sub_token_complete repl s :
  plain_text repl → has_double_dollar s = false →
  ∀ in_match, has_placeholder (re_sub_token repl s in_match) = false.
Proof.
  intros Hrepl. induction s as [|c s IH]; intros Hdd in_match; [done|].
  cbn [has_double_dollar] in Hdd. apply orb_false_iff in Hdd as [Hc Hdd].
  specialize (IH Hdd). cbn [re_sub_token].
  destruct (in_match && is_word c); [apply IH|].
  destruct (Z.eqb_spec c dollar) as [->|Hne]; cbn [andb].
  - cbn [andb] in Hc. change (dollar =? dollar) with true in Hc. cbn [andb] in Hc.
    destruct s as [|d s]; [done|].
    destruct (is_word d) eqn:Hd.
    + destruct Hrepl as [_ Hplain]. by apply has_placeholder_plain_app.
    + cbn [has_placeholder]. rewrite (IH false), orb_false_r.
      change (dollar =? dollar) with true. cbn [andb].
      cbn [re_sub_token]. rewrite Hd, andb_false_r, Hc. cbn [andb]. by rewrite Hd.
  - cbn [has_placeholder]. rewrite (IH false), orb_false_r.
    destruct (Z.eqb_spec c dollar); [done|]. done.
Qed.

Lemma has_placeholder_app a b :
  has_placeholder (a ++ b) = false →
  has_placeholder a = false ∧ has_placeholder b = false.
Proof.
  induction a as [|c a IH]; [done|].
  cbn [app has_placeholder]. intros [Hc Hab]%orb_false_iff.
  destruct (IH Hab) as [Ha Hb]. split; [|done]. rewrite Ha, orb_false_r.
  destruct (Z.eqb_spec c dollar); [|done]. cbn [andb] in *.
  destruct a as [|d a]; [done|]. done.
Qed.

Lemma lstrip_suffix s : ∃ p, s = p ++ lstrip s.
Proof.
  induction s as [|c s [p Hp]]; [by exists []|]. cbn [lstrip].
  destruct (isspace c); [|by exists []]. exists (c :: p). by rewrite Hp at 1.
Qed.

Lemma strip_complete s :
  has_placeholder s = false → has_placeholder (strip s) = false.
Proof.
  intros Hs. unfold strip.
  destruct (lstrip_suffix s) as [p Hp]. rewrite Hp in Hs.
  apply has_placeholder_app in Hs as [_ Hs].
  destruct (lstrip_suffix (rev (lstrip s))) as [q Hq].
  apply (f_equal (@rev Z)) in Hq. rewrite rev_involutive, rev_app_distr in Hq.
  rewrite Hq in Hs. by apply has_placeholder_app in Hs as [Hs _].
Qed.

End Templating.

Lemma str_lit_app s1 s2 : str_lit (s1 +:+ s2) = str_lit s1 ++ str_lit s2.
Proof.
  unfold str_lit. rewrite <- fmap_app. f_equal.
  induction s1 as [|a s1 IH]; [done|].
  change (String a s1 +:+ s2) with (String a (s1 +:+ s2)). cbn. by rewrite IH.
Qed.

Lemma pretty_N_go_plain x : ∀ s,
  Forall (λ c, c ≠ dollar) (str_lit s) →
  Forall (λ c, c ≠ dollar) (str_lit (pretty_N_go x s)).
Proof.
  induction (N.lt_wf_0 x) as [x _ IH]; intros s Hs.
  destruct (decide (x = 0)%N) as [->|Hx]; [by rewrite pretty_N_go_0|].
  rewrite pretty_N_go_step by lia. apply IH.
  { apply N.div_lt; lia. }
  change (str_lit (String ?a s)) with (Z.of_nat (nat_of_ascii a) :: str_lit s).
  constructor; [|done].
  unfold pretty_N_char. by repeat case_match.
Qed.

Lemma pretty_Z_plain (z : Z) : Forall (λ c, c ≠ dollar) (str_lit (pretty z)).
Proof.
  assert (HN : ∀ n : N, Forall (λ c, c ≠ dollar) (str_lit (pretty n))).
  { intros n. unfold pretty, pretty_N. case_decide.
    - by repeat constructor.
    - apply pretty_N_go_plain. constructor. }
  destruct z as [|p|p]; [by repeat constructor|apply HN|].
  change (pretty (Z.neg p)) with ("-" +:+ pretty (N.pos p)).
  rewrite str_lit_app. apply Forall_app. split; [by repeat constructor|apply HN].
Qed.

Lemma duration_text_plain (z : Z) : plain_text (str_lit (pretty z +:+ " sec")).
Proof.
  rewrite str_lit_app. split.
  - intros [_ ?]%app_eq_nil. done.
  - apply Forall_app. split; [apply pretty_Z_plain|by repeat constructor].
Qed.

Lemma plain_literal s :
  s ≠ [] → forallb (λ c, negb (c =? dollar)) s = true → plain_text s.
Proof.
  intros Hne Hall. split; [done|]. apply Forall_forall. intros c Hc.
  rewrite forallb_forall in Hall. apply list_elem_of_In, Hall in Hc.
  apply negb_true_iff, Z.eqb_neq in Hc. done.
Qed.

(** X3. Templating is complete on every description in which no two [$]
    stand side by side: the output of [parse_description] holds no [$]
    followed by a word character, whatever the duration. *)
Theorem template_complete_without_double_dollar `{PyLib}
    (desc : list Z) (duration_ms : Z) :
  has_double_dollar desc = false →
  has_placeholder (ExtractSpells.parse_description desc duration_ms) = false.
Proof.
  intros Hdd. unfold ExtractSpells.parse_description.
  case_bool_decide; [done|]. cbv zeta.
  apply strip_complete, re_sub_token_complete.
  { apply plain_literal; done. }
  assert (Hstep : ∀ pat repl s,
            plain_text repl → has_double_dollar s = false →
            has_double_dollar (re_sub_literal pat repl s 0) = false).
  { intros pat repl s Hrepl Hs.
    destruct (has_double_dollar (re_sub_literal pat repl s 0)) eqn:E; [|done].
    apply (re_sub_literal_double_dollar _ _ _ Hrepl) in E. congruence. }
  destruct (duration_ms >? 0);
    repeat (apply Hstep;
            [first [apply duration_text_plain | apply plain_literal; done]|]);
    exact Hdd.
Qed.

Lemma template_complete_witness :
  @has_placeholder ascii_lib
    (@ExtractSpells.parse_description ascii_lib
       (str_lit " Deals $s1 damage over $d. $x9 $o2 ") 1500) = false.
Proof.
  apply (@template_complete_without_double_dollar ascii_lib). reflexivity.
Defined.

Example template_sample :
  @ExtractSpells.parse_description ascii_lib
    (str_lit " Deals $s1 damage over $d. $x9 $o2 ") 1500
  = str_lit "Deals X damage over 2 sec. X Y".
Proof. vm_compute. reflexivity. Qed.

(** ** [main] never skips *)

Lemma get_string_records self offset :
  ExtractSpells.records (ExtractSpells.get_string self offset).2
  = ExtractSpells.records self.
Proof.
  unfold ExtractSpells.get_string.
  destruct (_ !! _); [done|]. destruct (_ || _); [done|].
  by destruct (_ =? -1).
Qed.

Lemma score_slots_records record loc_index offs : ∀ scores self,
  ExtractSpells.records
    (ExtractSpells.score_slots record loc_index offs scores self).2
  = ExtractSpells.records self.
Proof.
  induction offs as [|off offs IH]; intros scores self; [done|].
  cbn [ExtractSpells.score_slots].
  destruct (get_item record (loc_index + off)) as [w|e]; [|apply IH].
  pose proof (get_string_records self w) as Hrec.
  destruct (ExtractSpells.get_string self w) as [text self'].
  cbn [snd] in Hrec. destruct (ExtractSpells.looks_english text);
    by rewrite IH.
Qed.

Lemma score_records_records loc_index sample : ∀ scores self,
  ExtractSpells.records
    (ExtractSpells.score_records sample loc_index scores self).2
  = ExtractSpells.records self.
Proof.
  induction sample as [|record sample IH]; intros scores self; [done|].
  cbn [ExtractSpells.score_records].
  pose proof (score_slots_records record loc_index (seqZ 0 8) scores self) as Hrec.
  destruct (ExtractSpells.score_slots _ _ _ _ _) as [scores' self'].
  cbn [snd] in Hrec. by rewrite IH.
Qed.

Lemma detect_locale_offset_records spell_dbc loc_index :
  ExtractSpells.records
    (ExtractSpells.detect_locale_offset spell_dbc loc_index).2
  = ExtractSpells.records spell_dbc.
Proof.
  unfold ExtractSpells.detect_locale_offset, ExtractSpells.detect_locale.
  pose proof (score_records_records loc_index
                (slice (ExtractSpells.records spell_dbc) 0
                   (Z.min 200 (len (ExtractSpells.records spell_dbc))))
                (replicate 8 0) spell_dbc) as Hrec.
  destruct (ExtractSpells.score_records _ _ _ _) as [scores self'].
  done.
Qed.

(** X2. Whatever the table, the column indices and the lookup tables,
    when the pass of [main] returns it has emitted one row for each
    record of [Spell.dbc] and counted no skip. *)
Theorem main_never_skips `{PyLib} (LOC_INDICES : gmap string Z)
    (t : ExtractSpells.tables) (spell_dbc : ExtractSpells.DBCReader)
    (spells : list ExtractSpells.spell_array) (skipped : Z) :
  ExtractSpells.main_extract LOC_INDICES t spell_dbc = Ok (spells, skipped) →
  skipped = 0 ∧ length spells = length (ExtractSpells.records spell_dbc).
Proof.
  unfold ExtractSpells.main_extract. cbv zeta.
  destruct (ExtractSpells.dict_get _ _) as [name_loc_index|e]; [|done].
  cbn [mbind result_bind].
  pose proof (detect_locale_offset_records spell_dbc name_loc_index) as Hrec.
  destruct (ExtractSpells.detect_locale_offset _ _) as [off self'].
  cbn [snd] in Hrec. rewrite Hrec.
  destruct (ExtractSpells.extract_loop _ _ _ _ _ _ _) as [[[sp sk] self'']|e] eqn:E;
    [|done].
  intros [= <- <-]. by apply extract_loop_never_skips in E.
Qed.

Lemma main_never_skips_witness :
  0 = 0 ∧
  length [ExtractSpells.mkSpellArray 1 (str_lit "Test Spell (OLD)") None
            (str_lit "INV_Misc_QuestionMark") 0 [] 0 0 0 0 (Int 0) (Int 0) 0
            None 0 0 0] = 1%nat.
Proof.
  apply (@main_never_skips ascii_lib ∅ (ExtractSpells.mkTables ∅ ∅ ∅ ∅)
           (ExtractSpells.mkDBCReader "Spell.dbc"
              [<[119%nat := 1]> (1 :: replicate 146 0)]
              (x00 :: utf8_encode (str_lit "Test Spell (OLD)") ++ [x00]) 147 ∅)).
  vm_compute. reflexivity.
Defined.

Lemma tolerant_truncation_witness :
  ExtractSpellsSmart.new "Spell.dbc"
    (header_bytes 2 3 12 6 ++ concat [le32 5 ++ le32 0 ++ le32 0] ++ [x06; x00; x00])
  = Ok (ExtractSpellsSmart.mkDBCReader "Spell.dbc" [[5; 0; 0]] [] 3 12) ∧
  ExtracGameData.new "Spell.dbc"
    (header_bytes 2 3 12 6 ++ concat [le32 5 ++ le32 0 ++ le32 0] ++ [x06; x00; x00])
  = Ok (ExtracGameData.mkDBCReader "Spell.dbc" [[5; 0; 0]] [] 3 12 2).
Proof.
  apply (tolerant_truncation "Spell.dbc" 2 3 12 6
           [le32 5 ++ le32 0 ++ le32 0] [x06; x00; x00]);
    try (split; (lia || reflexivity)).
  all: first [reflexivity | repeat constructor].
Defined.

(** ** The scenario of the design document *)

(** On the heap ["AB\0CD\0"]: offset 0 resolves to ["AB"], offset 3 to
    ["CD"], offset 4 (row 1, field 1) to ["D"] and offset 6, the end of
    the heap, to the empty string. *)
Example scenario_resolution :
  (r ← ExtractSpells.new "Spell.dbc" scenario_table;
   mret ((λ offset, (ExtractSpells.get_string r offset).1) <$> [0; 3; 4; 6]))
  = Ok (str_lit <$> ["AB"; "CD"; "D"; ""]%string).
Proof. reflexivity. Qed.

Example scenario_records :
  ExtractSpells.new "Spell.dbc" scenario_table
  = Ok (ExtractSpells.mkDBCReader "Spell.dbc" [[5; 0; 0]; [6; 4; 0]]
          [x41; x42; x00; x43; x44; x00] 3 ∅).
Proof. reflexivity. Qed.

(** [should_skip_spell] is the keyword test on the upper-cased name. *)
Lemma should_skip_spell_iff `{PyLib} name :
  ExtractSpells.should_skip_spell name = true ↔
  ∃ keyword,
    keyword ∈ ["(OLD)"; "TEST"; "NYI"; "DND"; "QA"; "UNUSED"; "DEPRECATED";
               "DEATHKNIGHT"]%string ∧
    contains (str_lit keyword) (upper name) = true.
Proof.
  unfold ExtractSpells.should_skip_spell. cbv zeta. rewrite existsb_exists.
  split.
  - intros (k & Hin & Hk). apply list_elem_of_In, list_elem_of_fmap in Hin
      as (keyword & -> & Hin). eauto.
  - intros (keyword & Hin & Hk). exists (str_lit keyword). split; [|done].
    apply list_elem_of_In, list_elem_of_fmap. eauto.
Qed.

(** Letter case does not matter to the test on ASCII names. *)
Example should_skip_spell_cases :
  (@ExtractSpells.should_skip_spell ascii_lib <$>
     (str_lit <$> ["Fire test bolt"; "Shadow Bolt (old)"; "Fireball"]%string))
  = [true; true; false].
Proof. reflexivity. Qed.
(** ** The lookup tables of [extract_spells.py] *)

Lemma words_shape n : ∀ data,
  length (words n data) = n ∧ Forall word32 (words n data).
Proof.
  induction n as [|n IH]; intros data; [by split|].
  cbn [words]. destruct (IH (drop 4 data)) as [Hl Hw]. split.
  - cbn. by rewrite Hl.
  - constructor; [|done]. split; [apply le_uint_nonneg|].
    eapply Z.lt_le_trans; [apply le_uint_bound|].
    change (2 ^ 32) with (256 ^ 4).
    apply Z.pow_le_mono_r; [lia|]. unfold len. rewrite length_take. lia.
Qed.

Lemma es_read_records_shape n : ∀ field_count record_size acc f recs f',
  ExtractSpells.read_records n field_count record_size acc f = Ok (recs, f') →
  ∃ new, recs = acc ++ new ∧ length new = n ∧
    Forall (λ r, len r = field_count ∧ Forall word32 r) new.
Proof.
  induction n as [|n IH]; intros fc rs acc f recs f'.
  { intros [= <- <-]. exists []. by rewrite app_nil_r. }
  cbn [ExtractSpells.read_records]. unfold mbind at 1, stE_bind.
  destruct (f_read rs f) as [[data f1]|e] eqn:Hread; [|done].
  unfold mbind at 1, stE_bind, lift, unpack_words.
  destruct (Z.eqb_spec (len data) (4 * fc)) as [Hlen|]; [|done].
  intros Hrec. apply IH in Hrec as (new & -> & Hn & Hall).
  exists (words (Z.to_nat fc) data :: new). split; [by rewrite <- app_assoc|].
  split; [cbn; by rewrite Hn|].
  constructor; [|done]. destruct (words_shape (Z.to_nat fc) data) as [Hl Hw].
  split; [|done]. unfold len in *. rewrite Hl. lia.
Qed.

Lemma es_records_shape path contents dbc :
  ExtractSpells.new path contents = Ok dbc →
  Forall (λ r, len r = ExtractSpells.field_count dbc ∧ Forall word32 r)
         (ExtractSpells.records dbc).
Proof.
  rewrite es_new_unfold. destruct (len contents <? 20); [done|]. cbv zeta.
  case_bool_decide; [done|].
  destruct (ExtractSpells.read_records _ _ _ _ _) as [[recs f']|?] eqn:E; [|done].
  intros [= <-]. apply es_read_records_shape in E as (new & -> & _ & Hall).
  done.
Qed.

Lemma es_new_records path1 path2 contents dbc :
  ExtractSpells.new path1 contents = Ok dbc →
  ∃ dbc', ExtractSpells.new path2 contents = Ok dbc' ∧
    ExtractSpells.records dbc' = ExtractSpells.records dbc ∧
    ExtractSpells.string_block dbc' = ExtractSpells.string_block dbc ∧
    ExtractSpells.field_count dbc' = ExtractSpells.field_count dbc.
Proof.
  rewrite !es_new_unfold. destruct (len contents <? 20); [done|]. cbv zeta.
  case_bool_decide; [done|].
  destruct (ExtractSpells.read_records _ _ _ _ _) as [[recs f']|?]; [|done].
  intros [= <-]. by eexists.
Qed.

(** The dict a comprehension over the records builds: the keys are the
    first fields, and of two records with the same key the later one
    gives the value. *)
Lemma dict_of_records_spec {V} (value : list Z → result V) recs : ∀ d,
  Forall (λ r, is_Ok (get_item r 0) = true ∧ is_Ok (value r) = true) recs →
  ∃ m, ExtractSpells.dict_of_records value recs d = Ok m ∧
    ∀ k v, m !! k = Some v ↔
      (∃ i r, recs !! i = Some r ∧ get_item r 0 = Ok k ∧ value r = Ok v ∧
         ∀ j r', (i < j)%nat → recs !! j = Some r' → get_item r' 0 ≠ Ok k) ∨
      (d !! k = Some v ∧ ∀ r', r' ∈ recs → get_item r' 0 ≠ Ok k).
Proof.
  induction recs as [|r recs IH]; intros d Hall.
  { exists d. split; [done|]. intros k v. split.
    - intros Hd. right. split; [done|]. intros r' Hr'. by apply elem_of_nil in Hr'.
    - intros [(i & r & Hi & _)|[Hd _]]; [done|done]. }
  apply Forall_cons in Hall as [[Hk Hv] Hall].
  destruct (get_item r 0) as [k0|] eqn:Ek; [|done].
  destruct (value r) as [v0|] eqn:Ev; [|done].
  destruct (IH (<[k0 := v0]> d) Hall) as (m & Hm & Hspec).
  exists m. split.
  { cbn [ExtractSpells.dict_of_records]. rewrite Ek, Ev. exact Hm. }
  intros k v. rewrite Hspec. split.
  - intros [(i & r1 & Hi & Hk1 & Hv1 & Hlast)|[Hd Hno]].
    + left. exists (S i), r1. split; [done|]. split; [done|]. split; [done|].
      intros [|j] r' Hj Hr'; [lia|]. apply (Hlast j); [lia|done].
    + destruct (decide (k0 = k)) as [->|Hne].
      * rewrite lookup_insert_eq in Hd. injection Hd as <-.
        left. exists 0%nat, r. split; [done|]. split; [done|]. split; [done|].
        intros [|j] r' Hj Hr'; [lia|]. apply Hno. by eapply list_elem_of_lookup_2.
      * rewrite lookup_insert_ne in Hd by done. right. split; [done|].
        intros r' [->|Hr']%elem_of_cons; [congruence|by apply Hno].
  - intros [(i & r1 & Hi & Hk1 & Hv1 & Hlast)|[Hd Hno]].
    + destruct i as [|i].
      * injection Hi as <-. right.
        assert (k0 = k) as -> by congruence. assert (v0 = v) as -> by congruence.
        rewrite lookup_insert_eq. split; [done|].
        intros r' Hr'. apply list_elem_of_lookup in Hr' as [j Hj].
        apply (Hlast (S j)); [lia|done].
      * left. exists i, r1. split; [done|]. split; [done|]. split; [done|].
        intros j r' Hj Hr'. apply (Hlast (S j)); [lia|done].
    + right. assert (k0 ≠ k).
      { intros ->. apply (Hno r); [left|done]. }
      rewrite lookup_insert_ne by done. split; [done|].
      intros r' Hr'. apply Hno. by right.
Qed.

Lemma get_item_short {A} (l : list A) i : len l <= i → get_item l i = Raise IndexError.
Proof.
  intros Hi. unfold get_item. pose proof (len_nonneg l).
  destruct (Z.ltb_spec i 0); [lia|].
  destruct (Z.ltb_spec i 0); [lia|]. cbn [orb].
  destruct (Z.leb_spec (len l) i); [done|lia].
Qed.

Lemma get_item_error {A} (l : list A) i e : get_item l i = Raise e → e = IndexError.
Proof.
  unfold get_item. destruct (_ || _); [by intros [= <-]|].
  destruct (l !! _); [done|by intros [= <-]].
Qed.

Lemma get_item_is_Ok {A} (l : list A) i :
  0 <= i → i < len l → is_Ok (get_item l i) = true.
Proof.
  intros H1 H2. destruct (get_item_guarded l i H1 H2) as [x Hx]. by rewrite Hx.
Qed.

Lemma dict_of_records_short {V} (value : list Z → result V) r recs d :
  (get_item r 0 ≫= λ _, value r) = Raise IndexError →
  ExtractSpells.dict_of_records value (r :: recs) d = Raise IndexError.
Proof.
  cbn [ExtractSpells.dict_of_records].
  destruct (get_item r 0) as [k|e]; cbn; [by intros ->|by intros [= ->]].
Qed.

Lemma es_load_unfold {V} path (k : ExtractSpells.DBCReader → result V) contents dbc :
  ExtractSpells.new path contents = Ok dbc →
  (dbc ← ExtractSpells.new path contents; k dbc) = k dbc.
Proof. by intros ->. Qed.

(** X4. A table file whose header declares no record gives every lookup
    table builder of the three scripts an empty map, whatever field count,
    record size and heap it declares or holds. *)
Theorem lookup_tables_of_zero_rows (contents : list byte) :
  20 <= len contents → slice contents 0 4 = WDBC →
  le_uint (slice contents 4 8) = 0 →
  ExtractSpells.load_spell_icons contents = Ok ∅ ∧
  ExtractSpells.load_spell_durations contents = Ok ∅ ∧
  ExtractSpells.load_spell_cast_times contents = Ok ∅ ∧
  ExtractSpells.load_spell_ranges contents = Ok ∅ ∧
  ExtractSpellsSmart.extract_spell_icons contents = Ok ∅ ∧
  ExtracGameData.extract_spell_icons (Some contents) = Ok ∅ ∧
  ExtracGameData.extract_item_display_info (Some contents) = Ok ∅.
Proof.
  intros Hlen Hmagic Hrc.
  assert (Hl : (len contents <? 20) = false) by (apply Z.ltb_ge; lia).
  unfold ExtractSpells.load_spell_icons, ExtractSpells.load_spell_durations,
    ExtractSpells.load_spell_cast_times, ExtractSpells.load_spell_ranges,
    ExtractSpellsSmart.extract_spell_icons, ExtracGameData.extract_spell_icons,
    ExtracGameData.extract_item_display_info.
  rewrite !es_new_unfold, !smart_new_unfold, !egd_new_unfold, Hl. cbv zeta.
  change (h_magic (header_of contents)) with (slice contents 0 4).
  change (h_record_count (header_of contents)) with (le_uint (slice contents 4 8)).
  rewrite Hmagic, Hrc. rewrite !bool_decide_eq_false_2 by (intros ?; done).
  done.
Qed.

Lemma lookup_tables_of_zero_rows_witness :
  ExtractSpells.load_spell_icons (header_bytes 0 2 8 0) = Ok ∅ ∧
  ExtractSpells.load_spell_durations (header_bytes 0 2 8 0) = Ok ∅ ∧
  ExtractSpells.load_spell_cast_times (header_bytes 0 2 8 0) = Ok ∅ ∧
  ExtractSpells.load_spell_ranges (header_bytes 0 2 8 0) = Ok ∅ ∧
  ExtractSpellsSmart.extract_spell_icons (header_bytes 0 2 8 0) = Ok ∅ ∧
  ExtracGameData.extract_spell_icons (Some (header_bytes 0 2 8 0)) = Ok ∅ ∧
  ExtracGameData.extract_item_display_info (Some (header_bytes 0 2 8 0)) = Ok ∅.
Proof.
  apply (lookup_tables_of_zero_rows (header_bytes 0 2 8 0));
    [vm_compute; discriminate|reflexivity|reflexivity].
Defined.

(** X5. [load_spell_durations] and [load_spell_cast_times] run the same
    code on their table. Once the table is read, they raise [IndexError]
    when it has a record and fewer than two fields, and otherwise return
    the map whose keys are the first fields of the records, each with the
    second field of the last record of that key. *)
Theorem timing_tables_last_row_wins (contents : list byte)
    (dbc : ExtractSpells.DBCReader) :
  ExtractSpells.new (ExtractSpells.DBC_PATH +:+ "/SpellDuration.dbc") contents
    = Ok dbc →
  ExtractSpells.load_spell_cast_times contents
    = ExtractSpells.load_spell_durations contents ∧
  (ExtractSpells.records dbc ≠ [] → ExtractSpells.field_count dbc < 2 →
     ExtractSpells.load_spell_durations contents = Raise IndexError) ∧
  (2 <= ExtractSpells.field_count dbc →
     ∃ m, ExtractSpells.load_spell_durations contents = Ok m ∧
       ∀ k v, m !! k = Some v ↔
         ∃ i r, ExtractSpells.records dbc !! i = Some r ∧
           get_item r 0 = Ok k ∧ get_item r 1 = Ok v ∧
           ∀ j r', (i < j)%nat → ExtractSpells.records dbc !! j = Some r' →
                   get_item r' 0 ≠ Ok k).
Proof.
  intros Hnew. pose proof (es_records_shape _ _ _ Hnew) as Hshape.
  destruct (es_new_records _ (ExtractSpells.DBC_PATH +:+ "/SpellCastTimes.dbc")
              _ _ Hnew) as (dbc' & Hnew' & Hrecs' & _).
  unfold ExtractSpells.load_spell_cast_times, ExtractSpells.load_spell_durations.
  rewrite Hnew, Hnew'. cbn [mbind result_bind]. rewrite Hrecs'.
  split; [done|]. split.
  - intros Hne Hfc. destruct (ExtractSpells.records dbc) as [|r recs]; [done|].
    apply Forall_cons in Hshape as [[Hr _] _].
    apply dict_of_records_short. pose proof (len_nonneg r).
    destruct (get_item r 0) as [k|e] eqn:Ek.
    + cbn [mbind result_bind]. apply get_item_short. rewrite Hr. lia.
    + by apply get_item_error in Ek as ->.
  - intros Hfc.
    destruct (dict_of_records_spec (λ r, get_item r 1)
                (ExtractSpells.records dbc) ∅) as (m & Hm & Hspec).
    { eapply Forall_impl; [exact Hshape|]. intros r [Hr _]. cbn beta.
      split; apply get_item_is_Ok; lia. }
    exists m. split; [done|]. intros k v. rewrite Hspec. split.
    + intros [H|[H _]]; [done|]. by rewrite lookup_empty in H.
    + intros H. by left.
Qed.

Lemma timing_tables_witness :
  ExtractSpells.load_spell_cast_times scenario_table
    = ExtractSpells.load_spell_durations scenario_table ∧
  ∃ m, ExtractSpells.load_spell_durations scenario_table = Ok m ∧
    m !! 6 = Some 4.
Proof.
  destruct (timing_tables_last_row_wins scenario_table
              (ExtractSpells.mkDBCReader
                 (ExtractSpells.DBC_PATH +:+ "/SpellDuration.dbc")
                 [[5; 0; 0]; [6; 4; 0]] [x41; x42; x00; x43; x44; x00] 3 ∅))
    as (Heq & _ & Hmap); [reflexivity|].
  split; [exact Heq|].
  destruct Hmap as (m & Hm & Hspec); [simpl; lia|].
  exists m. split; [exact Hm|]. apply Hspec.
  exists 1%nat, [6; 4; 0]. split; [reflexivity|]. split; [reflexivity|].
  split; [reflexivity|]. intros [|[|j]] r' Hj Hr'; [lia|lia|discriminate].
Defined.

(** ** Icon names *)

Lemma last_component_spec sep s : ∀ acc,
  sep ∉ acc →
  (sep ∉ last_component sep s acc) ∧
  (∃ p, acc ++ s = p ++ last_component sep s acc).
Proof.
  induction s as [|c s IH]; intros acc Hacc.
  { cbn. split; [done|]. exists []. by rewrite app_nil_r. }
  cbn [last_component]. destruct (Z.eqb_spec c sep) as [->|Hne].
  - destruct (IH []) as [Hno [p Hp]]; [apply not_elem_of_nil|].
    split; [done|]. exists (acc ++ sep :: p).
    cbn [app] in Hp. rewrite <- app_assoc. cbn [app]. by rewrite <- Hp.
  - destruct (IH (acc ++ [c])) as [Hno [p Hp]].
    { rewrite elem_of_app, list_elem_of_singleton. intros [?|?]; [done|].
      by subst. }
    split; [done|]. exists p. rewrite <- Hp. by rewrite <- app_assoc.
Qed.

Lemma existsb_eqb_elem (c : Z) s : existsb (Z.eqb c) s = true ↔ c ∈ s.
Proof.
  rewrite existsb_exists. split.
  - intros (x & Hx & ->%Z.eqb_eq). by apply list_elem_of_In.
  - intros Hc. exists c. split; [by apply list_elem_of_In|apply Z.eqb_refl].
Qed.

(** An icon name holds no backslash and ends the path it is taken from. *)
Lemma icon_name_of_spec path :
  (backslash ∉ icon_name_of path) ∧ (∃ p, path = p ++ icon_name_of path).
Proof.
  unfold icon_name_of. destruct (existsb _ path) eqn:E.
  - destruct (last_component_spec backslash path []) as [H1 H2];
      [apply not_elem_of_nil|done].
  - split; [|by exists []]. intros Hin. apply existsb_eqb_elem in Hin. congruence.
Qed.

Lemma names_of_spec blk path_field recs : ∀ m,
  Forall (λ r, is_Ok (get_item r 0) = true ∧ is_Ok (get_item r path_field) = true)
         recs →
  ∀ k v, names_of blk path_field recs m !! k = Some v ↔
    (∃ i r off, recs !! i = Some r ∧ get_item r 0 = Ok k ∧
       get_item r path_field = Ok off ∧ resolve blk off ≠ [] ∧
       v = icon_name_of (resolve blk off) ∧
       ∀ j r' off', (i < j)%nat → recs !! j = Some r' → get_item r' 0 = Ok k →
         get_item r' path_field = Ok off' → resolve blk off' = []) ∨
    (m !! k = Some v ∧
     ∀ r' off', r' ∈ recs → get_item r' 0 = Ok k →
       get_item r' path_field = Ok off' → resolve blk off' = []).
Proof.
  induction recs as [|r recs IH]; intros m Hall k v.
  { cbn [names_of]. split.
    - intros Hm. right. split; [done|]. intros r' off' Hr'.
      by apply elem_of_nil in Hr'.
    - intros [(i & r & off & Hi & _)|[Hm _]]; done. }
  apply Forall_cons in Hall as [[Hk Hp] Hall].
  cbn [names_of].
  destruct (get_item r 0) as [k0|] eqn:Ek; [|done].
  destruct (get_item r path_field) as [off0|] eqn:Eo; [|done].
  case_bool_decide as Hempty; rewrite IH by done; split.
  - intros [(i & r1 & off & Hi & Hk1 & Ho1 & Hne & Hv & Hlast)|[Hm Hno]].
    + left. exists (S i), r1, off. repeat (split; [done|]).
      intros [|j] r' off' Hj Hr'; [lia|]. apply (Hlast j). lia. done.
    + right. split; [done|].
      intros r' off' [->|Hr']%elem_of_cons Hk' Ho'; [congruence|by eapply Hno].
  - intros [(i & r1 & off & Hi & Hk1 & Ho1 & Hne & Hv & Hlast)|[Hm Hno]].
    + destruct i as [|i].
      * injection Hi as <-. congruence.
      * left. exists i, r1, off. repeat (split; [done|]).
        intros j r' off' Hj Hr'. apply (Hlast (S j)). lia. done.
    + right. split; [done|]. intros r' off' Hr'. apply Hno. by right.
  - intros [(i & r1 & off & Hi & Hk1 & Ho1 & Hne & Hv & Hlast)|[Hm Hno]].
    + left. exists (S i), r1, off. repeat (split; [done|]).
      intros [|j] r' off' Hj Hr'; [lia|]. apply (Hlast j). lia. done.
    + destruct (decide (k0 = k)) as [->|Hneq].
      * rewrite lookup_insert_eq in Hm. injection Hm as <-.
        left. exists 0%nat, r, off0. repeat (split; [done|]).
        intros [|j] r' off' Hj Hr'; [lia|]. apply Hno.
        by eapply list_elem_of_lookup_2.
      * rewrite lookup_insert_ne in Hm by done. right. split; [done|].
        intros r' off' [->|Hr']%elem_of_cons Hk' Ho'; [congruence|by eapply Hno].
  - intros [(i & r1 & off & Hi & Hk1 & Ho1 & Hne & Hv & Hlast)|[Hm Hno]].
    + destruct i as [|i].
      * injection Hi as <-. right.
        assert (k0 = k) as -> by congruence.
        assert (off0 = off) as -> by congruence.
        rewrite lookup_insert_eq. split; [by rewrite Hv|].
        intros r' off' Hr'. apply list_elem_of_lookup in Hr' as [j Hj].
        apply (Hlast (S j)). lia. done.
      * left. exists i, r1, off. repeat (split; [done|]).
        intros j r' off' Hj Hr'. apply (Hlast (S j)). lia. done.
    + right. assert (k0 ≠ k).
      { intros ->. by specialize (Hno r off0 ltac:(left) Ek Eo). }
      rewrite lookup_insert_ne by done. split; [done|].
      intros r' off' Hr'. apply Hno. by right.
Qed.

Lemma names_of_names_spec blk path_field recs :
  Forall (λ r, is_Ok (get_item r 0) = true ∧ is_Ok (get_item r path_field) = true)
         recs →
  names_spec blk path_field recs (names_of blk path_field recs ∅).
Proof.
  intros Hall k v. rewrite names_of_spec by done. split.
  - intros [H|[H _]]; [done|]. by rewrite lookup_empty in H.
  - intros H. by left.
Qed.

Lemma names_of_no_backslash blk path_field recs : ∀ m,
  map_Forall (λ _ v, backslash ∉ v) m →
  map_Forall (λ _ v, backslash ∉ v) (names_of blk path_field recs m).
Proof.
  induction recs as [|r recs IH]; intros m Hm; [done|].
  cbn [names_of]. destruct (get_item r 0); [|done].
  destruct (get_item r path_field); [|done].
  case_bool_decide; apply IH; [done|].
  apply map_Forall_insert_2; [|done]. apply icon_name_of_spec.
Qed.

Lemma es_icons_loop_names recs : ∀ icon_map self,
  cache_ok self →
  Forall (λ r, is_Ok (get_item r 0) = true ∧ is_Ok (get_item r 1) = true) recs →
  ∃ self', ExtractSpells.icons_loop recs icon_map self
           = Ok (names_of (ExtractSpells.string_block self) 1 recs icon_map, self').
Proof.
  induction recs as [|r recs IH]; intros icon_map self Hok Hall.
  { by exists self. }
  apply Forall_cons in Hall as [[Hk Hp] Hall].
  cbn [ExtractSpells.icons_loop names_of].
  destruct (get_item r 0) as [k|] eqn:Ek; [|done].
  destruct (get_item r 1) as [off|] eqn:Eo; [|done].
  unfold mbind, stE_bind, lift, ExtractSpells.get_string_m.
  destruct (get_string_resolve self off Hok) as (Htext & Hok' & Hblk & _).
  destruct (ExtractSpells.get_string self off) as [text self1].
  cbn [fst snd] in *. subst text. rewrite <- Hblk.
  case_bool_decide; by apply IH.
Qed.

Lemma tolerant_records_shape n field_count record_size f recs f' :
  0 <= field_count → 0 <= record_size →
  ExtractSpellsSmart.read_records n field_count record_size [] f = Ok (recs, f') →
  Forall (λ r, len r = field_count ∧ Forall (λ w, 0 <= w) r) recs.
Proof.
  intros Hfc Hrs Hrec.
  destruct (read_records_shape n field_count record_size [] f Hfc Hrs)
    as (recs' & f'' & Heq & Hshape & _).
  rewrite Heq in Hrec. injection Hrec as <- <-. cbn [app].
  eapply Forall_impl; [exact Hshape|].
  intros r (record_data & _ & ->). split.
  - unfold len. rewrite length_fmap, length_seqZ. lia.
  - apply Forall_fmap, Forall_forall. intros j _. apply field_value_nonneg.
Qed.

Lemma smart_records_shape path contents dbc :
  ExtractSpellsSmart.new path contents = Ok dbc →
  Forall (λ r, len r = ExtractSpellsSmart.field_count dbc ∧ Forall (λ w, 0 <= w) r)
         (ExtractSpellsSmart.records dbc).
Proof.
  rewrite smart_new_unfold. destruct (len contents <? 20); [done|]. cbv zeta.
  case_bool_decide; [done|].
  destruct (ExtractSpellsSmart.read_records _ _ _ _ _) as [[recs f']|?] eqn:E;
    [|done].
  intros [= <-]. eapply tolerant_records_shape; [| |exact E];
    apply le_uint_nonneg.
Qed.

Lemma egd_get_string_resolve (r : ExtracGameData.DBCReader) offset :
  0 <= offset →
  ExtracGameData.get_string r offset
    = resolve (ExtracGameData.string_block r) offset.
Proof.
  intros H. unfold ExtracGameData.get_string, resolve.
  destruct (Z.ltb_spec offset 0); [lia|]. by rewrite orb_false_r.
Qed.

Lemma smart_icons_loop_names dbc recs : ∀ icon_mapping,
  Forall (λ r, 2 <= len r ∧ Forall (λ w, 0 <= w) r) recs →
  ExtractSpellsSmart.icons_loop dbc recs icon_mapping
  = Ok (names_of (ExtractSpellsSmart.string_block dbc) 1 recs icon_mapping).
Proof.
  induction recs as [|r recs IH]; intros icon_mapping Hall; [done|].
  apply Forall_cons in Hall as [[Hlen Hw] Hall].
  cbn [ExtractSpellsSmart.icons_loop names_of].
  destruct (get_item_guarded r 0) as [k Ek]; [lia..|].
  destruct (get_item_guarded r 1) as [off Eo]; [lia..|].
  rewrite Ek, Eo. cbn [mbind result_bind].
  rewrite smart_get_string_resolve.
  2:{ apply get_item_elem in Eo. by eapply Forall_forall in Hw. }
  case_bool_decide; by apply IH.
Qed.

Lemma egd_names_loop_names dbc path_field recs : ∀ name_map,
  0 <= path_field →
  Forall (λ r, path_field < len r ∧ Forall (λ w, 0 <= w) r) recs →
  ExtracGameData.names_loop dbc path_field recs name_map
  = Ok (names_of (ExtracGameData.string_block dbc) path_field recs name_map).
Proof.
  induction recs as [|r recs IH]; intros name_map Hpf Hall; [done|].
  apply Forall_cons in Hall as [[Hlen Hw] Hall].
  cbn [ExtracGameData.names_loop names_of].
  destruct (get_item_guarded r 0) as [k Ek]; [lia..|].
  destruct (get_item_guarded r path_field) as [off Eo]; [lia..|].
  rewrite Ek, Eo. cbn [mbind result_bind].
  rewrite egd_get_string_resolve.
  2:{ apply get_item_elem in Eo. by eapply Forall_forall in Hw. }
  case_bool_decide; by apply IH.
Qed.

Lemma first_record_short (r : list Z) path_field :
  0 <= path_field → len r <= path_field →
  (get_item r 0 ≫= λ _, get_item r path_field) = Raise IndexError.
Proof.
  intros Hpf Hlen. destruct (get_item r 0) as [k|e] eqn:Ek.
  - cbn [mbind result_bind]. by apply get_item_short.
  - by apply get_item_error in Ek as ->.
Qed.

Lemma names_ok_of blk path_field recs (field_count : Z) outcome :
  Forall (λ r, len r = field_count) recs →
  0 <= path_field →
  (path_field < field_count → outcome = Ok (names_of blk path_field recs ∅)) →
  (recs ≠ [] → field_count <= path_field → outcome = Raise IndexError) →
  names_loader_ok field_count blk path_field recs outcome.
Proof.
  intros Hshape Hpf Hok Herr. split; [done|]. intros Hfc.
  exists (names_of blk path_field recs ∅). split; [by apply Hok|]. split.
  - apply names_of_names_spec. eapply Forall_impl; [exact Hshape|].
    intros r Hr. cbn beta in *. split; apply get_item_is_Ok; lia.
  - by apply names_of_no_backslash.
Qed.

(** X6. [load_spell_ranges], once its table is read, raises [IndexError]
    when the table has a record and fewer than three fields; otherwise it
    returns, [get_float] accepting every word of a record, the map that
    gives the first field of each record the pair of floats whose bits
    are the second and third fields of the last record with that first
    field. *)
Theorem range_table_last_row_wins (contents : list byte)
    (dbc : ExtractSpells.DBCReader) :
  ExtractSpells.new (ExtractSpells.DBC_PATH +:+ "/SpellRange.dbc") contents
    = Ok dbc →
  (ExtractSpells.records dbc ≠ [] → ExtractSpells.field_count dbc < 3 →
     ExtractSpells.load_spell_ranges contents = Raise IndexError) ∧
  (3 <= ExtractSpells.field_count dbc →
     ∃ m, ExtractSpells.load_spell_ranges contents = Ok m ∧
       ∀ k v, m !! k = Some v ↔
         ∃ i r w1 w2, ExtractSpells.records dbc !! i = Some r ∧
           get_item r 0 = Ok k ∧ get_item r 1 = Ok w1 ∧ get_item r 2 = Ok w2 ∧
           v = (Float32 w1, Float32 w2) ∧
           ∀ j r', (i < j)%nat → ExtractSpells.records dbc !! j = Some r' →
                   get_item r' 0 ≠ Ok k).
Proof.
  intros Hnew. pose proof (es_records_shape _ _ _ Hnew) as Hshape.
  unfold ExtractSpells.load_spell_ranges. rewrite Hnew. cbn [mbind result_bind].
  set (value := λ r : list Z,
         get_item r 1 ≫= λ w1, ExtractSpells.get_float w1 ≫= λ lo,
         get_item r 2 ≫= λ w2, ExtractSpells.get_float w2 ≫= λ hi,
         mret (lo, hi)).
  assert (Hfloat : ∀ r w i, Forall word32 r → get_item r i = Ok w →
            ExtractSpells.get_float w = Ok (Float32 w)).
  { intros r w i Hr Hw. apply get_item_elem in Hw.
    eapply Forall_forall in Hr as [H1 H2]; [|exact Hw].
    unfold ExtractSpells.get_float.
    destruct (Z.leb_spec 0 w); [|lia]. by destruct (Z.ltb_spec w (2 ^ 32)); [|lia]. }
  split.
  - intros Hne Hfc. destruct (ExtractSpells.records dbc) as [|r recs]; [done|].
    apply Forall_cons in Hshape as [[Hr Hw] _].
    apply dict_of_records_short. pose proof (len_nonneg r).
    destruct (get_item r 0) as [k|e] eqn:Ek;
      [|by apply get_item_error in Ek as ->].
    cbn [mbind result_bind]. unfold value.
    destruct (get_item r 1) as [w1|e] eqn:E1;
      [|by apply get_item_error in E1 as ->].
    cbn [mbind result_bind]. rewrite (Hfloat r w1 1) by done.
    cbn [mbind result_bind]. rewrite get_item_short; [done|lia].
  - intros Hfc.
    destruct (dict_of_records_spec value (ExtractSpells.records dbc) ∅)
      as (m & Hm & Hspec).
    { eapply Forall_impl; [exact Hshape|]. intros r [Hr Hw]. cbn beta.
      split; [apply get_item_is_Ok; lia|]. unfold value.
      destruct (get_item_guarded r 1) as [w1 E1]; [lia..|].
      destruct (get_item_guarded r 2) as [w2 E2]; [lia..|].
      rewrite E1. cbn [mbind result_bind]. rewrite (Hfloat r w1 1) by done.
      cbn [mbind result_bind]. rewrite E2. cbn [mbind result_bind].
      by rewrite (Hfloat r w2 2). }
    exists m. split; [done|]. intros k v. rewrite Hspec. split.
    + intros [(i & r & Hi & Hk & Hv & Hlast)|[H _]];
        [|by rewrite lookup_empty in H].
      assert (Hr : Forall word32 r).
      { eapply Forall_forall in Hshape as [_ ?]; [done|].
        by eapply list_elem_of_lookup_2. }
      exists i, r. unfold value in Hv.
      destruct (get_item r 1) as [w1|] eqn:E1; [|done].
      cbn [mbind result_bind] in Hv. rewrite (Hfloat r w1 1) in Hv by done.
      cbn [mbind result_bind] in Hv.
      destruct (get_item r 2) as [w2|] eqn:E2; [|done].
      cbn [mbind result_bind] in Hv. rewrite (Hfloat r w2 2) in Hv by done.
      injection Hv as <-. by exists w1, w2.
    + intros (i & r & w1 & w2 & Hi & Hk & E1 & E2 & -> & Hlast).
      assert (Hr : Forall word32 r).
      { eapply Forall_forall in Hshape as [_ ?]; [done|].
        by eapply list_elem_of_lookup_2. }
      left. exists i, r. repeat (split; [done|]). split; [|done].
      unfold value. rewrite E1. cbn [mbind result_bind].
      rewrite (Hfloat r w1 1) by done. cbn [mbind result_bind]. rewrite E2.
      cbn [mbind result_bind]. by rewrite (Hfloat r w2 2).
Qed.

Lemma range_table_witness :
  ∃ m, ExtractSpells.load_spell_ranges scenario_table = Ok m ∧
    m !! 6 = Some (Float32 4, Float32 0).
Proof.
  destruct (range_table_last_row_wins scenario_table
              (ExtractSpells.mkDBCReader
                 (ExtractSpells.DBC_PATH +:+ "/SpellRange.dbc")
                 [[5; 0; 0]; [6; 4; 0]] [x41; x42; x00; x43; x44; x00] 3 ∅))
    as [_ Hmap]; [reflexivity|].
  destruct Hmap as (m & Hm & Hspec); [simpl; lia|].
  exists m. split; [exact Hm|]. apply Hspec.
  exists 1%nat, [6; 4; 0], 4, 0. repeat (split; [reflexivity|]).
  intros [|[|j]] r' Hj Hr'; [lia|lia|discriminate].
Defined.

(** X7. [load_spell_icons] of [extract_spells.py], once [SpellIcon.dbc]
    is read, raises [IndexError] when the table has a record and fewer
    than two fields; otherwise it files under each icon id the final
    component of the texture path of the last record of that id whose
    path is not empty, and nothing else, and no name it stores holds a
    backslash. The string cache does not show in the result. *)
Theorem strict_icon_table (contents : list byte) (dbc : ExtractSpells.DBCReader) :
  ExtractSpells.new (ExtractSpells.DBC_PATH +:+ "/SpellIcon.dbc") contents
    = Ok dbc →
  names_loader_ok (ExtractSpells.field_count dbc) (ExtractSpells.string_block dbc)
    1 (ExtractSpells.records dbc) (ExtractSpells.load_spell_icons contents).
Proof.
  intros Hnew. pose proof (es_records_shape _ _ _ Hnew) as Hshape.
  unfold ExtractSpells.load_spell_icons. rewrite Hnew. cbn [mbind result_bind].
  apply names_ok_of; [|lia| |].
  - eapply Forall_impl; [exact Hshape|]. by intros r [Hr _].
  - intros Hfc.
    destruct (es_icons_loop_names (ExtractSpells.records dbc) ∅ dbc)
      as [self' ->]; [by eapply new_cache_ok| |done].
    eapply Forall_impl; [exact Hshape|]. intros r [Hr _]. cbn beta.
    split; apply get_item_is_Ok; lia.
  - intros Hne Hfc. destruct (ExtractSpells.records dbc) as [|r recs]; [done|].
    apply Forall_cons in Hshape as [[Hr _] _].
    cbn [ExtractSpells.icons_loop]. unfold mbind at 1, stE_bind, lift.
    pose proof (first_record_short r 1 ltac:(lia) ltac:(lia)) as Hshort.
    destruct (get_item r 0) as [k|e]; [|by injection Hshort as ->].
    cbn [mbind result_bind] in Hshort. unfold mbind at 1, stE_bind.
    by rewrite Hshort.
Qed.

Lemma strict_icon_table_witness :
  names_loader_ok 2
    ([x00] ++ utf8_encode (str_lit "I\Fire") ++ [x00]
           ++ utf8_encode (str_lit "I\Frost") ++ [x00])
    1 [[1; 1]; [2; 0]; [1; 8]]
    (Ok {[ 1 := str_lit "Frost" ]}).
Proof.
  apply (strict_icon_table icon_table
           (ExtractSpells.mkDBCReader (ExtractSpells.DBC_PATH +:+ "/SpellIcon.dbc")
              [[1; 1]; [2; 0]; [1; 8]]
              ([x00] ++ utf8_encode (str_lit "I\Fire") ++ [x00]
                     ++ utf8_encode (str_lit "I\Frost") ++ [x00]) 2 ∅)).
  reflexivity.
Defined.

(** X8. The loaders of names of the two tolerant scripts
    ([extract_spell_icons] of [extract_spells_smart.py],
    [extract_spell_icons] and [extract_item_display_info] of
    [extrac_game_data.py]), once their table is read, raise [IndexError]
    when the table has a record and no field for the path (field 1, field
    5 for the display info); otherwise each files under an id the final
    component of the path of the last record of that id whose path is
    not empty, and nothing else, and no name it stores holds a
    backslash. *)
Theorem tolerant_name_tables (contents : list byte) :
  (∀ dbc,
     ExtractSpellsSmart.new "game-data/DBFilesClient/SpellIcon.dbc" contents
       = Ok dbc →
     names_loader_ok (ExtractSpellsSmart.field_count dbc)
       (ExtractSpellsSmart.string_block dbc) 1 (ExtractSpellsSmart.records dbc)
       (ExtractSpellsSmart.extract_spell_icons contents)) ∧
  (∀ dbc,
     ExtracGameData.new "game-data/DBFilesClient/SpellIcon.dbc" contents
       = Ok dbc →
     names_loader_ok (ExtracGameData.field_count dbc)
       (ExtracGameData.string_block dbc) 1 (ExtracGameData.records dbc)
       (ExtracGameData.extract_spell_icons (Some contents))) ∧
  (∀ dbc,
     ExtracGameData.new "game-data/DBFilesClient/ItemDisplayInfo.dbc" contents
       = Ok dbc →
     names_loader_ok (ExtracGameData.field_count dbc)
       (ExtracGameData.string_block dbc) 5 (ExtracGameData.records dbc)
       (ExtracGameData.extract_item_display_info (Some contents))).
Proof.
  split; [|split]; intros dbc Hnew.
  - pose proof (smart_records_shape _ _ _ Hnew) as Hshape.
    unfold ExtractSpellsSmart.extract_spell_icons. rewrite Hnew.
    cbn [mbind result_bind]. apply names_ok_of; [|lia| |].
    + eapply Forall_impl; [exact Hshape|]. by intros r [Hr _].
    + intros Hfc. apply smart_icons_loop_names.
      eapply Forall_impl; [exact Hshape|]. intros r [Hr Hw]. split; [lia|done].
    + intros Hne Hfc. destruct (ExtractSpellsSmart.records dbc) as [|r recs]; [done|].
      apply Forall_cons in Hshape as [[Hr _] _].
      cbn [ExtractSpellsSmart.icons_loop].
      pose proof (first_record_short r 1 ltac:(lia) ltac:(lia)) as Hshort.
      destruct (get_item r 0) as [k|e]; [|by injection Hshort as ->].
      cbn [mbind result_bind] in *. by rewrite Hshort.
  - pose proof (egd_records_shape _ _ _ Hnew) as [_ Hshape].
    unfold ExtracGameData.extract_spell_icons. rewrite Hnew.
    cbn [mbind result_bind]. apply names_ok_of; [|lia| |].
    + eapply Forall_impl; [exact Hshape|]. by intros r [Hr _].
    + intros Hfc. apply egd_names_loop_names; [lia|].
      eapply Forall_impl; [exact Hshape|]. intros r [Hr Hw]. split; [lia|done].
    + intros Hne Hfc. destruct (ExtracGameData.records dbc) as [|r recs]; [done|].
      apply Forall_cons in Hshape as [[Hr _] _].
      cbn [ExtracGameData.names_loop].
      pose proof (first_record_short r 1 ltac:(lia) ltac:(lia)) as Hshort.
      destruct (get_item r 0) as [k|e]; [|by injection Hshort as ->].
      cbn [mbind result_bind] in *. by rewrite Hshort.
  - pose proof (egd_records_shape _ _ _ Hnew) as [_ Hshape].
    unfold ExtracGameData.extract_item_display_info. rewrite Hnew.
    cbn [mbind result_bind]. apply names_ok_of; [|lia| |].
    + eapply Forall_impl; [exact Hshape|]. by intros r [Hr _].
    + intros Hfc. apply egd_names_loop_names; [lia|].
      eapply Forall_impl; [exact Hshape|]. intros r [Hr Hw]. split; [lia|done].
    + intros Hne Hfc. destruct (ExtracGameData.records dbc) as [|r recs]; [done|].
      apply Forall_cons in Hshape as [[Hr _] _].
      cbn [ExtracGameData.names_loop].
      pose proof (first_record_short r 5 ltac:(lia) ltac:(lia)) as Hshort.
      destruct (get_item r 0) as [k|e]; [|by injection Hshort as ->].
      cbn [mbind result_bind] in *. by rewrite Hshort.
Qed.

Lemma tolerant_name_tables_witness :
  names_loader_ok 2
    ([x00] ++ utf8_encode (str_lit "I\Fire") ++ [x00]
           ++ utf8_encode (str_lit "I\Frost") ++ [x00])
    1 [[1; 1]; [2; 0]; [1; 8]] (Ok {[ 1 := str_lit "Frost" ]}) ∧
  names_loader_ok 2
    ([x00] ++ utf8_encode (str_lit "I\Fire") ++ [x00]
           ++ utf8_encode (str_lit "I\Frost") ++ [x00])
    5 [[1; 1]; [2; 0]; [1; 8]] (Raise IndexError).
Proof.
  destruct (tolerant_name_tables icon_table) as (H1 & _ & H3). split.
  - apply (H1 (ExtractSpellsSmart.mkDBCReader
                 "game-data/DBFilesClient/SpellIcon.dbc"
                 [[1; 1]; [2; 0]; [1; 8]]
                 ([x00] ++ utf8_encode (str_lit "I\Fire") ++ [x00]
                        ++ utf8_encode (str_lit "I\Frost") ++ [x00]) 2 8)).
    reflexivity.
  - apply (H3 (ExtracGameData.mkDBCReader
                 "game-data/DBFilesClient/ItemDisplayInfo.dbc"
                 [[1; 1]; [2; 0]; [1; 8]]
                 ([x00] ++ utf8_encode (str_lit "I\Fire") ++ [x00]
                        ++ utf8_encode (str_lit "I\Frost") ++ [x00]) 2 8 3)).
    reflexivity.
Defined.

(** ** Substrings *)

Lemma is_prefix_spec sub : ∀ s, is_prefix sub s = true ↔ ∃ t, s = sub ++ t.
Proof.
  induction sub as [|a sub IH]; intros s.
  { split; [by exists s|done]. }
  destruct s as [|b s]; cbn [is_prefix].
  { split; [done|]. by intros [t Ht]. }
  rewrite andb_true_iff, Z.eqb_eq, IH. split.
  - intros [-> [t ->]]. by exists t.
  - intros [t [= -> ->]]. split; [done|]. by exists t.
Qed.

Lemma contains_spec sub : ∀ s,
  contains sub s = true ↔ ∃ p t, s = p ++ sub ++ t.
Proof.
  induction s as [|c s IH]; cbn [contains].
  - rewrite orb_false_r, is_prefix_spec. split.
    + intros [t Ht]. by exists [], t.
    + intros (p & t & Hs). destruct p; [by exists t|done].
  - rewrite orb_true_iff, is_prefix_spec, IH. split.
    + intros [[t Ht]|(p & t & ->)]; [by exists [], t|by exists (c :: p), t].
    + intros ([|c' p] & t & Hs); [left; by exists t|].
      injection Hs as -> ->. right. by exists p, t.
Qed.

Lemma endswith_spec s suffix : endswith s suffix = true ↔ ∃ p, s = p ++ suffix.
Proof.
  unfold endswith. rewrite is_prefix_spec. split.
  - intros [t Ht]. exists (rev t).
    rewrite <- (rev_involutive s), Ht, rev_app_distr. by rewrite rev_involutive.
  - intros [p ->]. exists (rev p). by rewrite rev_app_distr.
Qed.

Lemma endswith_contains s suffix :
  contains suffix s = false → endswith s suffix = false.
Proof.
  intros Hc. destruct (endswith s suffix) eqn:E; [|done].
  apply endswith_spec in E as [p ->].
  assert (contains suffix (p ++ suffix) = true); [|congruence].
  apply contains_spec. exists p, []. by rewrite app_nil_r.
Qed.

Lemma contains_false_app sub p s t :
  contains sub (p ++ s ++ t) = false → contains sub s = false.
Proof.
  intros Hc. destruct (contains sub s) eqn:E; [|done].
  apply contains_spec in E as (p' & t' & ->).
  assert (contains sub (p ++ (p' ++ sub ++ t') ++ t) = true); [|congruence].
  apply contains_spec. exists (p ++ p'), (t' ++ t). by rewrite <- !app_assoc.
Qed.

(** ** [find_best_spell_name] *)

(** What the first loop accepts. *)
Lemma first_choice_spec record spell_dbc test_fields :
  Forall (λ i, 0 <= i) test_fields →
  ∃ o, ExtractSpellsSmart.first_choice record spell_dbc test_fields = Ok o ∧
    ∀ name, o = Some name →
      3 < len name ∧ is_prefix (str_lit " ") name = false ∧
      endswith name (str_lit "(OLD)") = false ∧
      contains (str_lit " of Recall") name = false ∧
      ∃ i off, get_item record i = Ok off ∧
        name = ExtractSpellsSmart.get_string spell_dbc off.
Proof.
  induction 1 as [|i test_fields Hi _ IH].
  { by exists None. }
  cbn [ExtractSpellsSmart.first_choice].
  destruct (Z.ltb_spec i (len record)) as [Hlt|]; [|exact IH].
  destruct (get_item_guarded record i Hi Hlt) as [off Hoff]. rewrite Hoff.
  cbn [mbind result_bind].
  set (name := ExtractSpellsSmart.get_string spell_dbc off).
  destruct (negb (bool_decide (name = [])) && (len name >? 3)
            && negb (is_prefix (str_lit " ") name)
            && negb (endswith name (str_lit "(OLD)"))
            && negb (contains (str_lit " of Recall") name)) eqn:E; [|exact IH].
  exists (Some name). split; [done|]. intros ? [= <-].
  rewrite !andb_true_iff, !negb_true_iff in E.
  destruct E as [[[[_ Hlen] Hsp] Hold] Hrec].
  split; [lia|]. repeat (split; [done|]). by exists i, off.
Qed.

(** What the fallback loop accepts. *)
Lemma fallback_choice_spec record spell_dbc idxs :
  Forall (λ i, 0 <= i < len record) idxs →
  ∃ o, ExtractSpellsSmart.fallback_choice record spell_dbc idxs = Ok o ∧
    ∀ name, o = Some name →
      3 < len name ∧ contains (str_lit "(OLD)") name = false ∧
      contains (str_lit " of Recall") name = false ∧
      ∃ i off, get_item record i = Ok off ∧
        name = ExtractSpellsSmart.get_string spell_dbc off.
Proof.
  induction 1 as [|i idxs Hi _ IH].
  { by exists None. }
  cbn [ExtractSpellsSmart.fallback_choice].
  destruct (get_item_guarded record i) as [off Hoff]; [lia..|]. rewrite Hoff.
  cbn [mbind result_bind].
  set (name := ExtractSpellsSmart.get_string spell_dbc off).
  destruct (negb (bool_decide (name = [])) && (len name >? 3)
            && negb (contains (str_lit "(OLD)") name)
            && negb (contains (str_lit " of Recall") name)) eqn:E; [|exact IH].
  exists (Some name). split; [done|]. intros ? [= <-].
  rewrite !andb_true_iff, !negb_true_iff in E.
  destruct E as [[[_ Hlen] Hold] Hrec].
  split; [lia|]. repeat (split; [done|]). by exists i, off.
Qed.

Lemma find_best_spell_name_returns record spell_dbc :
  ∃ name, ExtractSpellsSmart.find_best_spell_name record spell_dbc = Ok name.
Proof.
  unfold ExtractSpellsSmart.find_best_spell_name.
  destruct (first_choice_spec record spell_dbc [1; 4; 28; 29; 127; 36; 82])
    as (o1 & -> & _).
  { repeat constructor; lia. }
  cbn [mbind result_bind]. destruct o1 as [name|]; [by exists name|].
  destruct (fallback_choice_spec record spell_dbc
              (seqZ 0 (Z.min 50 (len record)))) as (o2 & -> & _).
  { apply Forall_forall. intros i Hi%elem_of_seqZ. lia. }
  cbn [mbind result_bind]. destruct o2 as [name|]; by eexists.
Qed.

(** X9. [find_best_spell_name] never raises, whatever the record and the
    reader; the name it returns has more than 3 characters, does not end
    with ["(OLD)"] and does not contain [" of Recall"], and is either
    ["Unknown Spell"] or the string a field of the record points to. *)
Theorem find_best_spell_name_total (record : list Z)
    (spell_dbc : ExtractSpellsSmart.DBCReader) :
  ∃ name, ExtractSpellsSmart.find_best_spell_name record spell_dbc = Ok name ∧
    3 < len name ∧
    endswith name (str_lit "(OLD)") = false ∧
    contains (str_lit " of Recall") name = false ∧
    (name = str_lit "Unknown Spell" ∨
     ∃ i off, get_item record i = Ok off ∧
       name = ExtractSpellsSmart.get_string spell_dbc off).
Proof.
  unfold ExtractSpellsSmart.find_best_spell_name.
  destruct (first_choice_spec record spell_dbc [1; 4; 28; 29; 127; 36; 82])
    as (o1 & -> & H1).
  { repeat constructor; lia. }
  cbn [mbind result_bind]. destruct o1 as [name|].
  { destruct (H1 name eq_refl) as (? & ? & ? & ? & ?).
    exists name. repeat (split; [done|]). by right. }
  destruct (fallback_choice_spec record spell_dbc
              (seqZ 0 (Z.min 50 (len record)))) as (o2 & -> & H2).
  { apply Forall_forall. intros i Hi%elem_of_seqZ. lia. }
  cbn [mbind result_bind]. destruct o2 as [name|].
  - destruct (H2 name eq_refl) as (? & ? & ? & ?).
    exists name. split; [done|]. split; [done|].
    split; [by apply endswith_contains|]. split; [done|]. by right.
  - exists (str_lit "Unknown Spell"). split; [done|].
    split; [by vm_compute|]. split; [done|]. split; [done|]. by left.
Qed.

(** ** The incremental update of [extract_spells_smart.py] *)

Section smart_update.
Import ExtractSpellsSmart.

Lemma icon_search_spec im record icon_fields :
  Forall (λ i, 0 <= i) icon_fields →
  ∃ v, icon_search im record icon_fields = Ok v ∧
    (v = 0 ∨ mapping_has im v = true).
Proof.
  induction 1 as [|i icon_fields Hi _ IH].
  { exists 0. split; [done|by left]. }
  cbn [icon_search].
  destruct (Z.ltb_spec i (len record)) as [Hlt|]; [|exact IH].
  destruct (get_item_guarded record i Hi Hlt) as [v Hv]. rewrite Hv.
  cbn [mbind result_bind]. destruct (mapping_has im v) eqn:E; [|exact IH].
  exists v. split; [done|by right].
Qed.

(** One iteration, without its error paths. *)
Lemma update_step_spec spell_dbc im st record spell_id :
  get_item record 0 = Ok spell_id →
  ∃ icon_id,
    (icon_id = 0 ∨ mapping_has im icon_id = true) ∧
    update_step spell_dbc im st record
    = Ok (if (spell_id =? 0) || (spell_id >? 100000) then st
          else
            let name := best_name spell_dbc record in
            let icon_name := mapping_get im icon_id in
            match spells_data st !! pretty spell_id with
            | Some entry =>
              if name_differs entry name
              then mkUpdate (<[pretty spell_id :=
                                 updated_entry entry name icon_id icon_name]>
                               (spells_data st))
                            (updated_count st + 1) (new_count st)
              else st
            | None =>
              mkUpdate (<[pretty spell_id :=
                            new_entry spell_id name icon_id icon_name]>
                          (spells_data st))
                       (updated_count st) (new_count st + 1)
            end).
Proof.
  intros Hid. unfold update_step, best_name. rewrite Hid. cbn [mbind result_bind].
  destruct (icon_search_spec im record [21; 22; 23; 24; 25])
    as (icon_id & Hicon & Hv).
  { repeat constructor; lia. }
  exists icon_id. split; [done|].
  destruct ((spell_id =? 0) || (spell_id >? 100000)); [done|].
  destruct (find_best_spell_name_returns record spell_dbc) as [name ->].
  cbn [mbind result_bind]. rewrite Hicon. cbn [mbind result_bind]. cbv zeta.
  destruct (spells_data st !! pretty spell_id) as [entry|]; [|done].
  by destruct (name_differs entry name).
Qed.

Lemma update_step_first_field spell_dbc im st record st' :
  update_step spell_dbc im st record = Ok st' → is_Ok (get_item record 0) = true.
Proof. unfold update_step. by destruct (get_item record 0). Qed.

Lemma update_loop_first_fields spell_dbc im recs : ∀ st st',
  update_loop spell_dbc im recs st = Ok st' →
  Forall (λ r, is_Ok (get_item r 0) = true) recs.
Proof.
  induction recs as [|r recs IH]; intros st st'; [done|].
  cbn [update_loop]. intros (st1 & H1 & Hloop)%result_bind_Ok.
  constructor; [by eapply update_step_first_field|by eapply IH].
Qed.

Lemma updated_entry_name entry name icon_id icon_name :
  name_differs (updated_entry entry name icon_id icon_name) name = false.
Proof.
  unfold name_differs, updated_entry.
  rewrite lookup_insert_ne by done. rewrite lookup_insert_ne by done.
  rewrite lookup_insert_eq. by rewrite bool_decide_eq_true_2.
Qed.

Lemma new_entry_name spell_id name icon_id icon_name :
  name_differs (new_entry spell_id name icon_id icon_name) name = false.
Proof. apply updated_entry_name. Qed.

(** What one iteration leaves in [spells_data]. *)
Lemma update_step_data spell_dbc im st record st' :
  update_step spell_dbc im st record = Ok st' →
  (st' = st ∧
   ∀ spell_id, get_item record 0 = Ok spell_id →
     spell_id ∈ valid_ids [record] →
     ∃ entry, spells_data st !! pretty spell_id = Some entry ∧
       name_differs entry (best_name spell_dbc record) = false) ∨
  (∃ spell_id icon_id,
     get_item record 0 = Ok spell_id ∧ valid_ids [record] = [spell_id] ∧
     (icon_id = 0 ∨ mapping_has im icon_id = true) ∧
     ((∃ entry, spells_data st !! pretty spell_id = Some entry ∧
         st' = mkUpdate
                 (<[pretty spell_id :=
                      updated_entry entry (best_name spell_dbc record) icon_id
                        (mapping_get im icon_id)]> (spells_data st))
                 (updated_count st + 1) (new_count st)) ∨
      (spells_data st !! pretty spell_id = None ∧
       st' = mkUpdate
               (<[pretty spell_id :=
                    new_entry spell_id (best_name spell_dbc record) icon_id
                      (mapping_get im icon_id)]> (spells_data st))
               (updated_count st) (new_count st + 1)))).
Proof.
  intros Hstep. pose proof (update_step_first_field _ _ _ _ _ Hstep) as Hid.
  destruct (get_item record 0) as [spell_id|] eqn:Eid; [|done].
  destruct (update_step_spec spell_dbc im st record spell_id Eid)
    as (icon_id & Hicon & Heq).
  rewrite Heq in Hstep. injection Hstep as <-.
  unfold valid_ids. cbn [omap list_omap]. rewrite Eid.
  destruct ((spell_id =? 0) || (spell_id >? 100000)) eqn:Evalid.
  { left. split; [done|]. intros ? _ Hin. by apply elem_of_nil in Hin. }
  cbv zeta.
  destruct (spells_data st !! pretty spell_id) as [entry|] eqn:Elook.
  - destruct (name_differs entry _) eqn:Ediff.
    + right. exists spell_id, icon_id. repeat (split; [done|]).
      left. by exists entry.
    + left. split; [done|]. intros ? [= <-] _. by exists entry.
  - right. exists spell_id, icon_id. repeat (split; [done|]). by right.
Qed.

Lemma valid_ids_cons r recs : valid_ids (r :: recs) = valid_ids [r] ++ valid_ids recs.
Proof. unfold valid_ids. cbn [omap list_omap]. by destruct (match get_item r 0 with Ok _ => _ | Raise _ => _ end). Qed.

(** The entries the pass does not reach stay as they are. *)
Lemma update_loop_frame spell_dbc im recs : ∀ st st' key,
  update_loop spell_dbc im recs st = Ok st' →
  (∀ spell_id, spell_id ∈ valid_ids recs → key ≠ pretty spell_id) →
  spells_data st' !! key = spells_data st !! key.
Proof.
  induction recs as [|r recs IH]; intros st st' key; [by intros [= <-]|].
  cbn [update_loop]. intros (st1 & Hstep & Hloop)%result_bind_Ok Hkey.
  rewrite valid_ids_cons in Hkey.
  rewrite (IH st1 st' key Hloop).
  2:{ intros spell_id Hin. apply Hkey, elem_of_app. by right. }
  apply update_step_data in Hstep
    as [[-> _]|(spell_id & icon_id & _ & Hvalid & _ & Hcases)]; [done|].
  assert (key ≠ pretty spell_id) as Hne.
  { apply Hkey, elem_of_app. left. rewrite Hvalid. apply list_elem_of_here. }
  destruct Hcases as [(entry & _ & ->)|[_ ->]]; cbn [spells_data];
    by rewrite lookup_insert_ne.
Qed.

(** After the pass the entry of a record with a valid id, no other record
    having that id, bears the name found for the record. *)
Lemma update_loop_names spell_dbc im recs : ∀ st st',
  update_loop spell_dbc im recs st = Ok st' →
  NoDup (valid_ids recs) →
  ∀ r spell_id, r ∈ recs → get_item r 0 = Ok spell_id →
    spell_id ∈ valid_ids [r] →
    ∃ entry, spells_data st' !! pretty spell_id = Some entry ∧
      name_differs entry (best_name spell_dbc r) = false.
Proof.
  induction recs as [|r0 recs IH]; intros st st' Hloop Hnd r spell_id Hr Hid Hv.
  { by apply elem_of_nil in Hr. }
  cbn [update_loop] in Hloop.
  apply result_bind_Ok in Hloop as (st1 & Hstep & Hloop).
  rewrite valid_ids_cons in Hnd. apply NoDup_app in Hnd as (_ & Hdisj & Hnd).
  apply elem_of_cons in Hr as [->|Hr]; [|by eapply IH].
  rewrite (update_loop_frame _ _ _ _ _ _ Hloop).
  2:{ intros id' Hin ->%(inj pretty). by apply (Hdisj id'). }
  apply update_step_data in Hstep
    as [[-> Hsame]|(id' & icon_id & Hid' & _ & _ & Hcases)]; [by apply Hsame|].
  assert (id' = spell_id) as -> by congruence.
  destruct Hcases as [(entry & _ & ->)|[_ ->]]; cbn [spells_data];
    rewrite lookup_insert_eq; eexists; (split; [done|]);
    [apply updated_entry_name|apply new_entry_name].
Qed.

(** A pass over data that already bears the names changes nothing. *)
Lemma update_loop_fixed spell_dbc im recs st :
  Forall (λ r, is_Ok (get_item r 0) = true) recs →
  (∀ r spell_id, r ∈ recs → get_item r 0 = Ok spell_id →
     spell_id ∈ valid_ids [r] →
     ∃ entry, spells_data st !! pretty spell_id = Some entry ∧
       name_differs entry (best_name spell_dbc r) = false) →
  update_loop spell_dbc im recs st = Ok st.
Proof.
  induction 1 as [|r recs Hr _ IH]; intros Hnames; [done|].
  cbn [update_loop].
  destruct (get_item r 0) as [spell_id|] eqn:Eid; [|done].
  destruct (update_step_spec spell_dbc im st r spell_id Eid)
    as (icon_id & _ & ->).
  cbn [mbind result_bind].
  assert (Hrest : update_loop spell_dbc im recs st = Ok st).
  { apply IH. intros r' id' Hr'. apply Hnames. by right. }
  destruct ((spell_id =? 0) || (spell_id >? 100000)) eqn:Evalid; [done|].
  cbv zeta.
  destruct (Hnames r spell_id) as (entry & -> & ->); [by left|done| |done].
  unfold valid_ids. cbn [omap list_omap]. rewrite Eid, Evalid.
  apply list_elem_of_here.
Qed.

Lemma update_spell_data_unfold spells_json icon_json icon_file spell_file saved st :
  update_spell_data spells_json icon_json icon_file spell_file = Ok (saved, st) →
  ∃ im spell_dbc,
    new "game-data/DBFilesClient/Spell.dbc" spell_file = Ok spell_dbc ∧
    update_loop spell_dbc im (records spell_dbc)
      (mkUpdate (default ∅ spells_json) 0 0) = Ok st ∧
    (match icon_json with
     | Some m => m ≠ ∅ → saved = None ∧ im = Loaded m
     | None => True
     end).
Proof.
  unfold update_spell_data. cbv zeta.
  intros ([saved' im] & Hicon & Hrest)%result_bind_Ok.
  apply result_bind_Ok in Hrest as (spell_dbc & Hnew & Hrest).
  apply result_bind_Ok in Hrest as (st1 & Hloop & [= <- <-]).
  exists im, spell_dbc. split; [done|]. split; [done|].
  destruct icon_json as [m|]; [|done]. intros Hm. cbn [default] in Hicon.
  rewrite bool_decide_eq_false_2 in Hicon by done. by injection Hicon as <- <-.
Qed.

Lemma loaded_loop_inv spell_dbc m recs : ∀ st st',
  update_loop spell_dbc (Loaded m) recs st = Ok st' →
  ∀ key entry, spells_data st' !! key = Some entry →
    spells_data st !! key = Some entry ∨
    (entry !! "icon_id" = Some (JInt 0) ∧ entry !! "icon_name" = Some JNull).
Proof.
  induction recs as [|r recs IH]; intros st st'.
  { intros [= <-] key entry H. by left. }
  cbn [update_loop]. intros (st1 & Hstep & Hloop)%result_bind_Ok key entry Hlook.
  destruct (IH _ _ Hloop key entry Hlook) as [H1|H1]; [|by right].
  apply update_step_data in Hstep
    as [[-> _]|(spell_id & icon_id & _ & _ & Hicon & Hcases)]; [by left|].
  destruct Hicon as [->|Hhas]; [|done].
  destruct Hcases as [(entry0 & _ & ->)|[_ ->]]; cbn [spells_data] in H1;
    (destruct (decide (key = pretty spell_id)) as [->|Hk];
     [rewrite lookup_insert_eq in H1; injection H1 as <-; right|
      rewrite lookup_insert_ne in H1 by done; by left]).
  - unfold updated_entry. rewrite lookup_insert_ne by done.
    by rewrite !lookup_insert_eq.
  - unfold new_entry. rewrite lookup_insert_ne by done.
    by rewrite !lookup_insert_eq.
Qed.

(** X10. A pass of [update_spell_data] that starts from an icon mapping
    read back from [icon_mapping.json] (an object that is not empty, its
    keys strings) writes nothing to that file and finds no icon: every
    entry of the data it saves is an entry of [spells.json] left as it
    was, or has [icon_id] 0 and [icon_name] null. *)
Theorem loaded_icon_mapping_never_matches
    (spells_json : option (gmap string (gmap string json)))
    (icon_json : gmap string json) (icon_file spell_file : list byte)
    (saved : option (gmap Z (list Z))) (st : update) :
  icon_json ≠ ∅ →
  update_spell_data spells_json (Some icon_json) icon_file spell_file
    = Ok (saved, st) →
  saved = None ∧
  ∀ key entry, spells_data st !! key = Some entry →
    default ∅ spells_json !! key = Some entry ∨
    (entry !! "icon_id" = Some (JInt 0) ∧ entry !! "icon_name" = Some JNull).
Proof.
  intros Hne (im & spell_dbc & _ & Hloop & Him)%update_spell_data_unfold.
  destruct (Him Hne) as [-> ->]. split; [done|].
  intros key entry Hlook.
  by destruct (loaded_loop_inv _ _ _ _ _ Hloop key entry Hlook); [left|right].
Qed.

(** What the pass keeps of the data and how it counts. *)
Lemma update_loop_counts spell_dbc im recs : ∀ st st',
  update_loop spell_dbc im recs st = Ok st' →
  Z.of_nat (size (spells_data st')) - new_count st'
    = Z.of_nat (size (spells_data st)) - new_count st ∧
  updated_count st <= updated_count st' ∧ new_count st <= new_count st' ∧
  (updated_count st' - updated_count st) + (new_count st' - new_count st)
    <= len (valid_ids recs) ∧
  ∀ key entry, spells_data st !! key = Some entry →
    ∃ entry', spells_data st' !! key = Some entry' ∧
      ∀ field, field ≠ "name"%string → field ≠ "icon_id"%string →
        field ≠ "icon_name"%string → entry' !! field = entry !! field.
Proof.
  induction recs as [|r recs IH]; intros st st'.
  { intros [= <-]. repeat (split; [lia|]). split; [unfold len; cbn; lia|].
    intros key entry H. by exists entry. }
  cbn [update_loop]. intros (st1 & Hstep & Hloop)%result_bind_Ok.
  destruct (IH _ _ Hloop) as (Hsize & Hup & Hnew & Hsum & Hkeep).
  rewrite valid_ids_cons. unfold len in *. rewrite length_app.
  apply update_step_data in Hstep
    as [[-> _]|(spell_id & icon_id & _ & Hvalid & _ & Hcases)].
  { repeat (split; [lia|]). done. }
  rewrite Hvalid. cbn [length].
  destruct Hcases as [(entry0 & Hlook & ->)|[Hlook ->]];
    cbn [spells_data updated_count new_count] in *.
  - rewrite map_size_insert_Some in Hsize by done.
    repeat (split; [lia|]). intros key entry Hkey.
    destruct (decide (key = pretty spell_id)) as [->|Hne].
    + destruct (Hkeep (pretty spell_id)
                  (updated_entry entry0 (best_name spell_dbc r) icon_id
                     (mapping_get im icon_id)))
        as (entry' & Hentry' & Hfields); [by rewrite lookup_insert_eq|].
      exists entry'. split; [done|]. intros field H1 H2 H3.
      rewrite Hfields by done. unfold updated_entry.
      rewrite !lookup_insert_ne by done. congruence.
    + apply Hkeep. by rewrite lookup_insert_ne.
  - rewrite map_size_insert_None in Hsize by done.
    repeat (split; [lia|]). intros key entry Hkey.
    apply Hkeep. rewrite lookup_insert_ne; [done|]. intros <-. congruence.
Qed.

(** X11. The bookkeeping of [update_spell_data]: the data it saves has
    as many entries as [spells.json] had plus the number it reports as
    new; the two numbers it reports are not negative and together do not
    exceed the number of records of [Spell.dbc] with an id in
    [1 .. 100000]; and every entry of [spells.json] is still there, with
    every field other than [name], [icon_id] and [icon_name] as it
    was. *)
Theorem update_bookkeeping
    (spells_json : option (gmap string (gmap string json)))
    (icon_json : option (gmap string json)) (icon_file spell_file : list byte)
    (saved : option (gmap Z (list Z))) (st : update) :
  update_spell_data spells_json icon_json icon_file spell_file = Ok (saved, st) →
  Z.of_nat (size (spells_data st))
    = Z.of_nat (size (default ∅ spells_json)) + new_count st ∧
  0 <= updated_count st ∧ 0 <= new_count st ∧
  (∃ spell_dbc,
     new "game-data/DBFilesClient/Spell.dbc" spell_file = Ok spell_dbc ∧
     updated_count st + new_count st <= len (valid_ids (records spell_dbc))) ∧
  ∀ key entry, default ∅ spells_json !! key = Some entry →
    ∃ entry', spells_data st !! key = Some entry' ∧
      ∀ field, field ≠ "name"%string → field ≠ "icon_id"%string →
        field ≠ "icon_name"%string → entry' !! field = entry !! field.
Proof.
  intros (im & spell_dbc & Hnew & Hloop & _)%update_spell_data_unfold.
  apply update_loop_counts in Hloop as (Hsize & Hup & Hcnt & Hsum & Hkeep).
  cbn [spells_data updated_count new_count] in *.
  split; [lia|]. split; [lia|]. split; [lia|]. split; [|done].
  exists spell_dbc. split; [done|lia].
Qed.

(** X12. Running [update_spell_data] again on what it has just saved
    changes nothing, when no two records of [Spell.dbc] with an id in
    [1 .. 100000] share their id: whatever icon mapping the second pass
    works with, it leaves the data as it is and counts 0 updates and 0
    new spells. *)
Theorem second_run_changes_nothing
    (spells_json : option (gmap string (gmap string json)))
    (icon_json : option (gmap string json)) (icon_file spell_file : list byte)
    (saved : option (gmap Z (list Z))) (st : update) (spell_dbc : DBCReader) :
  update_spell_data spells_json icon_json icon_file spell_file = Ok (saved, st) →
  new "game-data/DBFilesClient/Spell.dbc" spell_file = Ok spell_dbc →
  NoDup (valid_ids (records spell_dbc)) →
  (∀ im, update_loop spell_dbc im (records spell_dbc)
           (mkUpdate (spells_data st) 0 0)
         = Ok (mkUpdate (spells_data st) 0 0)) ∧
  (∀ icon_json' icon_file', icon_json' ≠ ∅ →
     update_spell_data (Some (spells_data st)) (Some icon_json') icon_file'
       spell_file
     = Ok (None, mkUpdate (spells_data st) 0 0)).
Proof.
  intros (im & spell_dbc' & Hnew' & Hloop & _)%update_spell_data_unfold Hnew Hnd.
  assert (spell_dbc' = spell_dbc) as -> by congruence.
  assert (Hfixed : ∀ im', update_loop spell_dbc im' (records spell_dbc)
                            (mkUpdate (spells_data st) 0 0)
                          = Ok (mkUpdate (spells_data st) 0 0)).
  { intros im'. apply update_loop_fixed.
    - by eapply update_loop_first_fields.
    - intros r spell_id Hr Hid Hv. cbn [spells_data].
      by eapply update_loop_names. }
  split; [done|]. intros icon_json' icon_file' Hne.
  unfold update_spell_data. cbv zeta. cbn [default].
  rewrite bool_decide_eq_false_2 by done. cbn [mbind mret result_bind result_ret].
  rewrite Hnew. cbn [mbind result_bind]. by rewrite Hfixed.
Qed.

Lemma loaded_icon_mapping_witness :
  ∃ st,
    update_spell_data None (Some {[ "1"%string := JStr (str_lit "Fire") ]}) []
      smart_spell_table = Ok (None, st) ∧
    ∀ key entry, spells_data st !! key = Some entry →
      (∅ : gmap string (gmap string json)) !! key = Some entry ∨
      (entry !! "icon_id" = Some (JInt 0) ∧ entry !! "icon_name" = Some JNull).
Proof.
  eexists. split; [vm_compute; reflexivity|].
  eapply (loaded_icon_mapping_never_matches None
            {[ "1"%string := JStr (str_lit "Fire") ]} [] smart_spell_table).
  - apply insert_non_empty.
  - vm_compute. reflexivity.
Defined.

Lemma update_bookkeeping_witness :
  ∃ st,
    update_spell_data None None icon_table smart_spell_table
      = Ok (Some {[ 1 := str_lit "Frost" ]}, st) ∧
    Z.of_nat (size (spells_data st)) = 0 + new_count st ∧
    0 <= updated_count st ∧ 0 <= new_count st.
Proof.
  assert (Hrun : ∃ st, update_spell_data None None icon_table smart_spell_table
                       = Ok (Some {[ 1 := str_lit "Frost" ]}, st))
    by (eexists; vm_compute; reflexivity).
  destruct Hrun as [st Hrun]. exists st. split; [exact Hrun|].
  destruct (update_bookkeeping None None icon_table smart_spell_table _ _ Hrun)
    as (H1 & H2 & H3 & _).
  exact (conj H1 (conj H2 H3)).
Defined.

Lemma second_run_witness :
  ∃ st,
    update_spell_data None None icon_table smart_spell_table
      = Ok (Some {[ 1 := str_lit "Frost" ]}, st) ∧
    update_spell_data (Some (spells_data st))
      (Some {[ "1"%string := JStr (str_lit "Frost") ]}) [] smart_spell_table
    = Ok (None, mkUpdate (spells_data st) 0 0).
Proof.
  eexists. split; [vm_compute; reflexivity|].
  eapply (second_run_changes_nothing None None icon_table smart_spell_table).
  - vm_compute. reflexivity.
  - vm_compute. reflexivity.
  - vm_compute. apply NoDup_cons. split; [|apply NoDup_singleton].
    intros H%list_elem_of_singleton. discriminate.
  - apply insert_non_empty.
Defined.

End smart_update.

(** ** Trimming *)

Lemma lstrip_length s : (length (lstrip s) <= length s)%nat.
Proof.
  induction s as [|c s IH]; [done|]. cbn [lstrip].
  destruct (isspace c); cbn [length]; lia.
Qed.

Lemma lstrip_head s : lstrip s = [] ∨ ∃ c t, lstrip s = c :: t ∧ isspace c = false.
Proof.
  induction s as [|c s IH]; [by left|]. cbn [lstrip].
  destruct (isspace c) eqn:E; [done|]. right. by exists c, s.
Qed.

Lemma lstrip_lstrip s : lstrip (lstrip s) = lstrip s.
Proof.
  destruct (lstrip_head s) as [->|(c & t & -> & Hc)]; [done|].
  cbn [lstrip]. by rewrite Hc.
Qed.

Lemma rstrip_prefix t : ∃ q, t = rev (lstrip (rev t)) ++ q.
Proof.
  destruct (lstrip_suffix (rev t)) as [p Hp]. exists (rev p).
  rewrite <- rev_app_distr, <- Hp. by rewrite rev_involutive.
Qed.

Lemma strip_strip s : strip (strip s) = strip s.
Proof.
  unfold strip. set (t := lstrip s).
  assert (Ht : lstrip t = t) by apply lstrip_lstrip.
  assert (Hfix : lstrip (rev (lstrip (rev t))) = rev (lstrip (rev t))).
  { destruct (rstrip_prefix t) as [q Hq].
    destruct (rev (lstrip (rev t))) as [|c u] eqn:E; [done|].
    cbn [lstrip]. destruct (isspace c) eqn:Ec; [|done].
    rewrite Hq in Ht. cbn [app lstrip] in Ht. rewrite Ec in Ht.
    pose proof (lstrip_length (u ++ q)) as Hlen. rewrite Ht in Hlen.
    cbn [length] in Hlen. lia. }
  rewrite Hfix, rev_involutive. by rewrite lstrip_lstrip.
Qed.

Lemma strip_substring s : ∃ p q, s = p ++ strip s ++ q.
Proof.
  destruct (lstrip_suffix s) as [p Hp].
  destruct (rstrip_prefix (lstrip s)) as [q Hq].
  exists p, q. unfold strip. by rewrite <- Hq.
Qed.

Lemma contains_strip sub s : contains sub s = false → contains sub (strip s) = false.
Proof.
  destruct (strip_substring s) as (p & q & Hs). intros Hc.
  rewrite Hs in Hc. by eapply contains_false_app.
Qed.

(** ** The rows [extrac_game_data.py] lets through *)

Lemma alt_name_search_keeps dbc record test_fields name : ∀ n,
  ExtracGameData.alt_name_search dbc record test_fields name = Ok n →
  n = name ∨ 2 < len n.
Proof.
  induction test_fields as [|i test_fields IH]; intros n.
  { intros [= <-]. by left. }
  cbn [ExtracGameData.alt_name_search].
  intros (alt & _ & Hrest)%result_bind_Ok.
  destruct (negb (bool_decide (alt = [])) && (len alt >? 2)
            && negb (has_high_char alt)) eqn:E; [|by apply IH].
  injection Hrest as <-. right.
  rewrite !andb_true_iff in E. destruct E as [[_ Hlen] _]. lia.
Qed.

Lemma extract_spells_step_entry dbc icon_map st record st' :
  ExtracGameData.extract_spells_step dbc icon_map st record = Ok st' →
  ExtracGameData.spells st' = ExtracGameData.spells st ∨
  ∃ e, ExtracGameData.spells st'
       = <[pretty (ExtracGameData.id e) := e]> (ExtracGameData.spells st) ∧
       emitted_ok icon_map e.
Proof.
  unfold ExtracGameData.extract_spells_step.
  intros (spell_id & _ & Hstep)%result_bind_Ok.
  destruct ((spell_id =? 0) || (spell_id >? 100000));
    [injection Hstep as <-; by left|].
  apply result_bind_Ok in Hstep as (name & _ & Hstep).
  apply result_bind_Ok in Hstep as (rank & _ & Hstep). cbn beta in Hstep.
  destruct (bool_decide (name = []) || (len name <? 2)) eqn:Ename.
  { injection Hstep as <-. left. reflexivity. }
  apply orb_false_iff in Ename as [_ Hlen%Z.ltb_ge].
  apply result_bind_Ok in Hstep as ([raw non_english] & Hraw & Hstep).
  cbn beta iota in Hstep.
  assert (Hraw_len : 2 <= len raw).
  { destruct (has_high_char name).
    - apply result_bind_Ok in Hraw as (n & Halt & [= <- <-]).
      apply alt_name_search_keeps in Halt as [->|?]; lia.
    - by injection Hraw as <- <-. }
  destruct (contains (str_lit "(OLD)") raw || contains (str_lit "Test") raw
            || contains (str_lit "QA") raw) eqn:Emark;
    [injection Hstep as <-; left; reflexivity|].
  apply orb_false_iff in Emark as [[Hold Htest]%orb_false_iff Hqa].
  apply result_bind_Ok in Hstep as (icon_spellbook & _ & Hstep).
  apply result_bind_Ok in Hstep as (icon_target & _ & Hstep).
  cbn beta zeta in Hstep. injection Hstep as <-. right.
  eexists (ExtracGameData.mkSpell spell_id _ _ _ _). split; [reflexivity|].
  split; [by exists raw|]. split; [|done].
  cbn [ExtracGameData.rank]. case_bool_decide; [by left|right; by exists rank].
Qed.

Lemma extract_spells_loop_entries dbc icon_map recs : ∀ st st',
  ExtracGameData.extract_spells_loop dbc icon_map recs st = Ok st' →
  map_Forall (λ _ e, emitted_ok icon_map e) (ExtracGameData.spells st) →
  map_Forall (λ _ e, emitted_ok icon_map e) (ExtracGameData.spells st').
Proof.
  induction recs as [|record recs IH]; intros st st'; [by intros [= <-]|].
  cbn [ExtracGameData.extract_spells_loop].
  intros (st1 & Hstep & Hloop)%result_bind_Ok Hall.
  apply (IH _ _ Hloop).
  apply extract_spells_step_entry in Hstep as [->|(e & -> & He)]; [done|].
  by apply map_Forall_insert_2.
Qed.

(** X13. Every row the pass of [extrac_game_data.py] files carries a
    trimmed name that holds none of ["(OLD)"], ["Test"] and ["QA"]
    (compared as they are written), taken from a string of at least two
    characters; its rank, when it has one, is trimmed; and its icon name
    is what the icon map gives its icon id, absent when the map has no
    such id. *)
Theorem emitted_rows_pass_the_filter (dbc : ExtracGameData.DBCReader)
    (icon_map : gmap Z (list Z)) (st : ExtracGameData.pass) :
  ExtracGameData.extract_spells dbc icon_map = Ok st →
  ∀ key e, ExtracGameData.spells st !! key = Some e →
    contains (str_lit "(OLD)") (ExtracGameData.name e) = false ∧
    contains (str_lit "Test") (ExtracGameData.name e) = false ∧
    contains (str_lit "QA") (ExtracGameData.name e) = false ∧
    strip (ExtracGameData.name e) = ExtracGameData.name e ∧
    (∀ rank, ExtracGameData.rank e = Some rank → strip rank = rank) ∧
    ExtracGameData.icon_name e = icon_map !! ExtracGameData.icon_id e ∧
    emitted_ok icon_map e.
Proof.
  intros Hrun key e Hkey.
  apply extract_spells_loop_entries in Hrun; [|apply map_Forall_empty].
  pose proof (Hrun key e Hkey) as He. cbn beta in He.
  destruct He as ((raw & Hname & Hlen & Hold & Htest & Hqa) & Hrank & Hicon).
  rewrite Hname. repeat (split; [by apply contains_strip|]).
  split; [apply strip_strip|]. split.
  - intros rank Hr. destruct Hrank as [Hnone|(raw' & _ & Hsome)]; [congruence|].
    assert (rank = strip raw') as -> by congruence. apply strip_strip.
  - split; [done|]. split; [by exists raw|done].
Qed.

Lemma emitted_rows_witness :
  let e := ExtracGameData.mkSpell 7 (str_lit "Fireball") None 0 None in
  contains (str_lit "(OLD)") (ExtracGameData.name e) = false ∧
  contains (str_lit "Test") (ExtracGameData.name e) = false ∧
  contains (str_lit "QA") (ExtracGameData.name e) = false ∧
  strip (ExtracGameData.name e) = ExtracGameData.name e ∧
  (∀ rank, ExtracGameData.rank e = Some rank → strip rank = rank) ∧
  ExtracGameData.icon_name e = (∅ : gmap Z (list Z)) !! ExtracGameData.icon_id e ∧
  emitted_ok ∅ e.
Proof.
  intros e.
  refine (emitted_rows_pass_the_filter
           (ExtracGameData.mkDBCReader "Spell.dbc"
              [named_record 0 3; named_record 5 1; named_record 7 3]
              names_heap 121 484 3) ∅
           (ExtracGameData.mkPass
              {[ "7"%string :=
                   ExtracGameData.mkSpell 7 (str_lit "Fireball") None 0 None ]}
              1 0) _ "7"%string e _); vm_compute; reflexivity.
Defined.

(** ** Descriptions the templating leaves alone *)

Lemma re_sub_literal_no_token `{PyLib} w rest repl s :
  is_word w = true → has_placeholder s = false →
  re_sub_literal (dollar :: w :: rest) repl s 0 = s.
Proof.
  intros Hw. induction s as [|c s IH]; [done|].
  cbn [has_placeholder]. intros [Hhead Htail]%orb_false_iff.
  cbn [re_sub_literal].
  destruct (is_prefix (dollar :: w :: rest) (c :: s)) eqn:E.
  - exfalso. apply is_prefix_spec in E as [t [= -> ->]].
    cbn in Hhead. by rewrite Hw in Hhead.
  - by rewrite IH.
Qed.

Lemma re_sub_token_no_token `{PyLib} repl s :
  has_placeholder s = false → re_sub_token repl s false = s.
Proof.
  induction s as [|c s IH]; [done|].
  cbn [has_placeholder]. intros [Hhead Htail]%orb_false_iff.
  cbn [re_sub_token andb]. rewrite Hhead. by rewrite IH.
Qed.

Lemma parse_description_no_token `{PyLib} desc duration_ms :
  has_placeholder desc = false →
  ExtractSpells.parse_description desc duration_ms = strip desc.
Proof.
  intros Hno. unfold ExtractSpells.parse_description.
  case_bool_decide as Hempty; [by subst|]. cbv zeta.
  assert (Hlit : ∀ w rest repl,
            is_ascii_word w = true → (w <? 128) = true →
            re_sub_literal (dollar :: w :: rest) repl desc 0 = desc).
  { intros w rest repl Hw Hlt. apply re_sub_literal_no_token; [|done].
    unfold is_word. by rewrite Hlt. }
  change (str_lit "$s1") with (dollar :: 115 :: str_lit "1").
  change (str_lit "$s2") with (dollar :: 115 :: str_lit "2").
  change (str_lit "$s3") with (dollar :: 115 :: str_lit "3").
  change (str_lit "$o1") with (dollar :: 111 :: str_lit "1").
  change (str_lit "$o2") with (dollar :: 111 :: str_lit "2").
  change (str_lit "$o3") with (dollar :: 111 :: str_lit "3").
  change (str_lit "$d") with (dollar :: 100 :: []).
  rewrite !Hlit by done.
  destruct (duration_ms >? 0); by rewrite re_sub_token_no_token.
Qed.

Lemma parse_description_complete `{PyLib} desc duration_ms :
  has_double_dollar desc = false →
  has_placeholder (ExtractSpells.parse_description desc duration_ms) = false.
Proof.
  intros Hdd. unfold ExtractSpells.parse_description.
  case_bool_decide; [done|]. cbv zeta.
  apply strip_complete, re_sub_token_complete.
  { apply plain_literal; done. }
  assert (Hstep : ∀ pat repl s,
            plain_text repl → has_double_dollar s = false →
            has_double_dollar (re_sub_literal pat repl s 0) = false).
  { intros pat repl s Hrepl Hs.
    destruct (has_double_dollar (re_sub_literal pat repl s 0)) eqn:E; [|done].
    apply (re_sub_literal_double_dollar _ _ _ Hrepl) in E. congruence. }
  destruct (duration_ms >? 0);
    repeat (apply Hstep;
            [first [apply duration_text_plain | apply plain_literal; done]|]);
    exact Hdd.
Qed.

Lemma parse_description_trimmed `{PyLib} desc duration_ms :
  strip (ExtractSpells.parse_description desc duration_ms)
  = ExtractSpells.parse_description desc duration_ms.
Proof.
  unfold ExtractSpells.parse_description.
  case_bool_decide; [done|]. cbv zeta. apply strip_strip.
Qed.

(** X14. A description in which no [$] is followed by a word character
    is only trimmed by [parse_description]; and, two [$] never standing
    side by side, templating what has been templated changes nothing,
    whatever the two durations. *)
Theorem template_fixed_points `{PyLib} (desc : list Z) (duration_ms : Z) :
  (has_placeholder desc = false →
     ExtractSpells.parse_description desc duration_ms = strip desc) ∧
  (has_double_dollar desc = false →
     ∀ duration_ms',
       ExtractSpells.parse_description
         (ExtractSpells.parse_description desc duration_ms) duration_ms'
       = ExtractSpells.parse_description desc duration_ms).
Proof.
  split; [apply parse_description_no_token|].
  intros Hdd duration_ms'.
  rewrite parse_description_no_token by (by apply parse_description_complete).
  apply parse_description_trimmed.
Qed.

Lemma template_fixed_points_witness :
  @ExtractSpells.parse_description ascii_lib (str_lit " Costs $ 5. ") 0
    = strip (str_lit " Costs $ 5. ") ∧
  @ExtractSpells.parse_description ascii_lib
    (@ExtractSpells.parse_description ascii_lib (str_lit " Deals $s1 over $d. ") 1500) 0
    = @ExtractSpells.parse_description ascii_lib (str_lit " Deals $s1 over $d. ") 1500.
Proof.
  split.
  - exact (proj1 (@template_fixed_points ascii_lib (str_lit " Costs $ 5. ") 0)
             ltac:(vm_compute; reflexivity)).
  - exact (proj2 (@template_fixed_points ascii_lib
                    (str_lit " Deals $s1 over $d. ") 1500)
             ltac:(vm_compute; reflexivity) 0).
Defined.

(** ** When the strict reader accepts a table *)

Lemma accepted_step n field_count record_size avail :
  0 <= n → 0 <= field_count → 0 <= record_size → 0 <= avail →
  accepted (n + 1) field_count record_size avail ↔
  Z.min record_size avail = 4 * field_count ∧
  accepted n field_count record_size (Z.max 0 (avail - record_size)).
Proof.
  intros Hn Hfc Hrs Hav. unfold accepted.
  assert (Hmul : (n + 1) * record_size = n * record_size + record_size) by lia.
  rewrite Hmul. set (p := n * record_size).
  assert (0 <= p) by (subst p; lia).
  assert (n = 0 → p = 0) by (intros ->; subst p; lia).
  clearbody p. lia.
Qed.

Lemma es_read_records_accepts n : ∀ field_count record_size acc f,
  0 <= field_count → 0 <= record_size →
  (accepted (Z.of_nat n) field_count record_size (len f) →
     is_Ok (ExtractSpells.read_records n field_count record_size acc f) = true) ∧
  (¬ accepted (Z.of_nat n) field_count record_size (len f) →
     ExtractSpells.read_records n field_count record_size acc f
     = Raise struct_error).
Proof.
  induction n as [|n IH]; intros fc rs acc f Hfc Hrs.
  { split; [done|]. intros Hno. exfalso. apply Hno. by left. }
  rewrite Nat2Z.inj_succ, <- Z.add_1_r.
  rewrite accepted_step by (try apply len_nonneg; lia).
  cbn [ExtractSpells.read_records]. unfold mbind at 1 3, stE_bind at 1 3, f_read.
  destruct (Z.ltb_spec rs 0); [lia|].
  unfold mbind at 1 2, stE_bind at 1 2, lift, unpack_words.
  assert (Htake : len (take (Z.to_nat rs) f) = Z.min rs (len f)).
  { unfold len. rewrite length_take. lia. }
  assert (Hdrop : len (drop (Z.to_nat rs) f) = Z.max 0 (len f - rs)).
  { unfold len. rewrite length_drop. lia. }
  rewrite Htake.
  destruct (Z.eqb_spec (Z.min rs (len f)) (4 * fc)) as [Heq|Hne].
  - destruct (IH fc rs (acc ++ [words (Z.to_nat fc) (take (Z.to_nat rs) f)])
                (drop (Z.to_nat rs) f) Hfc Hrs) as [IH1 IH2].
    rewrite Hdrop in IH1, IH2. split.
    + intros [_ Hacc]. by apply IH1.
    + intros Hno. apply IH2. intros Hacc. by apply Hno.
  - split; [by intros [? _]|done].
Qed.

(** X15. When the reader of [extract_spells.py] reads a table to the
    end. For a file that has its 20 bytes of header and the tag, the
    records are read, as many as declared, exactly in the cases of
    [accepted]: among them the table whose record size exceeds four times
    the field count, when the file stops after the fields of its only
    record. In every other case the reader raises [struct.error]. *)
Theorem strict_reader_acceptance (path : string) (contents : list byte) :
  20 <= len contents → slice contents 0 4 = WDBC →
  let h := header_of contents in
  (accepted (h_record_count h) (h_field_count h) (h_record_size h)
            (len contents - 20) →
   ∃ r, ExtractSpells.new path contents = Ok r ∧
     len (ExtractSpells.records r) = h_record_count h ∧
     ExtractSpells.field_count r = h_field_count h) ∧
  (¬ accepted (h_record_count h) (h_field_count h) (h_record_size h)
              (len contents - 20) →
   ExtractSpells.new path contents = Raise struct_error).
Proof.
  intros Hlen Hmagic h. rewrite es_new_unfold.
  destruct (Z.ltb_spec (len contents) 20); [lia|]. cbv zeta. fold h.
  change (h_magic h) with (slice contents 0 4). rewrite Hmagic.
  rewrite bool_decide_eq_false_2 by (intros ?; done).
  pose proof (le_uint_nonneg (slice contents 4 8)) as Hrc.
  pose proof (le_uint_nonneg (slice contents 8 12)) as Hfc.
  pose proof (le_uint_nonneg (slice contents 12 16)) as Hrs.
  destruct (es_read_records_accepts (Z.to_nat (h_record_count h))
              (h_field_count h) (h_record_size h) [] (drop 20 contents) Hfc Hrs)
    as [Hyes Hno].
  assert (Hrest : len (drop 20 contents) = len contents - 20).
  { unfold len in *. rewrite length_drop. lia. }
  rewrite Hrest, Z2Nat.id in Hyes, Hno by exact Hrc. split.
  - intros Hacc. specialize (Hyes Hacc).
    destruct (ExtractSpells.read_records _ _ _ _ _) as [[recs f']|e] eqn:E;
      [|done].
    eexists. split; [done|]. cbn [ExtractSpells.records ExtractSpells.field_count].
    split; [|done].
    apply es_read_records_shape in E as (new & -> & Hn & _).
    unfold len. cbn [app]. rewrite Hn. by apply Z2Nat.id.
  - intros Hacc. by rewrite (Hno Hacc).
Qed.

Lemma strict_reader_acceptance_witness :
  (∃ r, ExtractSpells.new "Spell.dbc" (header_bytes 1 2 100 0 ++ le32 5 ++ le32 6)
        = Ok r ∧
     len (ExtractSpells.records r) = 1 ∧ ExtractSpells.field_count r = 2) ∧
  ExtractSpells.new "Spell.dbc" (header_bytes 1 2 12 0 ++ le32 5 ++ le32 6 ++ le32 7)
    = Raise struct_error.
Proof.
  split.
  - apply (strict_reader_acceptance "Spell.dbc"
             (header_bytes 1 2 100 0 ++ le32 5 ++ le32 6));
      [vm_compute; discriminate|reflexivity|].
    right. right. vm_compute. split; [reflexivity|]. split; [reflexivity|].
    by left.
  - apply (strict_reader_acceptance "Spell.dbc"
             (header_bytes 1 2 12 0 ++ le32 5 ++ le32 6 ++ le32 7));
      [vm_compute; discriminate|reflexivity|].
    vm_compute. intros [H|[[H _]|[_ [H _]]]]; discriminate.
Defined.


(** ** Header validation *)

(** C5 (amended). A reader fails with the format error ([ValueError])
    exactly when the file has its 20 header bytes and the 4-byte tag is
    not [WDBC]; a shorter file fails in [struct.unpack]. The declared
    sizes are not compared with the length of the file. With the 20 bytes
    and the tag, the record count, field count, record size and heap size
    are the little-endian words at bytes 4, 8, 12 and 16, and the heap is
    what the file has from byte [20 + record_count * record_size] on, at
    most the heap size. The reader of [extract_spells_smart.py] (and that
    of [extrac_game_data.py]) always returns: the path, the declared
    records or the whole ones the file has when they are fewer, that
    heap, the field count and the record size. The reader of
    [extract_spells.py] returns in the cases of [accepted], with the
    path, as many records as declared, that heap, the field count and an
    empty cache, and raises [struct.error] in every other case. *)
Theorem header_validation (path : string) (contents : list byte) :
  (len contents < 20 →
     ExtractSpells.new path contents = Raise struct_error ∧
     ExtractSpellsSmart.new path contents = Raise struct_error ∧
     ExtracGameData.new path contents = Raise struct_error) ∧
  ((∃ msg, ExtractSpells.new path contents = Raise (ValueError msg)) ↔
     20 <= len contents ∧ slice contents 0 4 ≠ WDBC) ∧
  ((∃ msg, ExtractSpellsSmart.new path contents = Raise (ValueError msg)) ↔
     20 <= len contents ∧ slice contents 0 4 ≠ WDBC) ∧
  ((∃ msg, ExtracGameData.new path contents = Raise (ValueError msg)) ↔
     20 <= len contents ∧ slice contents 0 4 ≠ WDBC) ∧
  (20 <= len contents → slice contents 0 4 = WDBC →
     let record_count := le_uint (slice contents 4 8) in
     let field_count := le_uint (slice contents 8 12) in
     let record_size := le_uint (slice contents 12 16) in
     let heap_size := le_uint (slice contents 16 20) in
     let heap_start := 20 + record_count * record_size in
     let heap := slice contents heap_start (heap_start + heap_size) in
     (∃ recs,
        ExtractSpellsSmart.new path contents
          = Ok (ExtractSpellsSmart.mkDBCReader path recs heap field_count
                  record_size) ∧
        ExtracGameData.new path contents
          = Ok (ExtracGameData.mkDBCReader path recs heap field_count
                  record_size record_count) ∧
        len recs = complete_records record_count record_size
                     (len contents - 20)) ∧
     (accepted record_count field_count record_size (len contents - 20) →
        ∃ recs,
          ExtractSpells.new path contents
            = Ok (ExtractSpells.mkDBCReader path recs heap field_count ∅) ∧
          len recs = record_count) ∧
     (¬ accepted record_count field_count record_size (len contents - 20) →
        ExtractSpells.new path contents = Raise struct_error)).
Proof.
  rewrite es_new_unfold, smart_new_unfold, egd_new_unfold. cbv zeta.
  change (h_magic (header_of contents)) with (slice contents 0 4).
  cbn [header_of h_record_count h_field_count h_record_size h_string_block_size].
  pose proof (le_uint_nonneg (slice contents 4 8)) as Hrc.
  pose proof (le_uint_nonneg (slice contents 8 12)) as Hfc.
  pose proof (le_uint_nonneg (slice contents 12 16)) as Hrs.
  pose proof (le_uint_nonneg (slice contents 16 20)) as Hhs.
  set (record_count := le_uint (slice contents 4 8)) in *.
  set (field_count := le_uint (slice contents 8 12)) in *.
  set (record_size := le_uint (slice contents 12 16)) in *.
  set (heap_size := le_uint (slice contents 16 20)) in *.
  destruct (read_records_exact (Z.to_nat record_count) field_count record_size
              [] (drop 20 contents) Hfc Hrs) as (stored & Hrecs & Hcount & _).
  rewrite Hrecs.
  destruct (Z.ltb_spec (len contents) 20) as [Hshort|Hlong].
  { split; [done|].
    assert (Hno : ∀ P : Type,
      (∃ msg, @Raise P struct_error = Raise (ValueError msg)) ↔
        20 <= len contents ∧ slice contents 0 4 ≠ WDBC).
    { intros P. split; [by intros [msg [=]]|]. intros [? _]. exfalso. lia. }
    repeat (split; [apply Hno|]). intros. exfalso. lia. }
  split; [intros; exfalso; lia|].
  case_bool_decide as Htag.
  { assert (Hyes : ∀ P : Type, ∀ m,
      (∃ msg, @Raise P (ValueError m) = Raise (ValueError msg)) ↔
        20 <= len contents ∧ slice contents 0 4 ≠ WDBC) by (intros; split; eauto).
    repeat (split; [apply Hyes|]). intros. done. }
  assert (Hrest : len (drop 20 contents) = len contents - 20).
  { unfold len in *. rewrite length_drop. lia. }
  assert (Hpos : 0 <= record_count * record_size) by nia.
  assert (Hheap : ∀ f',
    f' = drop (Z.to_nat (Z.of_nat (Z.to_nat record_count) * record_size))
              (drop 20 contents) →
    take (Z.to_nat heap_size) f'
    = slice contents (20 + record_count * record_size)
                     (20 + record_count * record_size + heap_size)).
  { intros f' ->. rewrite slice_read, drop_drop by lia. do 2 f_equal. lia. }
  destruct (es_read_records_accepts (Z.to_nat record_count) field_count
              record_size [] (drop 20 contents) Hfc Hrs) as [Hyes Hno].
  rewrite Hrest, Z2Nat.id in Hyes, Hno by exact Hrc.
  split; [|split; [|split]].
  - split; [|by intros [_ ?]]. intros [msg Hraise].
    destruct (ExtractSpells.read_records _ _ _ _ _) as [[? ?]|e] eqn:E; [done|].
    apply es_read_records_error in E. by subst e.
  - split; [by intros [msg [=]]|by intros [_ ?]].
  - split; [by intros [msg [=]]|by intros [_ ?]].
  - intros _ _. cbv zeta. split; [|split].
    + exists stored. rewrite (Hheap _ eq_refl). cbn [app]. split; [done|].
      split; [done|]. by rewrite Hcount, Hrest, Z2Nat.id.
    + intros Hacc. specialize (Hyes Hacc).
      destruct (ExtractSpells.read_records _ _ _ _ _) as [[recs f']|e] eqn:E;
        [|done].
      pose proof (es_read_records_rest _ _ _ _ _ _ _ Hrs E) as Hf'.
      rewrite (Hheap _ Hf').
      apply es_read_records_shape in E as (new & -> & Hn & _).
      eexists. split; [done|]. unfold len. cbn [app]. rewrite Hn. lia.
    + intros Hacc. by rewrite (Hno Hacc).
Qed.

Lemma header_validation_witness :
  let truncated := header_bytes 2 3 8 2 ++ le32 5 ++ le32 7 ++ le32 9 in
  let whole := header_bytes 1 2 8 3 ++ le32 5 ++ le32 6 ++ [x41; x00; x42; x43] in
  ((∃ recs,
      ExtractSpellsSmart.new "Spell.dbc" truncated
        = Ok (ExtractSpellsSmart.mkDBCReader "Spell.dbc" recs [] 3 8) ∧
      ExtracGameData.new "Spell.dbc" truncated
        = Ok (ExtracGameData.mkDBCReader "Spell.dbc" recs [] 3 8 2) ∧
      len recs = 1) ∧
   ExtractSpells.new "Spell.dbc" truncated = Raise struct_error) ∧
  ((∃ recs,
      ExtractSpellsSmart.new "Spell.dbc" whole
        = Ok (ExtractSpellsSmart.mkDBCReader "Spell.dbc" recs [x41; x00; x42] 2 8) ∧
      ExtracGameData.new "Spell.dbc" whole
        = Ok (ExtracGameData.mkDBCReader "Spell.dbc" recs [x41; x00; x42] 2 8 1) ∧
      len recs = 1) ∧
   ∃ recs,
     ExtractSpells.new "Spell.dbc" whole
       = Ok (ExtractSpells.mkDBCReader "Spell.dbc" recs [x41; x00; x42] 2 ∅) ∧
     len recs = 1).
Proof.
  intros truncated whole. split.
  - destruct (proj2 (proj2 (proj2 (proj2
                (header_validation "Spell.dbc" truncated)))))
      as ((recs & H1 & H2 & Hlen) & _ & Hno);
      [vm_compute; discriminate|vm_compute; reflexivity|].
    split.
    + exists recs. split; [|split].
      * rewrite H1. vm_compute. reflexivity.
      * rewrite H2. vm_compute. reflexivity.
      * rewrite Hlen. vm_compute. reflexivity.
    + apply Hno. vm_compute. intros [H|[[H _]|[H _]]]; discriminate.
  - destruct (proj2 (proj2 (proj2 (proj2
                (header_validation "Spell.dbc" whole)))))
      as ((recs & H1 & H2 & Hlen) & Hyes & _);
      [vm_compute; discriminate|vm_compute; reflexivity|].
    split.
    + exists recs. split; [|split].
      * rewrite H1. vm_compute. reflexivity.
      * rewrite H2. vm_compute. reflexivity.
      * rewrite Hlen. vm_compute. reflexivity.
    + destruct Hyes as (recs' & H3 & Hlen').
      { right. left. vm_compute. split; [reflexivity|discriminate]. }
      exists recs'. split.
      * rewrite H3. vm_compute. reflexivity.
      * rewrite Hlen'. vm_compute. reflexivity.
Defined.

(** The header declares six heap bytes and the file ends after the
    header: both readers load it without an error. *)
Lemma header_sizes_unchecked :
  len (header_bytes 0 0 0 6) < 20 + 0 * 0 + 6 ∧
  ExtractSpells.new "Spell.dbc" (header_bytes 0 0 0 6)
    = Ok (ExtractSpells.mkDBCReader "Spell.dbc" [] [] 0 ∅) ∧
  ExtractSpellsSmart.new "Spell.dbc" (header_bytes 0 0 0 6)
    = Ok (ExtractSpellsSmart.mkDBCReader "Spell.dbc" [] [] 0 0).
Proof. split; [reflexivity|]. split; reflexivity. Qed.
(** ** The three readers on a table of full-width records *)

Lemma words_fields n : ∀ j data,
  0 <= j → 4 * (j + Z.of_nat n) <= len data →
  words n (drop (Z.to_nat (4 * j)) data) = field_value data <$> seqZ j (Z.of_nat n).
Proof.
  induction n as [|n IH]; intros j data Hj Hlen; [done|].
  rewrite Nat2Z.inj_succ, seqZ_cons by lia. cbn [words fmap list_fmap].
  rewrite Z.pred_succ. f_equal.
  - unfold field_value. destruct (Z.leb_spec (j * 4 + 4) (len data)); [|lia].
    f_equal. rewrite slice_in_range by lia.
    replace (Z.to_nat (j * 4 + 4 - j * 4)) with 4%nat by lia.
    by replace (j * 4) with (4 * j) by lia.
  - rewrite drop_drop.
    replace (Z.to_nat (4 * j) + 4)%nat with (Z.to_nat (4 * Z.succ j)) by lia.
    apply IH; lia.
Qed.

Lemma strict_tolerant_records n : ∀ field_count acc f recs f',
  0 <= field_count →
  ExtractSpells.read_records n field_count (4 * field_count) acc f = Ok (recs, f') →
  ExtractSpellsSmart.read_records n field_count (4 * field_count) acc f
  = Ok (recs, f').
Proof.
  induction n as [|n IH]; intros fc acc f recs f' Hfc; [done|].
  cbn [ExtractSpells.read_records ExtractSpellsSmart.read_records].
  intros (data & f1 & Hread & Hes)%bind_Ok.
  apply bind_Ok in Hes as (record & f2 & Hunpack & Hes).
  unfold lift, unpack_words in Hunpack.
  destruct (Z.eqb_spec (len data) (4 * fc)) as [Hlen|]; [|done].
  injection Hunpack as <- <-.
  unfold mbind at 1, stE_bind at 1. rewrite Hread.
  rewrite bool_decide_eq_false_2 by (intros ?; done).
  destruct (read_fields_spec (Z.to_nat fc) 0 data []) as (record & Hrec & ->); [lia|].
  unfold mbind at 1, stE_bind at 1, lift. rewrite Hrec. cbn [app].
  rewrite <- (words_fields (Z.to_nat fc) 0 data) by lia.
  change (drop (Z.to_nat (4 * 0)) data) with data. by apply IH.
Qed.

(** X16. The three readers agree on a table of full-width records: a
    file the reader of [extract_spells.py] accepts, whose header declares
    a record size of four times the field count, is accepted by the
    readers of [extract_spells_smart.py] and [extrac_game_data.py] with
    the same records and the same heap; and at every offset that is not
    negative the three [get_string] return the same string, whatever the
    cache of the first holds by then. *)
Theorem readers_agree (path : string) (contents : list byte)
    (r r' : ExtractSpells.DBCReader) :
  ExtractSpells.new path contents = Ok r →
  h_record_size (header_of contents) = 4 * h_field_count (header_of contents) →
  reachable r r' →
  let sm := ExtractSpellsSmart.mkDBCReader path (ExtractSpells.records r)
              (ExtractSpells.string_block r) (ExtractSpells.field_count r)
              (4 * ExtractSpells.field_count r) in
  let eg := ExtracGameData.mkDBCReader path (ExtractSpells.records r)
              (ExtractSpells.string_block r) (ExtractSpells.field_count r)
              (4 * ExtractSpells.field_count r) (len (ExtractSpells.records r)) in
  ExtractSpellsSmart.new path contents = Ok sm ∧
  ExtracGameData.new path contents = Ok eg ∧
  ∀ offset, 0 <= offset →
    ExtractSpellsSmart.get_string sm offset = (ExtractSpells.get_string r' offset).1 ∧
    ExtracGameData.get_string eg offset = (ExtractSpells.get_string r' offset).1.
Proof.
  intros Hnew Hrs Hreach sm eg.
  assert (Hstr : ∀ offset, (ExtractSpells.get_string r' offset).1
                           = resolve (ExtractSpells.string_block r) offset).
  { intros offset. by eapply get_string_reachable. }
  assert (Hget : ∀ offset, 0 <= offset →
            ExtractSpellsSmart.get_string sm offset
              = (ExtractSpells.get_string r' offset).1 ∧
            ExtracGameData.get_string eg offset
              = (ExtractSpells.get_string r' offset).1).
  { intros offset Hoff. rewrite Hstr.
    by rewrite smart_get_string_resolve, egd_get_string_resolve. }
  revert Hnew. subst sm eg.
  rewrite es_new_unfold, smart_new_unfold, egd_new_unfold.
  destruct (len contents <? 20); [done|]. cbv zeta.
  case_bool_decide; [done|]. rewrite Hrs.
  pose proof (le_uint_nonneg (slice contents 4 8)) as Hrc.
  assert (Hfc : 0 <= h_field_count (header_of contents))
    by apply le_uint_nonneg.
  destruct (ExtractSpells.read_records _ _ _ _ _) as [[recs f']|e] eqn:E;
    [|done].
  intros [= <-]. rewrite (strict_tolerant_records _ _ _ _ _ _ Hfc E).
  cbn [ExtractSpells.records ExtractSpells.string_block ExtractSpells.field_count].
  apply es_read_records_shape in E as (new & -> & Hn & _). cbn [app].
  replace (len new) with (h_record_count (header_of contents)); [done|].
  unfold len. rewrite Hn. symmetry. by apply Z2Nat.id.
Qed.

Lemma readers_agree_witness :
  ExtractSpellsSmart.new "Spell.dbc" scenario_table
    = Ok (ExtractSpellsSmart.mkDBCReader "Spell.dbc" [[5; 0; 0]; [6; 4; 0]]
            [x41; x42; x00; x43; x44; x00] 3 12) ∧
  ExtracGameData.new "Spell.dbc" scenario_table
    = Ok (ExtracGameData.mkDBCReader "Spell.dbc" [[5; 0; 0]; [6; 4; 0]]
            [x41; x42; x00; x43; x44; x00] 3 12 2).
Proof.
  destruct (readers_agree "Spell.dbc" scenario_table
              (ExtractSpells.mkDBCReader "Spell.dbc" [[5; 0; 0]; [6; 4; 0]]
                 [x41; x42; x00; x43; x44; x00] 3 ∅)
              (ExtractSpells.mkDBCReader "Spell.dbc" [[5; 0; 0]; [6; 4; 0]]
                 [x41; x42; x00; x43; x44; x00] 3 ∅))
    as (H1 & H2 & _); [reflexivity|reflexivity|apply reach_here|].
  exact (conj H1 H2).
Defined.

(** ** Round trip at the tolerant readers *)

Lemma tolerant_read_records_full full : ∀ field_count record_size acc rest,
  0 <= field_count → 0 <= record_size →
  Forall (λ d, len d = record_size) full →
  ExtractSpellsSmart.read_records (length full) field_count record_size acc
    (concat full ++ rest)
  = Ok (acc ++ ((λ d, field_value d <$> seqZ 0 field_count) <$> full), rest).
Proof.
  induction full as [|d full IH]; intros fc rs acc rest Hfc Hrs Hfull.
  { cbn. by rewrite app_nil_r. }
  apply Forall_cons in Hfull as [Hd Hfull].
  cbn [length ExtractSpellsSmart.read_records concat]. rewrite <- (assoc_L (++)).
  unfold mbind at 1, stE_bind at 1. rewrite <- Hd at 1. rewrite f_read_app.
  rewrite bool_decide_eq_false_2 by (intros ?; done).
  destruct (read_fields_spec (Z.to_nat fc) 0 d []) as (record & Hrec & ->); [lia|].
  unfold mbind at 1, stE_bind at 1, lift. rewrite Hrec.
  rewrite IH by done.
  rewrite fmap_cons, <- (assoc_L (++)). simpl. by rewrite Z2Nat.id by lia.
Qed.

Lemma padded_fields row pad :
  Forall word32 row →
  field_value ((row ≫= le32) ++ pad) <$> seqZ 0 (len row) = row.
Proof.
  intros Hrow. unfold len.
  rewrite <- (words_fields (length row) 0).
  - change (drop (Z.to_nat (4 * 0)) ((row ≫= le32) ++ pad))
      with ((row ≫= le32) ++ pad). by apply words_encoded.
  - lia.
  - rewrite len_app, len_encoded. pose proof (len_nonneg pad).
    unfold len in *. lia.
Qed.

(** X17. Round trip at the readers of [extract_spells_smart.py] and
    [extrac_game_data.py], padding included: a buffer made of a valid
    header, records of [field_count] little-endian 32-bit words each
    followed by padding up to the declared record size, and a heap, is
    read without error as exactly the words written, the padding being
    ignored; and [get_string] returns at the offset where a
    null-terminated string was written exactly that string. *)
Theorem tolerant_round_trip (path : string) (rows : list (list Z))
    (pads : list (list byte)) (field_count record_size : Z) (heap : list byte) :
  word32 (len rows) → word32 field_count → word32 record_size →
  word32 (len heap) →
  Forall2 (λ row pad, len row = field_count ∧ Forall word32 row ∧
                      4 * field_count + len pad = record_size) rows pads →
  let contents :=
    header_bytes (len rows) field_count record_size (len heap)
      ++ concat (zip_with (λ row pad, (row ≫= le32) ++ pad) rows pads) ++ heap in
  let sm := ExtractSpellsSmart.mkDBCReader path rows heap field_count record_size in
  let eg := ExtracGameData.mkDBCReader path rows heap field_count record_size
              (len rows) in
  ExtractSpellsSmart.new path contents = Ok sm ∧
  ExtracGameData.new path contents = Ok eg ∧
  ∀ pre s post,
    heap = pre ++ utf8_encode s ++ [x00] ++ post → Forall heap_char s →
    ExtractSpellsSmart.get_string sm (len pre) = s ∧
    ExtracGameData.get_string eg (len pre) = s.
Proof.
  intros Hrc Hfc Hrs Hhs Hrows.
  set (full := zip_with (λ row pad, (row ≫= le32) ++ pad) rows pads).
  intros contents sm eg.
  assert (Hfull : Forall (λ d, len d = record_size) full ∧ length full = length rows ∧
            (λ d, field_value d <$> seqZ 0 field_count) <$> full = rows).
  { subst full. clear -Hrows. induction Hrows as [|row pad rows pads (Hlen & Hw & Hpad) _ IH].
    { done. }
    destruct IH as (IH1 & IH2 & IH3). cbn beta in *.
    cbn [zip_with fmap list_fmap length].
    split; [|split].
    - constructor; [|done]. rewrite len_app, len_encoded, Hlen. exact Hpad.
    - by rewrite IH2.
    - rewrite IH3. f_equal. rewrite <- Hlen. by apply padded_fields. }
  destruct Hfull as (Hsize & Hcount & Hvalues).
  assert (Hlen : (len contents <? 20) = false).
  { apply Z.ltb_ge. unfold contents. rewrite len_app.
    pose proof (len_nonneg (concat full ++ heap)).
    change (len (header_bytes (len rows) field_count record_size (len heap)))
      with 20. lia. }
  assert (Hh : header_of contents
               = Header WDBC (len rows) field_count record_size (len heap))
    by (by apply header_of_bytes).
  assert (Hd : drop 20 contents = concat full ++ heap)
    by (apply (drop_app_length
                 (header_bytes (len rows) field_count record_size (len heap)))).
  split; [|split].
  - rewrite smart_new_unfold, Hlen. cbv zeta. rewrite Hh, Hd.
    cbn [h_magic h_record_count h_field_count h_record_size h_string_block_size].
    rewrite bool_decide_eq_false_2 by (intros ?; done).
    unfold len at 1. rewrite Nat2Z.id, <- Hcount.
    rewrite tolerant_read_records_full; [|by destruct Hfc|by destruct Hrs|done].
    cbn [app]. rewrite Hvalues. unfold len. rewrite Nat2Z.id, take_ge by done.
    done.
  - rewrite egd_new_unfold, Hlen. cbv zeta. rewrite Hh, Hd.
    cbn [h_magic h_record_count h_field_count h_record_size h_string_block_size].
    rewrite bool_decide_eq_false_2 by (intros ?; done).
    unfold len at 1. rewrite Nat2Z.id, <- Hcount.
    rewrite tolerant_read_records_full; [|by destruct Hfc|by destruct Hrs|done].
    cbn [app]. rewrite Hvalues. unfold len at 1. rewrite Nat2Z.id, take_ge by done.
    done.
  - intros pre s post Hheap Hs. pose proof (len_nonneg pre).
    rewrite smart_get_string_resolve, egd_get_string_resolve by done.
    unfold sm, eg.
    cbn [ExtractSpellsSmart.string_block ExtracGameData.string_block].
    rewrite Hheap. split; by apply resolve_written.
Qed.

Lemma tolerant_round_trip_witness :
  ExtractSpellsSmart.new "Spell.dbc"
    (header_bytes 2 1 6 3 ++ concat [le32 5 ++ [x07; x07]; le32 6 ++ [x09; x09]]
       ++ [x41; x42; x00])
  = Ok (ExtractSpellsSmart.mkDBCReader "Spell.dbc" [[5]; [6]] [x41; x42; x00] 1 6) ∧
  ExtractSpellsSmart.get_string
    (ExtractSpellsSmart.mkDBCReader "Spell.dbc" [[5]; [6]] [x41; x42; x00] 1 6) 0
  = str_lit "AB".
Proof.
  destruct (tolerant_round_trip "Spell.dbc" [[5]; [6]] [[x07; x07]; [x09; x09]]
              1 6 [x41; x42; x00]) as (H1 & _ & H3).
  - vm_compute. split; [discriminate|reflexivity].
  - vm_compute. split; [discriminate|reflexivity].
  - vm_compute. split; [discriminate|reflexivity].
  - vm_compute. split; [discriminate|reflexivity].
  - repeat constructor; vm_compute; try reflexivity; discriminate.
  - split; [exact H1|].
    assert (Hchars : Forall heap_char (str_lit "AB")).
    { change (str_lit "AB") with [65; 66].
      repeat (apply Forall_cons; split;
              [split; [reflexivity|split; [reflexivity|intros [Hle _]; by apply Hle]]|]).
      by apply Forall_nil. }
    exact (proj1 (H3 [] (str_lit "AB") [] eq_refl Hchars)).
Defined.

(** ** [main] of [extract_spells.py] on tables that are wide enough *)

Section wide_tables.
Context `{PyLib}.
Import ExtractSpells.

Lemma SPELL_FIELDS_lookup LOC_INDICES key v :
  (key, v) ∈ [
    ("Id", 0); ("School", 1); ("CastingTimeIndex", 18); ("RecoveryTime", 19);
    ("BaseLevel", 28); ("SpellLevel", 29); ("MaxLevel", 27);
    ("DurationIndex", 30); ("PowerType", 31); ("ManaCost", 32);
    ("RangeIndex", 36); ("SpellIconID", 117);
    ("Name_enUS", name_column LOC_INDICES);
    ("NameSubtext_enUS", subtext_column LOC_INDICES);
    ("Description_enUS", description_column LOC_INDICES);
    ("Reagent_1", 42); ("Reagent_2", 43); ("Reagent_3", 44); ("Reagent_4", 45);
    ("Reagent_5", 46); ("Reagent_6", 47); ("Reagent_7", 48); ("Reagent_8", 49);
    ("ReagentCount_1", 50); ("ReagentCount_2", 51); ("ReagentCount_3", 52);
    ("ReagentCount_4", 53); ("ReagentCount_5", 54); ("ReagentCount_6", 55);
    ("ReagentCount_7", 56); ("ReagentCount_8", 57)
  ]%string →
  SPELL_FIELDS LOC_INDICES !! key = Some v.
Proof.
  intros Hin. unfold SPELL_FIELDS.
  apply elem_of_list_to_map_1; [|exact Hin].
  cbn [fmap list_fmap fst]. by apply (bool_decide_unpack _).
Qed.

Lemma field_ok LOC_INDICES record key v delta :
  SPELL_FIELDS LOC_INDICES !! key = Some v →
  0 <= v + delta < len record →
  ∃ x, field (SPELL_FIELDS LOC_INDICES) record key delta = Ok x ∧
    get_item record (v + delta) = Ok x.
Proof.
  intros Hkey [H1 H2]. unfold field, dict_get. rewrite Hkey.
  cbn [mbind result_bind]. destruct (get_item_guarded record (v + delta) H1 H2)
    as [x Hx]. by exists x.
Qed.

Lemma field_is_Ok LOC_INDICES record key v delta :
  SPELL_FIELDS LOC_INDICES !! key = Some v →
  0 <= v + delta < len record →
  is_Ok (field (SPELL_FIELDS LOC_INDICES) record key delta) = true.
Proof.
  intros Hkey Hv. by destruct (field_ok _ _ _ _ _ Hkey Hv) as (x & -> & _).
Qed.

Lemma lift_bind {S A B} (r : result A) (k : A → stE S B) (s : S) a :
  r = Ok a → (lift r ≫= k) s = k a s.
Proof. by intros ->. Qed.

Lemma get_string_bind {B} offset (k : list Z → stE DBCReader B) self :
  (get_string_m offset ≫= k) self
  = k (get_string self offset).1 (get_string self offset).2.
Proof.
  unfold mbind, stE_bind, get_string_m. by destruct (get_string self offset).
Qed.

Lemma reagents_loop_total LOC_INDICES record idxs : ∀ reagents,
  58 <= len record → Forall (λ i, 1 <= i <= 8) idxs →
  ∃ out, reagents_loop (SPELL_FIELDS LOC_INDICES) record idxs reagents = Ok out.
Proof.
  intros reagents Hlen Hall. revert reagents.
  induction Hall as [|i idxs Hi _ IH]; intros reagents; [by eexists|].
  cbn [reagents_loop].
  assert (Hcases : i = 1 ∨ i = 2 ∨ i = 3 ∨ i = 4 ∨ i = 5 ∨ i = 6 ∨ i = 7 ∨ i = 8)
    by lia.
  assert (Hfields :
            is_Ok (field (SPELL_FIELDS LOC_INDICES) record
                     ("Reagent_" +:+ pretty i) 0) = true ∧
            is_Ok (field (SPELL_FIELDS LOC_INDICES) record
                     ("ReagentCount_" +:+ pretty i) 0) = true).
  { destruct Hcases as [->|[->|[->|[->|[->|[->|[->| ->]]]]]]];
      repeat match goal with
             | |- context [(?p +:+ pretty ?n)%string] =>
               let k := eval vm_compute in (p +:+ pretty n)%string in
               change (p +:+ pretty n)%string with k
             end;
      (split; (eapply field_is_Ok;
               [apply SPELL_FIELDS_lookup;
                repeat first [apply list_elem_of_here | apply list_elem_of_further]
               |lia])). }
  destruct Hfields as [Ha Hb].
  destruct (field _ _ ("Reagent_" +:+ pretty i) 0) as [a|]; [|done].
  destruct (field _ _ ("ReagentCount_" +:+ pretty i) 0) as [b|]; [|done].
  cbn [mbind result_bind].
  destruct (a >? 0); apply IH.
Qed.

Lemma extract_spell_total LOC_INDICES off record t self :
  wide_enough LOC_INDICES (len record) → 0 <= off < 8 →
  match extract_spell (SPELL_FIELDS LOC_INDICES) off record t self with
  | Ok (Some row, _) => get_item record 0 = Ok (sa_id row)
  | _ => False
  end.
Proof.
  intros (Hw & Hn1 & Hn2 & Hs1 & Hs2 & Hd1 & Hd2) Hoff.
  unfold name_column, subtext_column, description_column in *.
  unfold extract_spell.
  destruct (field_ok LOC_INDICES record "Id" 0 0) as (spell_id & Hid & Hget);
    [apply SPELL_FIELDS_lookup;
     repeat first [apply list_elem_of_here | apply list_elem_of_further]|lia|].
  rewrite (lift_bind _ _ _ _ Hid). cbn beta.
  repeat first
    [ rewrite get_string_bind; cbn beta zeta
    | match goal with
      | |- context [lift (field ?SF record ?key ?d)] =>
        let x := fresh "x" in
        let Hx := fresh "Hx" in
        assert (Hx : is_Ok (field SF record key d) = true);
        [eapply field_is_Ok;
         [apply SPELL_FIELDS_lookup;
          repeat first [apply list_elem_of_here | apply list_elem_of_further]
         |unfold name_column, subtext_column, description_column; lia]
        |destruct (field SF record key d) as [x|]; [clear Hx|discriminate Hx];
         rewrite (lift_bind _ _ _ _ eq_refl); cbn beta zeta]
      | |- context [let '(_, _) := ?p in _] => destruct p
      | |- context [lift (reagents_loop ?SF record ?idxs ?acc)] =>
        let out := fresh "out" in
        let Hout := fresh "Hout" in
        destruct (reagents_loop_total LOC_INDICES record idxs acc) as [out Hout];
        [lia|apply Forall_forall; intros i Hi%elem_of_seqZ; lia|];
        rewrite (lift_bind _ _ _ _ Hout); cbn beta zeta
      end ].
  exact Hget.
Qed.

Lemma extract_loop_total LOC_INDICES off t recs : ∀ spells skipped self,
  Forall (λ r, wide_enough LOC_INDICES (len r)) recs → 0 <= off < 8 →
  ∃ rows self',
    extract_loop (SPELL_FIELDS LOC_INDICES) off t recs spells skipped self
      = Ok (spells ++ rows, skipped, self') ∧
    Forall2 (λ row record, get_item record 0 = Ok (sa_id row)) rows recs.
Proof.
  induction recs as [|record recs IH]; intros spells skipped self Hall Hoff.
  { exists [], self. by rewrite app_nil_r. }
  apply Forall_cons in Hall as [Hrec Hall]. cbn [extract_loop].
  pose proof (extract_spell_total LOC_INDICES off record t self Hrec Hoff) as Hrow.
  unfold mbind at 1, stE_bind at 1.
  destruct (extract_spell _ _ _ _ _) as [[[row|] self1]|]; [|done..].
  destruct (IH (spells ++ [row]) skipped self1 Hall Hoff)
    as (rows & self' & -> & Hrows).
  exists (row :: rows), self'. rewrite <- app_assoc. split; [done|].
  by constructor.
Qed.

Lemma detect_locale_offset_range spell_dbc loc_index :
  0 <= (detect_locale_offset spell_dbc loc_index).1 < 8.
Proof.
  unfold detect_locale_offset, detect_locale.
  destruct (score_records _ _ _ _) as [scores self']. cbn [fst best_off].
  apply (max_by_slots (λ i, default 0 (scores !! Z.to_nat i))).
Qed.

(** X18. [main] of [extract_spells.py] goes through its pass whenever
    the four lookup tables load, [Spell.dbc] is read and its records are
    wide enough for the columns of [SPELL_FIELDS] (118 fields, and the
    eight slots of each of the three localized columns, whatever slot the
    locale detection picks): it emits one row for each record, in the
    order of the records and each with the record's first field as its
    id, and counts no skip. *)
Theorem main_total (LOC_INDICES : gmap string Z)
    (icon_file duration_file cast_time_file range_file spell_file : list byte)
    (spell_dbc : DBCReader) :
  is_Ok (load_spell_icons icon_file) = true →
  is_Ok (load_spell_durations duration_file) = true →
  is_Ok (load_spell_cast_times cast_time_file) = true →
  is_Ok (load_spell_ranges range_file) = true →
  new (DBC_PATH +:+ "/Spell.dbc") spell_file = Ok spell_dbc →
  wide_enough LOC_INDICES (field_count spell_dbc) →
  ∃ rows,
    main LOC_INDICES icon_file duration_file cast_time_file range_file spell_file
      = Ok (rows, 0) ∧
    Forall2 (λ row record, get_item record 0 = Ok (sa_id row))
            rows (records spell_dbc).
Proof.
  intros Hicons Hdurations Hcasts Hranges Hnew Hwide. unfold main.
  destruct (load_spell_icons icon_file) as [icon_map|]; [|done].
  destruct (load_spell_durations duration_file) as [duration_map|]; [|done].
  destruct (load_spell_cast_times cast_time_file) as [cast_time_map|]; [|done].
  destruct (load_spell_ranges range_file) as [range_map|]; [|done].
  rewrite Hnew. cbn [mbind result_bind]. unfold main_extract. cbv zeta.
  unfold dict_get at 1.
  rewrite (SPELL_FIELDS_lookup LOC_INDICES "Name_enUS" (name_column LOC_INDICES))
    by repeat first [apply list_elem_of_here | apply list_elem_of_further].
  cbn [mbind result_bind].
  pose proof (detect_locale_offset_range spell_dbc (name_column LOC_INDICES))
    as Hoff.
  pose proof (detect_locale_offset_records spell_dbc (name_column LOC_INDICES))
    as Hrecs.
  destruct (detect_locale_offset _ _) as [off self1]. cbn [fst snd] in *.
  rewrite Hrecs.
  destruct (extract_loop_total LOC_INDICES off
              (mkTables icon_map duration_map cast_time_map range_map)
              (records spell_dbc) [] 0 self1) as (rows & self' & -> & Hrows);
    [|done|by exists rows].
  eapply Forall_impl; [exact (es_records_shape _ _ _ Hnew)|].
  intros r [-> _]. exact Hwide.
Qed.

End wide_tables.

Lemma main_total_witness :
  ∃ rows,
    @ExtractSpells.main ascii_lib ∅ icon_table scenario_table scenario_table
      scenario_table test_spell_table = Ok (rows, 0) ∧
    Forall2 (λ row record, get_item record 0 = Ok (ExtractSpells.sa_id row))
            rows [<[119%nat := 1]> (1 :: replicate 146 0)].
Proof.
  apply (@main_total ascii_lib ∅ icon_table scenario_table scenario_table
           scenario_table test_spell_table
           (ExtractSpells.mkDBCReader (ExtractSpells.DBC_PATH +:+ "/Spell.dbc")
              [<[119%nat := 1]> (1 :: replicate 146 0)]
              (x00 :: utf8_encode (str_lit "Test Spell (OLD)") ++ [x00]) 147 ∅));
    try reflexivity.
  unfold wide_enough, name_column, subtext_column, description_column.
  rewrite !lookup_empty. cbn. lia.
Defined.

(** ** The diagnostics at the end of [main] *)

Section final_diagnostics.
Import ExtractSpells.

Lemma print_slots_total record base offs : ∀ self,
  Forall (λ i, 0 <= base + i < len record) offs →
  ∃ self', print_slots record base offs self = Ok ((), self') ∧
    records self' = records self.
Proof.
  induction offs as [|i offs IH]; intros self Hall; [by exists self|].
  apply Forall_cons in Hall as [Hi Hall]. cbn [print_slots].
  destruct (get_item_guarded record (base + i)) as [w Hw]; [lia..|].
  rewrite (lift_bind _ _ _ _ Hw), get_string_bind.
  destruct (IH (get_string self w).2 Hall) as (self' & -> & Hrecs).
  exists self'. split; [done|]. by rewrite Hrecs, get_string_records.
Qed.

Lemma print_blocks_total LOC_INDICES record block_names : ∀ self,
  Forall (λ block_name, ∃ base, LOC_INDICES !! block_name = Some base ∧
            0 <= base ∧ base + 8 <= len record) block_names →
  ∃ self', print_blocks LOC_INDICES record block_names self = Ok ((), self') ∧
    records self' = records self.
Proof.
  induction block_names as [|block_name rest IH]; intros self Hall.
  { by exists self. }
  apply Forall_cons in Hall as [(base & Hbase & H1 & H2) Hall].
  cbn [print_blocks].
  assert (Hget : dict_get LOC_INDICES block_name = Ok base).
  { unfold dict_get. by rewrite Hbase. }
  rewrite (lift_bind _ _ _ _ Hget).
  destruct (print_slots_total record base (seqZ 0 8) self) as (self1 & Hs & Hr1).
  { apply Forall_forall. intros i Hi%elem_of_seqZ. lia. }
  unfold mbind at 1, stE_bind at 1. rewrite Hs.
  destruct (IH self1 Hall) as (self' & -> & Hrecs).
  exists self'. split; [done|]. by rewrite Hrecs.
Qed.

Lemma focus_test_total LOC_INDICES recs : ∀ self,
  Forall (λ record,
            Forall (λ block_name, ∃ base, LOC_INDICES !! block_name = Some base ∧
                      0 <= base ∧ base + 8 <= len record)
                   ["Name"; "NameSubtext"; "Description"]%string) recs →
  ∃ self', focus_test LOC_INDICES recs self = Ok ((), self').
Proof.
  induction recs as [|record rest IH]; intros self Hall; [by exists self|].
  apply Forall_cons in Hall as [Hrec Hall]. cbn [focus_test].
  destruct (get_item_guarded record 0) as [spell_id Hid]; [lia|..].
  { apply Forall_cons in Hrec as [(base & _ & ? & ?) _]. lia. }
  rewrite (lift_bind _ _ _ _ Hid).
  destruct (spell_id =? 2); [|by apply IH].
  destruct (print_blocks_total LOC_INDICES record
              ["Name"; "NameSubtext"; "Description"]%string self Hrec)
    as (self' & -> & _).
  by exists self'.
Qed.

(** X19. The diagnostics that end [main] of [extract_spells.py], run
    once the output is written, raise [IndexError] on a [Spell.dbc]
    without records and [KeyError] when the definition file declares no
    localized block [Name], although [SPELL_FIELDS] has a default for it;
    they go through when the three blocks are declared and every record
    has their eight slots. *)
Theorem diagnostics_outcome (LOC_INDICES : gmap string Z) (spell_dbc : DBCReader) :
  (records spell_dbc = [] →
     diagnostics LOC_INDICES spell_dbc = Raise IndexError) ∧
  (records spell_dbc ≠ [] → LOC_INDICES !! "Name" = None →
     diagnostics LOC_INDICES spell_dbc = Raise (KeyError "Name")) ∧
  (records spell_dbc ≠ [] →
   Forall (λ record,
             Forall (λ block_name, ∃ base, LOC_INDICES !! block_name = Some base ∧
                       0 <= base ∧ base + 8 <= len record)
                    ["Name"; "NameSubtext"; "Description"]%string)
          (records spell_dbc) →
   ∃ self', diagnostics LOC_INDICES spell_dbc = Ok ((), self')).
Proof.
  unfold diagnostics. split; [|split].
  - by intros ->.
  - intros Hne Hname. destruct (records spell_dbc) as [|first rest]; [done|].
    assert (Hfirst : get_item (first :: rest) 0 = Ok first) by done.
    rewrite (lift_bind _ _ _ _ Hfirst). cbn [print_blocks].
    unfold mbind at 1, stE_bind at 1, mbind at 1, stE_bind at 1, lift, dict_get.
    by rewrite Hname.
  - intros Hne Hall. destruct (records spell_dbc) as [|first rest] eqn:Erecs;
      [done|].
    assert (Hfirst : get_item (first :: rest) 0 = Ok first) by done.
    rewrite (lift_bind _ _ _ _ Hfirst).
    pose proof Hall as [Hf _]%Forall_cons.
    destruct (print_blocks_total LOC_INDICES first
                ["Name"; "NameSubtext"; "Description"]%string spell_dbc Hf)
      as (self1 & Hblocks & _).
    unfold mbind at 1, stE_bind at 1. rewrite Hblocks.
    by apply focus_test_total.
Qed.

End final_diagnostics.

Lemma diagnostics_witness :
  ExtractSpells.diagnostics ∅
    (ExtractSpells.mkDBCReader "Spell.dbc" [[5; 0; 0]; [6; 4; 0]]
       [x41; x42; x00; x43; x44; x00] 3 ∅)
  = Raise (KeyError "Name").
Proof.
  apply (diagnostics_outcome ∅
           (ExtractSpells.mkDBCReader "Spell.dbc" [[5; 0; 0]; [6; 4; 0]]
              [x41; x42; x00; x43; x44; x00] 3 ∅)).
  - discriminate.
  - reflexivity.
Defined.

(** ** The counters of the pass of [extrac_game_data.py] *)

Lemma extract_spells_step_counts dbc icon_map st record st' :
  ExtracGameData.extract_spells_step dbc icon_map st record = Ok st' →
  ExtracGameData.no_name_count st'
    = ExtracGameData.no_name_count st + (if nameless dbc record then 1 else 0) ∧
  ExtracGameData.non_english_count st'
    = ExtracGameData.non_english_count st + (if foreign dbc record then 1 else 0).
Proof.
  unfold ExtracGameData.extract_spells_step, nameless, foreign, kept_id, column_name.
  intros (spell_id & -> & Hstep)%result_bind_Ok. cbn beta in Hstep.
  destruct ((spell_id =? 0) || (spell_id >? 100000));
    [injection Hstep as <-; cbn; lia|].
  apply result_bind_Ok in Hstep as (name & -> & Hstep).
  apply result_bind_Ok in Hstep as (rank & _ & Hstep). cbn beta in Hstep.
  cbn [negb andb].
  assert (Hshort : bool_decide (name = []) || (len name <? 2) = (len name <? 2)).
  { case_bool_decide as Hn; [by subst|done]. }
  rewrite Hshort in Hstep.
  destruct (len name <? 2); [injection Hstep as <-; cbn; lia|].
  apply result_bind_Ok in Hstep as ([raw non_english] & Hraw & Hstep).
  cbn beta iota in Hstep. cbn [negb andb].
  assert (Hne : non_english
                = ExtracGameData.non_english_count st
                  + (if has_high_char name then 1 else 0)).
  { destruct (has_high_char name).
    - by apply result_bind_Ok in Hraw as (n & _ & [= _ <-]).
    - injection Hraw as _ <-. lia. }
  destruct (contains (str_lit "(OLD)") raw || contains (str_lit "Test") raw
            || contains (str_lit "QA") raw);
    [injection Hstep as <-; cbn; lia|].
  apply result_bind_Ok in Hstep as (icon_spellbook & _ & Hstep).
  apply result_bind_Ok in Hstep as (icon_target & _ & Hstep).
  cbn beta zeta in Hstep. injection Hstep as <-. cbn. lia.
Qed.

Lemma extract_spells_loop_counts dbc icon_map recs : ∀ st st',
  ExtracGameData.extract_spells_loop dbc icon_map recs st = Ok st' →
  ExtracGameData.no_name_count st'
    = ExtracGameData.no_name_count st
      + len (filter (λ r, nameless dbc r = true) recs) ∧
  ExtracGameData.non_english_count st'
    = ExtracGameData.non_english_count st
      + len (filter (λ r, foreign dbc r = true) recs).
Proof.
  induction recs as [|record recs IH]; intros st st'.
  { intros [= <-]. unfold len. cbn. lia. }
  cbn [ExtracGameData.extract_spells_loop].
  intros (st1 & Hstep & Hloop)%result_bind_Ok.
  apply extract_spells_step_counts in Hstep as [H1 H2].
  apply IH in Hloop as [H3 H4]. rewrite H3, H4, H1, H2.
  rewrite !filter_cons. unfold len.
  destruct (nameless dbc record); destruct (foreign dbc record);
    repeat case_decide; try done; cbn [length]; lia.
Qed.

(** X20. The two counters of the pass of [extrac_game_data.py] count
    exactly: whenever the pass returns, [no_name_count] is the number of
    records with an id in [1 .. 100000] whose name in column 120 has
    fewer than 2 characters, and [non_english_count] the number of
    records with such an id and a name of at least 2 characters one of
    which lies above 127, whether or not the row is then let through. *)
Theorem pass_counters_count (dbc : ExtracGameData.DBCReader)
    (icon_map : gmap Z (list Z)) (st : ExtracGameData.pass) :
  ExtracGameData.extract_spells dbc icon_map = Ok st →
  ExtracGameData.no_name_count st
    = len (filter (λ r, nameless dbc r = true) (ExtracGameData.records dbc)) ∧
  ExtracGameData.non_english_count st
    = len (filter (λ r, foreign dbc r = true) (ExtracGameData.records dbc)).
Proof.
  intros Hrun. apply extract_spells_loop_counts in Hrun as [H1 H2].
  cbn [ExtracGameData.no_name_count ExtracGameData.non_english_count] in *.
  split; lia.
Qed.

Lemma pass_counters_witness :
  1 = len (filter (λ r, nameless
                          (ExtracGameData.mkDBCReader "Spell.dbc"
                             [named_record 0 3; named_record 5 1; named_record 7 3]
                             names_heap 121 484 3) r = true)
                  [named_record 0 3; named_record 5 1; named_record 7 3]) ∧
  0 = len (filter (λ r, foreign
                          (ExtracGameData.mkDBCReader "Spell.dbc"
                             [named_record 0 3; named_record 5 1; named_record 7 3]
                             names_heap 121 484 3) r = true)
                  [named_record 0 3; named_record 5 1; named_record 7 3]).
Proof.
  apply (pass_counters_count
           (ExtracGameData.mkDBCReader "Spell.dbc"
              [named_record 0 3; named_record 5 1; named_record 7 3]
              names_heap 121 484 3) ∅
           (ExtracGameData.mkPass
              {[ "7"%string :=
                   ExtracGameData.mkSpell 7 (str_lit "Fireball") None 0 None ]}
              1 0)).
  vm_compute. reflexivity.
Defined.

(** ** What a resolved string can hold *)

Lemma b2z_nonzero b : b ≠ x00 → 0 < b2z b.
Proof.
  intros Hb. pose proof (b2z_range b). destruct (decide (b2z b = 0)) as [H0|]; [|lia].
  by apply b2z_x00 in H0.
Qed.

(** The decoder yields Unicode scalar values only, and no [U+0000] from
    bytes that hold no null. *)
Lemma decode_scalar n : ∀ data,
  (length data <= n)%nat → Forall (λ b, b ≠ x00) data →
  Forall heap_char (utf8_decode_ignore data).
Proof.
  induction n as [|n IH]; intros data Hlen Hdata.
  { destruct data; [constructor|simpl in Hlen; lia]. }
  destruct data as [|b0 t]; [constructor|].
  apply Forall_cons in Hdata as [Hb0 Ht]. cbn [length] in Hlen.
  pose proof (b2z_range b0) as R0. pose proof (b2z_nonzero b0 Hb0) as P0.
  assert (IHt : Forall heap_char (utf8_decode_ignore t)) by (apply IH; [lia|done]).
  cbn [utf8_decode_ignore]. cbv zeta.
  destruct (Z.ltb_spec (b2z b0) 0x80).
  { constructor; [|done]. unfold heap_char. lia. }
  destruct (Z.ltb_spec (b2z b0) 0xC2); [done|].
  destruct t as [|b1 t1]; [by repeat destruct (_ <? _)|].
  apply Forall_cons in Ht as [Hb1 Ht1]. cbn [length] in Hlen.
  pose proof (b2z_range b1) as R1.
  assert (IHt1 : Forall heap_char (utf8_decode_ignore t1))
    by (apply IH; [lia|done]).
  destruct (Z.ltb_spec (b2z b0) 0xE0).
  { destruct (is_cont b1) eqn:C1; [|done].
    apply is_cont_iff in C1. constructor; [|done]. unfold heap_char. lia. }
  destruct (Z.ltb_spec (b2z b0) 0xF0).
  { destruct (is_cont b1) eqn:C1; [|done]. apply is_cont_iff in C1. cbn [negb orb].
    destruct (if b2z b1 <? 160 then b2z b0 =? 224 else b2z b0 =? 237) eqn:Erej;
      [done|].
    destruct t1 as [|b2 t2]; [constructor|].
    apply Forall_cons in Ht1 as [Hb2 Ht2]. cbn [length] in Hlen.
    assert (IHt2 : Forall heap_char (utf8_decode_ignore t2))
      by (apply IH; [lia|done]).
    destruct (is_cont b2) eqn:C2; [|done]. apply is_cont_iff in C2.
    constructor; [|done]. unfold heap_char.
    destruct (Z.ltb_spec (b2z b1) 160);
      [apply Z.eqb_neq in Erej|apply Z.eqb_neq in Erej]; lia. }
  destruct (Z.ltb_spec (b2z b0) 0xF5); [|done].
  destruct (is_cont b1) eqn:C1; [|done]. apply is_cont_iff in C1. cbn [negb orb].
  destruct (if b2z b1 <? 144 then b2z b0 =? 240 else b2z b0 =? 244) eqn:Erej;
    [done|].
  destruct t1 as [|b2 t2]; [constructor|].
  apply Forall_cons in Ht1 as [Hb2 Ht2]. cbn [length] in Hlen.
  assert (IHt2 : Forall heap_char (utf8_decode_ignore t2))
    by (apply IH; [lia|done]).
  destruct (is_cont b2) eqn:C2; [|done]. apply is_cont_iff in C2. cbn [negb].
  destruct t2 as [|b3 t3]; [constructor|].
  pose proof Ht2 as [Hb3 Ht3]%Forall_cons. cbn [length] in Hlen.
  destruct (is_cont b3) eqn:C3; [|exact IHt2].
  apply is_cont_iff in C3.
  constructor; [|apply IH; [lia|done]]. unfold heap_char.
  destruct (Z.ltb_spec (b2z b1) 144);
    [apply Z.eqb_neq in Erej|apply Z.eqb_neq in Erej]; lia.
Qed.

Lemma find_null_from_spec l : ∀ i,
  0 <= i →
  find_null_from l i = -1 ∨
  ∃ a t, l = a ++ x00 :: t ∧ Forall (λ b, b ≠ x00) a ∧
    find_null_from l i = i + len a.
Proof.
  induction l as [|b l IH]; intros i Hi; [by left|].
  cbn [find_null_from]. destruct (Byte.eqb b x00) eqn:E.
  - apply Byte.byte_dec_bl in E as ->. right. exists [], l.
    split; [done|]. split; [constructor|]. unfold len. cbn. lia.
  - destruct (IH (i + 1)) as [Hnone|(a & t & -> & Ha & He)]; [lia|by left|].
    right. exists (b :: a), t. split; [done|]. split.
    + constructor; [|done]. intros ->. by vm_compute in E.
    + rewrite He. unfold len. cbn [length]. lia.
Qed.

Lemma resolve_scalar blk offset : Forall heap_char (resolve blk offset).
Proof.
  unfold resolve.
  destruct (Z.geb_spec offset (len blk)); [constructor|].
  destruct (Z.ltb_spec offset 0); [constructor|]. cbn [orb].
  destruct (Z.eqb_spec (find_null blk offset) (-1)) as [|Hfound]; [constructor|].
  eapply decode_scalar; [done|].
  unfold find_null in *. rewrite norm_index_in_range in * by lia.
  destruct (find_null_from_spec (drop (Z.to_nat offset) blk) offset)
    as [Hnone|(a & t & Hdrop & Ha & He)]; [lia|done|].
  rewrite He. pose proof (len_nonneg a).
  assert (Hlen : len (drop (Z.to_nat offset) blk) = len blk - offset).
  { unfold len. rewrite length_drop. unfold len in *. lia. }
  rewrite Hdrop, len_app in Hlen. unfold len in Hlen. cbn [length] in Hlen.
  rewrite slice_in_range by (unfold len in *; lia).
  replace (Z.to_nat (offset + len a - offset)) with (length a)
    by (unfold len; lia).
  by rewrite Hdrop, take_app_length.
Qed.

(** X21. Every string [get_string] returns, in the three readers, is
    made of Unicode scalar values other than [U+0000] (no surrogate, no
    null, nothing above [U+10FFFF]), whatever bytes the heap holds: the
    strings that are resolved are among those the round trip can write.
    For the reader of [extract_spells.py] this holds at every offset and
    with any cache the program can have filled; for the other two at
    every offset that is not negative. *)
Theorem resolved_strings_are_scalar :
  (∀ path contents r0 r offset,
     ExtractSpells.new path contents = Ok r0 → reachable r0 r →
     Forall heap_char (ExtractSpells.get_string r offset).1) ∧
  (∀ sm offset, 0 <= offset →
     Forall heap_char (ExtractSpellsSmart.get_string sm offset)) ∧
  (∀ eg offset, 0 <= offset →
     Forall heap_char (ExtracGameData.get_string eg offset)).
Proof.
  split; [|split].
  - intros path contents r0 r offset Hnew Hreach.
    rewrite (get_string_reachable _ _ _ _ _ Hnew Hreach). apply resolve_scalar.
  - intros sm offset Hoff. rewrite smart_get_string_resolve by done.
    apply resolve_scalar.
  - intros eg offset Hoff. rewrite egd_get_string_resolve by done.
    apply resolve_scalar.
Qed.

Example overlong_null_dropped :
  ExtractSpellsSmart.get_string
    (ExtractSpellsSmart.mkDBCReader "Spell.dbc" [] [xc0; x80; x41; xed; xa0; x80; x00] 0 0) 0
  = str_lit "A".
Proof. reflexivity. Qed.

(** ** The rows [extract_spell] builds *)

Section rows.
Context `{PyLib}.
Import ExtractSpells.

Lemma reagents_loop_inv SF record idxs : ∀ reagents out,
  reagents_loop SF record idxs reagents = Ok out →
  ∃ new, out = reagents ++ new ∧ (length new <= length idxs)%nat ∧
    Forall (λ p, 0 < p.1) new.
Proof.
  induction idxs as [|i idxs IH]; intros reagents out.
  { intros [= <-]. exists []. by rewrite app_nil_r. }
  cbn [reagents_loop].
  intros (reagent_id & _ & Hrun)%result_bind_Ok.
  apply result_bind_Ok in Hrun as (reagent_count & _ & Hrun). cbn beta in Hrun.
  destruct (Z.gtb_spec reagent_id 0).
  - apply IH in Hrun as (new & -> & Hlen & Hpos).
    exists ((reagent_id, reagent_count) :: new). rewrite <- app_assoc.
    split; [done|]. split; [cbn [length]; lia|]. constructor; [cbn; lia|done].
  - apply IH in Hrun as (new & -> & Hlen & Hpos).
    exists new. split; [done|]. split; [cbn [length]; lia|done].
Qed.

(** X22. Whatever the record, the columns and the lookup tables, a row
    [extract_spell] returns is normalised: its rank and its reagents are
    absent rather than empty, it lists at most 8 reagents, each with an
    id above 0, its description is trimmed, and its icon is a name of the
    icon map or ["INV_Misc_QuestionMark"]. *)
Theorem emitted_row_normalised (SF : gmap string Z) (LOCALE_OFFSET : Z)
    (record : list Z) (t : tables) (self self' : DBCReader) (row : spell_array) :
  extract_spell SF LOCALE_OFFSET record t self = Ok (Some row, self') →
  sa_rank row ≠ Some [] ∧
  sa_reagents row ≠ Some [] ∧
  (∀ reagents, sa_reagents row = Some reagents →
     (length reagents <= 8)%nat ∧ Forall (λ p, 0 < p.1) reagents) ∧
  strip (sa_desc row) = sa_desc row ∧
  (sa_icon row = str_lit "INV_Misc_QuestionMark" ∨
   ∃ icon_id, icon_map t !! icon_id = Some (sa_icon row)).
Proof.
  unfold extract_spell. intros Hrun.
  do 15 (apply bind_Ok in Hrun as (? & ? & _ & Hrun); cbv zeta in Hrun).
  destruct (default _ _) as [range_min range_max].
  apply bind_Ok in Hrun as (reagents & s & Hreagents & Hrun). cbv zeta in Hrun.
  do 3 (apply bind_Ok in Hrun as (? & ? & _ & Hrun); cbv zeta in Hrun).
  injection Hrun as <- _.
  cbn [sa_rank sa_reagents sa_desc sa_icon].
  unfold lift in Hreagents.
  destruct (reagents_loop _ _ _ _) as [out|] eqn:Eloop; [|done].
  injection Hreagents as -> _.
  apply reagents_loop_inv in Eloop as (new & -> & Hlen & Hpos). cbn [app] in *.
  split; [case_bool_decide; congruence|].
  split; [case_bool_decide; congruence|]. split.
  { intros l. case_bool_decide; [done|]. intros [= <-].
    by rewrite length_seqZ in Hlen. }
  split; [apply parse_description_trimmed|].
  match goal with
  | |- context [icon_map t !! ?i] =>
    destruct (icon_map t !! i) as [name|] eqn:E; [right; by exists i|by left]
  end.
Qed.

End rows.

Lemma emitted_row_witness :
  let row := ExtractSpells.mkSpellArray 1 (str_lit "Test Spell (OLD)") None
               (str_lit "INV_Misc_QuestionMark") 0 [] 0 0 0 0 (Int 0) (Int 0) 0
               None 0 0 0 in
  ExtractSpells.sa_rank row ≠ Some [] ∧
  ExtractSpells.sa_reagents row ≠ Some [] ∧
  (∀ reagents, ExtractSpells.sa_reagents row = Some reagents →
     (length reagents <= 8)%nat ∧ Forall (λ p, 0 < p.1) reagents) ∧
  strip (ExtractSpells.sa_desc row) = ExtractSpells.sa_desc row ∧
  (ExtractSpells.sa_icon row = str_lit "INV_Misc_QuestionMark" ∨
   ∃ icon_id, (∅ : gmap Z (list Z)) !! icon_id = Some (ExtractSpells.sa_icon row)).
Proof.
  intros row.
  refine (@emitted_row_normalised ascii_lib (ExtractSpells.SPELL_FIELDS ∅) 0
            (<[119%nat := 1]> (1 :: replicate 146 0))
            (ExtractSpells.mkTables ∅ ∅ ∅ ∅)
            (ExtractSpells.mkDBCReader "Spell.dbc"
               [<[119%nat := 1]> (1 :: replicate 146 0)]
               (x00 :: utf8_encode (str_lit "Test Spell (OLD)") ++ [x00]) 147 ∅)
            _ row _).
  vm_compute. reflexivity.
Defined.

(** ** Where the entries of the update come from *)

Section smart_provenance.
Import ExtractSpellsSmart.

Lemma best_name_spec spell_dbc record :
  3 < len (best_name spell_dbc record) ∧
  endswith (best_name spell_dbc record) (str_lit "(OLD)") = false ∧
  contains (str_lit " of Recall") (best_name spell_dbc record) = false.
Proof.
  unfold best_name, find_best_spell_name.
  destruct (first_choice_spec record spell_dbc [1; 4; 28; 29; 127; 36; 82])
    as (o1 & -> & H1).
  { repeat constructor; lia. }
  cbn [mbind result_bind]. destruct o1 as [name|].
  { by destruct (H1 name eq_refl) as (? & ? & ? & ? & ?). }
  destruct (fallback_choice_spec record spell_dbc
              (seqZ 0 (Z.min 50 (len record)))) as (o2 & -> & H2).
  { apply Forall_forall. intros i Hi%elem_of_seqZ. lia. }
  cbn [mbind result_bind]. destruct o2 as [name|].
  - destruct (H2 name eq_refl) as (? & ? & ? & ?).
    split; [done|]. split; [by apply endswith_contains|done].
  - split; [by vm_compute|done].
Qed.

Lemma valid_ids_singleton record spell_id :
  valid_ids [record] = [spell_id] →
  get_item record 0 = Ok spell_id ∧ spell_id ≠ 0 ∧ spell_id <= 100000.
Proof.
  unfold valid_ids. cbn [omap list_omap].
  destruct (get_item record 0) as [x|]; [|done].
  destruct (Z.eqb_spec x 0); [done|]. destruct (Z.gtb_spec x 100000); [done|].
  cbn [orb]. intros [= <-]. split; [done|]. split; [done|lia].
Qed.

(** The entries the pass writes, and what it keeps of the identifiers. *)
Lemma update_loop_provenance spell_dbc im recs : ∀ st st',
  update_loop spell_dbc im recs st = Ok st' →
  ∀ key entry, spells_data st' !! key = Some entry →
    spells_data st !! key = Some entry ∨
    ∃ record spell_id,
      record ∈ recs ∧ get_item record 0 = Ok spell_id ∧
      spell_id ≠ 0 ∧ spell_id <= 100000 ∧ key = pretty spell_id ∧
      entry !! "name" = Some (JStr (best_name spell_dbc record)) ∧
      (spells_data st !! key = None → entry !! "id" = Some (JInt spell_id)).
Proof.
  induction recs as [|r recs IH]; intros st st'.
  { intros [= <-] key entry Hkey. by left. }
  cbn [update_loop]. intros (st1 & Hstep & Hloop)%result_bind_Ok key entry Hkey.
  pose proof (update_loop_counts _ _ _ _ _ Hloop) as (_ & _ & _ & _ & Hkeep).
  apply update_step_data in Hstep
    as [[-> _]|(id0 & icon_id & _ & Hvalid & _ & Hcases)].
  { destruct (IH _ _ Hloop key entry Hkey)
      as [Hold|(record & spell_id & Hin & Hid & H1 & H2 & -> & Hname & Hnew)];
      [by left|].
    right. exists record, spell_id. repeat (split; [done|]).
    split; [by right|]. by repeat (split; [done|]). }
  apply valid_ids_singleton in Hvalid as (Hid0 & Hnz0 & Hle0).
  set (name0 := best_name spell_dbc r) in *.
  assert (Hwritten : ∃ e1, spells_data st1 !! pretty id0 = Some e1 ∧
            e1 !! "name" = Some (JStr name0) ∧
            (spells_data st !! pretty id0 = None → e1 !! "id" = Some (JInt id0)) ∧
            ∀ k, k ≠ pretty id0 → spells_data st1 !! k = spells_data st !! k).
  { destruct Hcases as [(entry0 & Hsome & ->)|[Hnone ->]]; cbn [spells_data];
      rewrite lookup_insert_eq; eexists; (split; [done|]).
    - split; [|split]; [|congruence|by intros k Hk; rewrite lookup_insert_ne].
      unfold updated_entry. rewrite !lookup_insert_ne by done.
      by rewrite lookup_insert_eq.
    - split; [|split]; [| |by intros k Hk; rewrite lookup_insert_ne].
      + unfold new_entry. rewrite !lookup_insert_ne by done.
        by rewrite lookup_insert_eq.
      + intros _. unfold new_entry. rewrite !lookup_insert_ne by done.
        by rewrite lookup_singleton_eq. }
  destruct Hwritten as (e1 & He1 & Hname1 & Hid1 & Hframe).
  destruct (IH _ _ Hloop key entry Hkey)
    as [Hold|(record & spell_id & Hin & Hid & H1 & H2 & -> & Hname & Hnew)].
  - destruct (decide (key = pretty id0)) as [->|Hne].
    + right. exists r, id0. assert (entry = e1) as -> by congruence.
      split; [by left|]. by repeat (split; [done|]).
    + left. by rewrite <- Hframe.
  - right. exists record, spell_id. split; [by right|].
    repeat (split; [done|]). intros Hnone.
    destruct (decide (pretty spell_id = pretty id0)) as [Heq|Hne].
    + apply (inj pretty) in Heq as ->.
      destruct (Hkeep (pretty id0) e1 He1) as (entry' & Hentry' & Hfields).
      assert (entry' = entry) as -> by congruence.
      rewrite Hfields by done. by apply Hid1.
    + apply Hnew. by rewrite Hframe.
Qed.

(** X23. Where the entries [update_spell_data] saves come from. When it
    returns, [Spell.dbc] has been read, and each saved entry is an entry
    of [spells.json] left as it was, or comes from a record of
    [Spell.dbc]: it is filed under the id in field 0 of that record, an
    id in [1 .. 100000], and bears the name [find_best_spell_name]
    returns for that record, of more than 3 characters, not ending with
    ["(OLD)"] and without [" of Recall"]; and an entry under a key
    [spells.json] did not have carries that id. *)
Theorem update_provenance
    (spells_json : option (gmap string (gmap string json)))
    (icon_json : option (gmap string json)) (icon_file spell_file : list byte)
    (saved : option (gmap Z (list Z))) (st : update) :
  update_spell_data spells_json icon_json icon_file spell_file = Ok (saved, st) →
  ∃ spell_dbc,
    new "game-data/DBFilesClient/Spell.dbc" spell_file = Ok spell_dbc ∧
    ∀ key entry, spells_data st !! key = Some entry →
      default ∅ spells_json !! key = Some entry ∨
      ∃ record spell_id name,
        record ∈ records spell_dbc ∧
        get_item record 0 = Ok spell_id ∧
        find_best_spell_name record spell_dbc = Ok name ∧
        key = pretty spell_id ∧ 1 <= spell_id <= 100000 ∧
        entry !! "name" = Some (JStr name) ∧ 3 < len name ∧
        endswith name (str_lit "(OLD)") = false ∧
        contains (str_lit " of Recall") name = false ∧
        (default ∅ spells_json !! key = None →
           entry !! "id" = Some (JInt spell_id)).
Proof.
  intros (im & spell_dbc & Hnew & Hloop & _)%update_spell_data_unfold.
  exists spell_dbc. split; [done|]. intros key entry Hkey.
  destruct (update_loop_provenance _ _ _ _ _ Hloop key entry Hkey)
    as [Hold|(record & spell_id & Hin & Hid & H1 & H2 & -> & Hname & Hfresh)];
    [by left|].
  right. exists record, spell_id, (best_name spell_dbc record).
  destruct (best_name_spec spell_dbc record) as (Hlen & Hold & Hrecall).
  split; [done|]. split; [done|]. split.
  { unfold best_name.
    by destruct (find_best_spell_name_returns record spell_dbc) as [name ->]. }
  split; [done|]. split; [|done].
  pose proof (smart_records_shape _ _ _ Hnew) as Hshape.
  eapply Forall_forall in Hshape as [_ Hwords]; [|exact Hin].
  apply get_item_elem in Hid. eapply Forall_forall in Hwords; [|exact Hid].
  cbn beta in Hwords. lia.
Qed.

Lemma update_provenance_witness :
  ∃ spell_dbc,
    new "game-data/DBFilesClient/Spell.dbc" smart_spell_table = Ok spell_dbc ∧
    ∃ record spell_id name,
      record ∈ records spell_dbc ∧
      get_item record 0 = Ok spell_id ∧
      find_best_spell_name record spell_dbc = Ok name ∧
      "5"%string = pretty spell_id ∧ 1 <= spell_id <= 100000 ∧
      new_entry 5 (str_lit "Fireball") 1 (JStr (str_lit "Frost")) !! "name"
        = Some (JStr name) ∧
      3 < len name ∧ endswith name (str_lit "(OLD)") = false ∧
      contains (str_lit " of Recall") name = false ∧
      ((∅ : gmap string (gmap string json)) !! "5"%string = None →
         new_entry 5 (str_lit "Fireball") 1 (JStr (str_lit "Frost")) !! "id"
         = Some (JInt spell_id)).
Proof.
  assert (Hrun : ∃ st, update_spell_data None None icon_table smart_spell_table
                       = Ok (Some {[ 1 := str_lit "Frost" ]}, st) ∧
                   spells_data st !! "5"%string
                   = Some (new_entry 5 (str_lit "Fireball") 1
                             (JStr (str_lit "Frost"))))
    by (eexists; split; vm_compute; reflexivity).
  destruct Hrun as (st & Hrun & Hkey).
  destruct (update_provenance None None icon_table smart_spell_table _ _ Hrun)
    as (spell_dbc & Hnew & Hall).
  exists spell_dbc. split; [exact Hnew|].
  destruct (Hall "5"%string _ Hkey) as [Hold|Hfrom].
  - discriminate Hold.
  - exact Hfrom.
Defined.

End smart_provenance.
